(** * Country image downloader: a shallow embedding of
    [country_image_downloader.py] and the properties of its
    extraction / normalisation / filter / download pipeline.

    A Python [str] is held as the [string] of its UTF-8 bytes.  Tests
    and cuts at ASCII patterns ([in], [split], [startswith], [endswith])
    read the bytes; whatever counts characters or looks at their kind
    ([len], slices, white space, decimal digits) reads the characters,
    each a byte below 128 or a leading byte with its continuation bytes
    ([Utf8.chars]).  Python sets of URLs and the content of the file
    system are finite sets of strings ([gset string]); the iteration
    order of a set is the order of [elements]. *)

From Stdlib Require Import ZArith NArith Ascii String DecimalString DecimalNat Lia.
From stdpp Require Import gmap strings list.

Local Open Scope bool_scope.
Set Warnings "-register-all,-clear-no-such-hyp".

(** ** The characters of a text *)

Module Utf8.

Definition is_ascii (b : ascii) : bool := nat_of_ascii b <? 128.

(** A continuation byte, of the form [10xxxxxx]. *)
Definition is_cont (b : ascii) : bool :=
  (128 <=? nat_of_ascii b) && (nat_of_ascii b <? 192).

Definition cont_head (s : string) : bool :=
  match s with
  | String b _ => is_cont b
  | EmptyString => false
  end.

(** The characters of a text, each with the bytes that encode it: a
    byte below 128 stands alone, any other byte takes the continuation
    bytes that follow it. *)
Fixpoint chars (s : string) : list string :=
  match s with
  | EmptyString => []
  | String a s' =>
      if negb (is_ascii a) && cont_head s' then
        match chars s' with
        | c :: cs => String a c :: cs
        | [] => [String a EmptyString]
        end
      else String a EmptyString :: chars s'
  end.

(** The text made of the characters [cs]. *)
Definition join (cs : list string) : string := foldr append EmptyString cs.

Definition payload (b : ascii) : N := N_of_ascii b - 128.

(** The code point of one character; [None] for bytes that do not
    encode one. *)
Definition codepoint (c : string) : option N :=
  match c with
  | String a EmptyString => if is_ascii a then Some (N_of_ascii a) else None
  | String a (String b EmptyString) =>
      let n := ((N_of_ascii a - 192) * 64 + payload b)%N in
      if (192 <=? N_of_ascii a)%N && (N_of_ascii a <? 224)%N && is_cont b && (128 <=? n)%N
      then Some n else None
  | String a (String b (String c EmptyString)) =>
      let n := ((N_of_ascii a - 224) * 4096 + payload b * 64 + payload c)%N in
      if (224 <=? N_of_ascii a)%N && (N_of_ascii a <? 240)%N && is_cont b && is_cont c
         && (2048 <=? n)%N
      then Some n else None
  | String a (String b (String c (String d EmptyString))) =>
      let n := ((N_of_ascii a - 240) * 262144 + payload b * 4096 + payload c * 64
                + payload d)%N in
      if (240 <=? N_of_ascii a)%N && (N_of_ascii a <? 248)%N && is_cont b && is_cont c
         && is_cont d && (65536 <=? n)%N && (n <? 1114112)%N
      then Some n else None
  | _ => None
  end.

End Utf8.

(** ** Python string primitives *)

Module Py.

(** [s.startswith(p)] *)
Fixpoint startswith (p s : string) : bool :=
  match p, s with
  | EmptyString, _ => true
  | String a p', String b s' => Ascii.eqb a b && startswith p' s'
  | String _ _, EmptyString => false
  end.

(** [sub in s] *)
Fixpoint contains (sub s : string) : bool :=
  startswith sub s ||
  match s with
  | EmptyString => false
  | String _ s' => contains sub s'
  end.

(** [s.endswith(suf)] *)
Fixpoint endswith (suf s : string) : bool :=
  String.eqb s suf ||
  match s with
  | EmptyString => false
  | String _ s' => endswith suf s'
  end.

(** [c in s] for a single character *)
Fixpoint has_char (c : ascii) (s : string) : bool :=
  match s with
  | EmptyString => false
  | String a s' => Ascii.eqb a c || has_char c s'
  end.

(** [s.split(c)[0]]: the text before the first occurrence of [c]. *)
Fixpoint split_head (c : ascii) (s : string) : string :=
  match s with
  | EmptyString => EmptyString
  | String a s' => if Ascii.eqb a c then EmptyString else String a (split_head c s')
  end.

(** The text from the first occurrence of [c] on (empty when absent). *)
Fixpoint split_rest (c : ascii) (s : string) : string :=
  match s with
  | EmptyString => EmptyString
  | String a s' => if Ascii.eqb a c then s else split_rest c s'
  end.

(** [len(s)] *)
Definition len (s : string) : nat := length (Utf8.chars s).

(** [s[:n]] *)
Definition take (n : nat) (s : string) : string := Utf8.join (take n (Utf8.chars s)).

Definition is_upper (c : ascii) : bool :=
  (65 <=? nat_of_ascii c) && (nat_of_ascii c <=? 90).

Definition lower_char (c : ascii) : ascii :=
  if is_upper c then ascii_of_nat (nat_of_ascii c + 32) else c.

(** [s.lower()] *)
Fixpoint lower (s : string) : string :=
  match s with
  | EmptyString => EmptyString
  | String a s' => String (lower_char a) (lower s')
  end.

Definition is_digit (c : ascii) : bool :=
  (48 <=? nat_of_ascii c) && (nat_of_ascii c <=? 57).

(** The code points that [str.isspace], [str.strip] and the pattern
    [\s] take for white space: TAB, LF, VT, FF, CR, the separators FS,
    GS, RS, US, the blank, NEL, the no-break space and the spaces and
    separators above them. *)
Definition whitespace : list N :=
  [ 9; 10; 11; 12; 13; 28; 29; 30; 31; 32; 133; 160; 5760;
    8192; 8193; 8194; 8195; 8196; 8197; 8198; 8199; 8200; 8201; 8202;
    8232; 8233; 8239; 8287; 12288 ]%N.

(** White space, for one character. *)
Definition is_space (c : string) : bool :=
  match Utf8.codepoint c with
  | Some n => existsb (N.eqb n) whitespace
  | None => false
  end.

Fixpoint all_chars (P : ascii → bool) (s : string) : bool :=
  match s with
  | EmptyString => true
  | String a s' => P a && all_chars P s'
  end.

(** [s.isspace()]: at least one character, all of them white space. *)
Definition isspace (s : string) : bool :=
  match Utf8.chars s with
  | [] => false
  | cs => forallb is_space cs
  end.

(** The characters left when the white space in front is dropped. *)
Fixpoint lstrip_chars (cs : list string) : list string :=
  match cs with
  | [] => []
  | c :: cs' => if is_space c then lstrip_chars cs' else cs
  end.

(** The characters left when the white space at the end is dropped. *)
Fixpoint rstrip_chars (cs : list string) : list string :=
  match cs with
  | [] => []
  | c :: cs' =>
      match rstrip_chars cs' with
      | [] => if is_space c then [] else [c]
      | r => c :: r
      end
  end.

(** [s.lstrip()] *)
Definition lstrip (s : string) : string := Utf8.join (lstrip_chars (Utf8.chars s)).

(** [s.rstrip()] *)
Definition rstrip (s : string) : string := Utf8.join (rstrip_chars (Utf8.chars s)).

(** [s.strip()] *)
Definition strip (s : string) : string :=
  Utf8.join (rstrip_chars (lstrip_chars (Utf8.chars s))).

End Py.

(** ** URL normaliser ([_get_high_res_image_url]) *)

(** The test guarding the rewrite: a Google photo host and one of the
    size markers. *)
Definition is_google_photo_url (url : string) : bool :=
  Py.contains "googleusercontent.com" url &&
  (Py.contains "=w" url || Py.contains "=s" url || Py.contains "=h" url).

Definition _get_high_res_image_url (url : string) : string :=
  if is_google_photo_url url then
    let base_url := Py.split_head "=" url in
    base_url +:+ "=w2048-h2048"
  else url.

(** ** Filter stage ([_filter_image_urls]) *)

Module Re.

(** The decimal digits, which the pattern [\d] matches and [int]
    reads, come in ranges of ten, from the digit zero up to the digit
    nine: the code point of the zero of each range (Unicode 14). *)
Definition decimal_zeros : list N :=
  [ 48; 1632; 1776; 1984; 2406; 2534; 2662; 2790; 2918; 3046; 3174; 3302; 3430; 3558;
    3664; 3792; 3872; 4160; 4240; 6112; 6160; 6470; 6608; 6784; 6800; 6992; 7088; 7232;
    7248; 42528; 43216; 43264; 43472; 43504; 43600; 44016; 65296; 66720; 68912; 69734;
    69872; 69942; 70096; 70384; 70736; 70864; 71248; 71360; 71472; 71904; 72016; 72784;
    73040; 73120; 92768; 92864; 93008; 120782; 120792; 120802; 120812; 120822; 123200;
    123632; 125264; 130032 ]%N.

(** The value of a character that is a decimal digit. *)
Definition digit_of (c : string) : option Z :=
  match Utf8.codepoint c with
  | Some n =>
      (λ zero, Z.of_N (n - zero))
        <$> List.find (λ zero, (zero <=? n)%N && (n <? zero + 10)%N) decimal_zeros
  | None => None
  end.

Fixpoint digits_prefix_chars (cs : list string) : list string :=
  match cs with
  | [] => []
  | c :: cs' =>
      match digit_of c with
      | Some _ => c :: digits_prefix_chars cs'
      | None => []
      end
  end.

(** The longest run of decimal digits at the start of [s]: what the
    group [(\d+)] captures. *)
Definition digits_prefix (s : string) : string :=
  Utf8.join (digits_prefix_chars (Utf8.chars s)).

(** The pattern [=<tag>(\d+)] tried at the start of [s]. *)
Definition match_directive (tag : ascii) (s : string) : option string :=
  match s with
  | String a (String b r) =>
      if Ascii.eqb a "=" && Ascii.eqb b tag then
        match digits_prefix r with
        | EmptyString => None
        | d => Some d
        end
      else None
  | _ => None
  end.

(** [re.search(r"=<tag>(\d+)", s)]: the group of the leftmost match. *)
Fixpoint search_directive (tag : ascii) (s : string) : option string :=
  match match_directive tag s with
  | Some d => Some d
  | None =>
      match s with
      | EmptyString => None
      | String _ s' => search_directive tag s'
      end
  end.

(** The value of an ASCII digit. *)
Definition digit_value (c : ascii) : Z := Z.of_nat (nat_of_ascii c) - 48.

(** The largest number of digits that [int] converts
    ([sys.int_info.default_max_str_digits]). *)
Definition int_max_str_digits : nat := 4300.

Fixpoint int_chars (acc : Z) (cs : list string) : option Z :=
  match cs with
  | [] => Some acc
  | c :: cs' =>
      match digit_of c with
      | Some d => int_chars (10 * acc + d) cs'
      | None => None
      end
  end.

(** [int(d)] on the text of a group; [None] stands for [ValueError],
    raised for a text of more than [int_max_str_digits] digits. *)
Definition int (d : string) : option Z :=
  let cs := Utf8.chars d in
  if int_max_str_digits <? length cs then None else int_chars 0 cs.

(** The first substitution of [_sanitize_filename]: each of the nine
    characters backslash, slash, star, question mark, colon, double
    quote, less-than, greater-than and bar becomes an underscore. *)
Definition is_illegal (c : ascii) : bool :=
  match nat_of_ascii c with
  | 92 | 47 | 42 | 63 | 58 | 34 | 60 | 62 | 124 => true
  | _ => false
  end.

Fixpoint sub_illegal (s : string) : string :=
  match s with
  | EmptyString => EmptyString
  | String a s' => String (if is_illegal a then "_"%char else a) (sub_illegal s')
  end.

(** The second substitution, of the pattern [\s+]: every maximal run
    of white space becomes one blank.  A white-space character followed
    by another one is dropped, the last of a run is replaced. *)
Fixpoint sub_spaces_chars (cs : list string) : list string :=
  match cs with
  | [] => []
  | c :: cs' =>
      if Py.is_space c then
        match cs' with
        | d :: _ => if Py.is_space d then sub_spaces_chars cs' else " " :: sub_spaces_chars cs'
        | [] => [" "]
        end
      else c :: sub_spaces_chars cs'
  end.

Definition sub_spaces (s : string) : string :=
  Utf8.join (sub_spaces_chars (Utf8.chars s)).

End Re.

(** The width and height the filter reads off a URL: both markers must
    be present, both patterns must match and both groups must be
    converted; when [int] raises, the handler of the block passes and
    the URL goes on to the next test like one without a size. *)
Definition declared_size (url : string) : option (Z * Z) :=
  if Py.contains "=w" url && Py.contains "=h" url then
    match Re.search_directive "w" url, Re.search_directive "h" url with
    | Some width_match, Some height_match =>
        match Re.int width_match, Re.int height_match with
        | Some width, Some height => Some (width, height)
        | _, _ => None
        end
    | _, _ => None
    end
  else None.

Definition icon_hosts : list string :=
  [ "maps.googleapis.com"; "maps.gstatic.com"; "googleusercontent.com/gadgets";
    "google.com/images"; "gstatic.com/images" ].

Definition filter_extensions : list string := [ ".jpg"; ".jpeg"; ".png"; ".webp"; ".gif" ].

(** One pass of the loop body: [true] when the URL reaches
    [filtered_urls.add(url)], [false] when a [continue] is taken. *)
Definition keeps (url : string) : bool :=
  if match declared_size url with
     | Some (width, height) => (width <? 100)%Z || (height <? 100)%Z
     | None => false
     end
  then false
  else if existsb (λ x, Py.contains x url) icon_hosts then false
  else if negb (existsb (λ ext, Py.endswith ext (Py.lower url)) filter_extensions)
          && negb (Py.contains "=w" url) && negb (Py.contains "=h" url)
  then false
  else true.

Definition _filter_image_urls (urls : gset string) : gset string :=
  foldl (λ filtered_urls url, if keeps url then {[ url ]} ∪ filtered_urls else filtered_urls)
        ∅ (elements urls).

(** The cap applied by [download_images_for_country] after filtering:
    [list(image_urls)[:max_images]] when the limit is positive and
    exceeded, the collection itself (in iteration order) otherwise. *)
Definition limit_images (max_images : Z) (image_urls : gset string) : list string :=
  if (0 <? max_images)%Z && (max_images <? Z.of_nat (size image_urls))%Z
  then take (Z.to_nat max_images) (elements image_urls)
  else elements image_urls.

(** ** File name sanitation ([_sanitize_filename]) *)

Definition _sanitize_filename (name : string) : string :=
  let sanitized := Re.sub_illegal name in
  let sanitized := Re.sub_spaces sanitized in
  let sanitized :=
    if 50 <? Py.len sanitized then Py.take 47 sanitized +:+ "..." else sanitized in
  let sanitized :=
    if String.eqb sanitized "" || Py.isspace sanitized then "unnamed_country" else sanitized in
  Py.strip sanitized.

(** ** Recursive JSON walk ([_extract_images_from_json_object]) *)

(** A parsed JSON document.  A number is kept by its literal, which
    the walk never looks at.  A mapping is the list of its items in
    insertion order; the keys of a parsed mapping are pairwise
    different. *)
Inductive json : Type :=
| JNull
| JBool (b : bool)
| JNum (literal : string)
| JStr (s : string)
| JList (items : list json)
| JDict (items : list (string * json)).

(** [d[key]] when [key in d]: continue with [some value], else [none]. *)
Definition dict_case {A : Type} (key : string) (none : A) (some : json → A) :
    list (string * json) → A :=
  fix go d :=
    match d with
    | [] => none
    | (k, value) :: d' => if String.eqb k key then some value else go d'
    end.

Definition dict_get (key : string) (d : list (string * json)) : option json :=
  dict_case key None Some d.

Definition recognized_keys : list string :=
  [ "image"; "images"; "photo"; "photos"; "thumbnail"; "thumbnailUrl"; "contentUrl" ].

Definition json_extensions : list string := [ ".jpg"; ".jpeg"; ".png"; ".webp" ].

(** The test applied to a string value: it starts with [http] and one of
    the extensions occurs in its lower-case form. *)
Definition is_json_image_url (value : string) : bool :=
  Py.startswith "http" value &&
  existsb (λ ext, Py.contains ext (Py.lower value)) json_extensions.

Definition add_image (value : string) (image_urls : gset string) : gset string :=
  {[ _get_high_res_image_url value ]} ∪ image_urls.

Section Walk.

(** The three places where the walk looks at a value, over the
    recursive call [walk]. *)
Variable walk : json → gset string → gset string.

(** An element of a sequence stored under a recognised key. *)
Definition on_item (image_urls : gset string) (item : json) : gset string :=
  match item with
  | JStr s => if is_json_image_url s then add_image s image_urls else image_urls
  | JDict _ => walk item image_urls
  | _ => image_urls
  end.

(** The value stored under a recognised key. *)
Definition on_value (image_urls : gset string) (value : json) : gset string :=
  match value with
  | JStr s => if is_json_image_url s then add_image s image_urls else image_urls
  | JList items => foldl on_item image_urls items
  | JDict _ => walk value image_urls
  | _ => image_urls
  end.

(** A value of the mapping in the second loop, whatever its key. *)
Definition on_child (image_urls : gset string) (value : json) : gset string :=
  match value with
  | JDict _ | JList _ => walk value image_urls
  | _ => image_urls
  end.

End Walk.

Fixpoint _extract_images_from_json_object (json_data : json) (image_urls : gset string)
    {struct json_data} : gset string :=
  match json_data with
  | JDict d =>
      foldl (λ image_urls kv, on_child _extract_images_from_json_object image_urls (snd kv))
        (foldl (λ image_urls key,
                  dict_case key image_urls
                    (on_value _extract_images_from_json_object image_urls) d)
               image_urls recognized_keys)
        d
  | JList l =>
      foldl (λ image_urls item, _extract_images_from_json_object item image_urls) image_urls l
  | _ => image_urls
  end.

(** ** Entity list parser ([get_countries_from_file]) *)

Record country : Type := Country { country_id : string; country_name : string }.

Definition newline : ascii := "010"%char.

(** [f.readlines()] on the text of the file as text mode delivers it
    (line ends already translated to line feeds): the lines, each with
    its terminating line feed when it has one. *)
Fixpoint readlines (text : string) : list string :=
  match text with
  | EmptyString => []
  | String a text' =>
      if Ascii.eqb a newline then String a EmptyString :: readlines text'
      else match readlines text' with
           | [] => [String a EmptyString]
           | line :: lines => String a line :: lines
           end
  end.

(** The text after the first occurrence of [c]. *)
Definition split_tail (c : ascii) (s : string) : string :=
  match Py.split_rest c s with
  | EmptyString => EmptyString
  | String _ r => r
  end.

(** [s.split(c, 1)] *)
Definition split_once (c : ascii) (s : string) : list string :=
  if Py.has_char c s then [Py.split_head c s; split_tail c s] else [s].

(** The state of the loop: the countries appended so far and the
    warnings sent to the logger. *)
Record parse_state : Type :=
  ParseState { countries : list country; warnings : list string }.

Definition process_line (st : parse_state) (line : string) : parse_state :=
  let line := Py.strip line in
  if String.eqb line "" then st
  else
    match split_once ":" line with
    | [id_part; name_part] =>
        ParseState (countries st ++ [Country (Py.strip id_part) (Py.strip name_part)])
                   (warnings st)
    | _ => ParseState (countries st) (warnings st ++ ["Could not parse line: " +:+ line])
    end.

Definition parse_lines (lines : list string) : parse_state :=
  foldl process_line (ParseState [] []) lines.

(** [file] is the text of the country list, [None] when the file does
    not exist or cannot be read (the function then returns the empty
    list). *)
Definition get_countries_from_file (file : option string) : list country :=
  match file with
  | None => []
  | Some text => countries (parse_lines (readlines text))
  end.

(** ** Downloader and verifier ([_download_images]) *)

(** [f"{n:03d}"]: decimal, padded with zeros to three digits. *)
Definition decimal (n : nat) : string := NilEmpty.string_of_uint (Nat.to_uint n).

Fixpoint zeros (k : nat) : string :=
  match k with
  | 0 => EmptyString
  | S k' => String "0" (zeros k')
  end.

Definition format_03d (n : nat) : string :=
  zeros (3 - String.length (decimal n)) +:+ decimal n.

(** Paths as [pathlib] holds them on a POSIX system: a root, which is
    empty for a relative path, and the components. *)
Module Path.

Record t : Type := Make { root : string; parts : list string }.

(** [s.split("/")] *)
Fixpoint split (s : string) : list string :=
  match s with
  | EmptyString => [EmptyString]
  | String a s' =>
      if Ascii.eqb a "/" then EmptyString :: split s'
      else match split s' with
           | x :: xs => String a x :: xs
           | [] => [String a EmptyString]
           end
  end.

(** Empty components and single dots are dropped. *)
Definition is_part (x : string) : bool :=
  negb (String.eqb x "") && negb (String.eqb x ".").

(** One slash or more in front make the path absolute; exactly two of
    them are kept as they are. *)
Definition root_of (s : string) : string :=
  if Py.startswith "/" s then
    if Py.startswith "//" s && negb (Py.startswith "///" s) then "//" else "/"
  else "".

(** [Path(s)] *)
Definition parse (s : string) : t := Make (root_of s) (List.filter is_part (split s)).

(** ["/".join(ps)] *)
Fixpoint sep_join (ps : list string) : string :=
  match ps with
  | [] => EmptyString
  | [x] => x
  | x :: ps' => x +:+ "/" +:+ sep_join ps'
  end.

(** [str(p)] *)
Definition str (p : t) : string :=
  match root p, parts p with
  | EmptyString, [] => "."
  | r, ps => r +:+ sep_join ps
  end.

(** [p / name]: an absolute [name] replaces [p]. *)
Definition join (p : t) (name : string) : t :=
  let q := parse name in
  match root q with
  | EmptyString => Make (root p) (parts p ++ parts q)
  | _ => q
  end.

End Path.

(** [str(Path(dir) / filename)] *)
Definition path_join (dir filename : string) : string :=
  Path.str (Path.join (Path.parse dir) filename).

(** [f"{country_id}_{sanitized}_{i+1:03d}.{ext}"] under [output_dir]. *)
Definition image_path (output_dir country_id country_name : string) (i : nat) (ext : string)
    : string :=
  path_join output_dir
    (country_id +:+ "_" +:+ _sanitize_filename country_name +:+ "_"
       +:+ format_03d (i + 1) +:+ "." +:+ ext).

(** What the decoder reports for a file: its format name (absent for
    an image without one) and its true size. *)
Record pil_image : Type :=
  PilImage { img_format : option string; img_width : Z; img_height : Z }.

(** What the network, the file system and the decoder answer for one
    URL once [requests.get] has returned.  [open_ok] tells whether
    [open(output_path, "wb")] succeeds; it raises when the directory of
    the file is missing, for one.  The body is streamed after the headers
    were checked: [body_complete] is [false] when the connection breaks
    while [iter_content] is read.  [opened] is the outcome of
    [Image.open] on the written file ([None]: it raises) and [save_ok]
    tells whether [img.save] under another name succeeds. *)
Record response : Type :=
  Response {
    status_code : Z;
    content_type : option string;
    open_ok : bool;
    body_complete : bool;
    opened : option pil_image;
    save_ok : bool
  }.

(** [requests.get(url, stream=True, timeout=10)]; [None] when it raises. *)
Definition web : Type := string → option response.

(** [response.raise_for_status()] raises on a client or server error. *)
Definition raise_for_status (r : response) : bool :=
  (400 <=? status_code r)%Z && (status_code r <? 600)%Z.

Definition is_image_content (r : response) : bool :=
  Py.startswith "image/" (default EmptyString (content_type r)).

(** [os.remove(path)]: [None] when it raises because the file is absent. *)
Definition os_remove (path : string) (fs : gset string) : option (gset string) :=
  if decide (path ∈ fs) then Some (fs ∖ {[ path ]}) else None.

(** The handler of the verification block:
    [if os.path.exists(output_path): os.remove(output_path)]. *)
Definition remove_if_exists (path : string) (fs : gset string) : gset string :=
  if decide (path ∈ fs) then fs ∖ {[ path ]} else fs.

Definition too_small (img : pil_image) : bool :=
  (img_width img <? 100)%Z || (img_height img <? 100)%Z.

(** The format name the downloader works with: the lower-case form of
    [img.format], and [jpeg] when [img.format] is missing or empty. *)
Definition true_format (img : pil_image) : string :=
  match img_format img with
  | Some (String a f) => Py.lower (String a f)
  | _ => "jpeg"
  end.

(** The size test at the end of the verification block, on the file
    [output_path]: the file is removed and the URL skipped when the image
    is small, else the path is the result. *)
Definition check_size (img : pil_image) (output_path : string) (fs : gset string)
    : gset string * option string :=
  if too_small img then
    match os_remove output_path fs with
    | Some fs' => (fs', None)
    | None => (remove_if_exists output_path fs, None)
    end
  else (fs, Some output_path).

Section Download.

Variable get : web.
Variables output_dir country_id country_name : string.

(** One round of the loop over [enumerate(urls)]: the directory
    content afterwards and the path appended to [downloaded_images],
    if any. *)
Definition download_one (fs : gset string) (i : nat) (url : string)
    : gset string * option string :=
  let output_path := image_path output_dir country_id country_name i "jpg" in
  match get url with
  | None => (fs, None)
  | Some r =>
      if raise_for_status r then (fs, None)
      else if negb (is_image_content r) then (fs, None)
      else if negb (open_ok r) then (fs, None)
      else
        let fs := {[ output_path ]} ∪ fs in
        if negb (body_complete r) then (fs, None)
        else
          match opened r with
          | None => (remove_if_exists output_path fs, None)
          | Some img =>
              let img_format := true_format img in
              if String.eqb img_format "jpeg" then check_size img output_path fs
              else
                let new_output_path :=
                  image_path output_dir country_id country_name i (Py.lower img_format) in
                if negb (save_ok r) then (remove_if_exists output_path fs, None)
                else
                  let fs := {[ new_output_path ]} ∪ fs in
                  match os_remove output_path fs with
                  | None => (remove_if_exists output_path fs, None)
                  | Some fs => check_size img new_output_path fs
                  end
          end
  end.

Fixpoint download_loop (fs : gset string) (i : nat) (urls : list string)
    (downloaded_images : list string) : gset string * list string :=
  match urls with
  | [] => (fs, downloaded_images)
  | url :: urls' =>
      let '(fs', added) := download_one fs i url in
      download_loop fs' (S i) urls'
        (match added with
         | Some path => downloaded_images ++ [path]
         | None => downloaded_images
         end)
  end.

Definition _download_images (fs : gset string) (urls : list string)
    : gset string * list string :=
  download_loop fs 0 urls [].

End Download.

(** ** Entity orchestrator ([download_images_for_country]) and the loop
    of [main] *)

Definition hex_digit (n : nat) : ascii :=
  if n <? 10 then ascii_of_nat (48 + n) else ascii_of_nat (55 + n).

Definition is_alnum (c : ascii) : bool :=
  let n := nat_of_ascii c in
  Py.is_digit c || ((65 <=? n) && (n <=? 90)) || ((97 <=? n) && (n <=? 122)).

(** [urllib.parse.quote]: letters, digits and the characters
    underscore, dot, dash, tilde and slash are kept, any other byte is
    written as a percent sign and two hexadecimal digits. *)
Fixpoint quote (s : string) : string :=
  match s with
  | EmptyString => EmptyString
  | String a s' =>
      let n := nat_of_ascii a in
      if is_alnum a || (n =? 95) || (n =? 46) || (n =? 45) || (n =? 126) || (n =? 47)
      then String a (quote s')
      else String "%" (String (hex_digit (n / 16)) (String (hex_digit (n mod 16)) (quote s')))
  end.

Definition _create_search_url (country_name : string) : string :=
  "https://www.google.com/search?q=" +:+ quote country_name +:+ "&tbm=isch&tbs=isz:l".

(** What the browser session yields for a search URL: whether
    [driver.get] returns, and the sets found by the four extraction
    methods (each of them catches its own failures). *)
Record page : Type :=
  Page {
    load_ok : bool;
    search_results_images : gset string;
    page_content_images : gset string;
    jsonld_images : gset string;
    embedded_json_images : gset string
  }.

Record world : Type :=
  World {
    browser : string → page;
    http : web;
    mkdir_ok : string → bool;
    zip_ok : string → bool
  }.

Record options : Type := Options { max_images : Z; no_zip : bool; zip_only : bool }.

(** A call either returns a value or lets an exception escape. *)
Inductive outcome (A : Type) : Type :=
| Returned (a : A)
| Raised.
Arguments Returned {A} a.
Arguments Raised {A}.

(** [for image_path in downloaded_images: os.remove(image_path)] *)
Fixpoint remove_each (paths : list string) (fs : gset string) : gset string * bool :=
  match paths with
  | [] => (fs, true)
  | path :: paths' =>
      match os_remove path fs with
      | Some fs' => remove_each paths' fs'
      | None => (fs, false)
      end
  end.

Section Orchestrator.

Variable w : world.
Variable opts : options.
Variable base_output_dir : string.

(** [_create_zip_file]: the archive is written next to the country
    directories; [None] when writing it raises. *)
Definition _create_zip_file (archive_name : string) (fs : gset string)
    : option (gset string) :=
  let zip_path := path_join base_output_dir (archive_name +:+ "_images.zip") in
  if zip_ok w zip_path then Some ({[ zip_path ]} ∪ fs) else None.

Definition download_images_for_country (fs : gset string)
    (country_name country_id : string) : gset string * outcome nat :=
  let search_url := _create_search_url country_name in
  let output_dir :=
    path_join base_output_dir (country_id +:+ "_" +:+ _sanitize_filename country_name) in
  if negb (mkdir_ok w output_dir) then (fs, Raised)
  else
    (* the [try] block; its handler returns 0 *)
    let pg := browser w search_url in
    if negb (load_ok pg) then (fs, Returned 0)
    else
      let image_urls : gset string :=
        ∅ ∪ search_results_images pg ∪ page_content_images pg
          ∪ jsonld_images pg ∪ embedded_json_images pg in
      let image_urls := _filter_image_urls image_urls in
      let image_urls := limit_images (max_images opts) image_urls in
      let '(fs, downloaded_images) :=
        _download_images (http w) output_dir country_id country_name fs image_urls in
      if no_zip opts then (fs, Returned (length downloaded_images))
      else
        match _create_zip_file (country_id +:+ "_" +:+ country_name) fs with
        | None => (fs, Returned 0)
        | Some fs =>
            if zip_only opts then
              match remove_each downloaded_images fs with
              | (fs, true) => (fs, Returned (length downloaded_images))
              | (fs, false) => (fs, Returned 0)
              end
            else (fs, Returned (length downloaded_images))
        end.

(** The loop of [main] over the countries, with its running total. *)
Fixpoint process_countries (fs : gset string) (total_images : nat) (cs : list country)
    : gset string * outcome nat :=
  match cs with
  | [] => (fs, Returned total_images)
  | c :: cs' =>
      match download_images_for_country fs (country_name c) (country_id c) with
      | (fs', Returned num_images) => process_countries fs' (total_images + num_images) cs'
      | (fs', Raised) => (fs', Raised)
      end
  end.

(** The exit status of [main] for a non-empty list of countries: an
    exception that reaches its handler ends the run with status 1. *)
Definition main_exit_code (fs : gset string) (cs : list country) : Z :=
  match process_countries fs 0 cs with
  | (_, Returned _) => 0
  | (_, Raised) => 1
  end.

End Orchestrator.

(** ** Notions used to state the properties *)

(** *** Lists of characters *)

Definition first_cont (cs : list string) : bool :=
  match cs with
  | c :: _ => Utf8.cont_head c
  | [] => false
  end.

Definition ascii_head (c : string) : bool :=
  match c with
  | String a _ => Utf8.is_ascii a
  | EmptyString => false
  end.

(** One character: a byte, alone when it is below 128, else with
    continuation bytes only. *)
Definition is_char (c : string) : bool :=
  match c with
  | String a k => Py.all_chars Utf8.is_cont k && implb (Utf8.is_ascii a) (String.eqb k "")
  | EmptyString => false
  end.

(** A list of characters as [Utf8.chars] produces them: no character
    could take up the first byte of the next one. *)
Fixpoint separated (cs : list string) : bool :=
  match cs with
  | [] => true
  | c :: cs' => is_char c && (ascii_head c || negb (first_cont cs')) && separated cs'
  end.

(** *** The claims as they are written *)

(** The reading of C4 as it is written: on a matching URL only a size
    directive is taken off.  A size directive is taken in the widest
    sense, a suffix that begins with one of the markers the normaliser
    looks for. *)
Definition is_size_directive (s : string) : bool :=
  Py.startswith "=w" s || Py.startswith "=s" s || Py.startswith "=h" s.

Definition strips_only_size_directives (url : string) : Prop :=
  ∃ base directives,
    url = base +:+ directives ∧ is_size_directive directives = true ∧
    _get_high_res_image_url url = base +:+ "=w2048-h2048".

(** The reading of C5 as it is written: no URL in the output has a
    width directive or a height directive that parses to less than 100. *)
Definition no_small_directive (url : string) : Prop :=
  (∀ dw width, Re.search_directive "w" url = Some dw → Re.int dw = Some width →
     (100 ≤ width)%Z) ∧
  (∀ dh height, Re.search_directive "h" url = Some dh → Re.int dh = Some height →
     (100 ≤ height)%Z).

(** The text is empty or all white space. *)
Definition blank (s : string) : bool := forallb Py.is_space (Utf8.chars s).

(** Every white-space character is a blank that is not followed by
    another white-space character. *)
Fixpoint single_spaced_chars (cs : list string) : bool :=
  match cs with
  | [] => true
  | c :: cs' =>
      (if Py.is_space c then
         String.eqb c " " &&
         match cs' with
         | d :: _ => negb (Py.is_space d)
         | [] => true
         end
       else true) && single_spaced_chars cs'
  end.

Definition single_spaced (s : string) : bool := single_spaced_chars (Utf8.chars s).


(** The name after the two substitutions of [_sanitize_filename], on
    which the length is tested. *)
Definition substituted (name : string) : string := Re.sub_spaces (Re.sub_illegal name).


(** [reaches j sub]: the value [sub] is [j] itself or lies inside [j],
    under any keys and at any positions, at any depth. *)
Inductive reaches : json → json → Prop :=
| reaches_here (j : json) : reaches j j
| reaches_dict (d : list (string * json)) (k : string) (v sub : json) :
    (k, v) ∈ d → reaches v sub → reaches (JDict d) sub
| reaches_list (l : list json) (v sub : json) :
    v ∈ l → reaches v sub → reaches (JList l) sub.

(** The reading of C2 as it is written: an image URL is an HTTP(S)
    string that ends in a supported extension, and it counts wherever it
    is the value of some key of some mapping of the document. *)
Definition is_http_image_url (u : string) : bool :=
  (Py.startswith "http://" u || Py.startswith "https://" u) &&
  existsb (λ ext, Py.endswith ext u) json_extensions.

Definition string_value_in (u : string) (j : json) : Prop :=
  ∃ d k, reaches j (JDict d) ∧ (k, JStr u) ∈ d.

(** What the specification assigns to one line of the country list: a
    line with a colon gives the entity made of the trimmed text before
    the first colon and the trimmed text after it; a line without a colon
    gives no entity, and a warning unless it is blank. *)
Definition entity_of_line (line : string) : option country :=
  if Py.has_char ":" line
  then Some (Country (Py.strip (Py.split_head ":" line)) (Py.strip (split_tail ":" line)))
  else None.

Definition warning_of_line (line : string) : option string :=
  if Py.has_char ":" line then None
  else if blank line then None
  else Some ("Could not parse line: " +:+ Py.strip line).

(** The text of a file with the given lines, each closed by a line
    feed. *)
Definition unlines (lines : list string) : string :=
  Utf8.join ((λ line, line +:+ String newline EmptyString) <$> lines).

(** A response passes every step of the downloader: no error status,
    an image content type, a file that can be opened for writing, a body
    read to its end, a decodable image that can be saved under its own
    extension when it is not a JPEG, and both dimensions at least 100. *)
Definition passes (r : response) : bool :=
  negb (raise_for_status r) && is_image_content r && open_ok r && body_complete r &&
  match opened r with
  | None => false
  | Some img => (String.eqb (true_format img) "jpeg" || save_ok r) && negb (too_small img)
  end.

(** The extension of the file that is kept for an image. *)
Definition final_extension (img : pil_image) : string :=
  if String.eqb (true_format img) "jpeg" then "jpg" else true_format img.

(** The extension under which a URL is kept, [None] for a URL that fails
    a step. *)
Definition verdict (get : web) (url : string) : option string :=
  match get url with
  | Some r => if passes r then final_extension <$> opened r else None
  | None => None
  end.

(** The paths of the URLs that pass, the first URL having index [i]. *)
Fixpoint kept_paths (get : web) (output_dir country_id country_name : string)
    (i : nat) (urls : list string) : list string :=
  match urls with
  | [] => []
  | url :: urls' =>
      option_list (image_path output_dir country_id country_name i <$> verdict get url)
        ++ kept_paths get output_dir country_id country_name (S i) urls'
  end.

(** A format name as the imaging library gives them: it holds no
    slash and is not JPG (the library calls that format JPEG). *)
Definition plain_format (img : pil_image) : Prop :=
  true_format img ≠ "jpg" ∧ Py.has_char "/" (true_format img) = false.

(** No body stream breaks, and the format names are plain. *)
Definition well_behaved (get : web) (urls : list string) : Prop :=
  ∀ url r, url ∈ urls → get url = Some r →
    body_complete r = true ∧
    ∀ img, opened r = Some img → plain_format img.

(** A path in its normal form: one of the three roots, and components
    that are neither empty nor a dot and hold no slash. *)
Definition normal_path (p : Path.t) : Prop :=
  (Path.root p = "" ∨ Path.root p = "/" ∨ Path.root p = "//") ∧
  Forall (λ x, Path.is_part x = true ∧ Py.has_char "/" x = false) (Path.parts p).

(** The number that a text of ASCII digits stands for. *)
Fixpoint decimal_value (acc : Z) (s : string) : Z :=
  match s with
  | EmptyString => acc
  | String a s' => decimal_value (10 * acc + Re.digit_value a) s'
  end.



(** The directory holds no file of the batch with an index from [i] on. *)
Definition fresh_from (output_dir country_id country_name : string) (i : nat)
    (fs : gset string) : Prop :=
  ∀ j ext, i ≤ j → image_path output_dir country_id country_name j ext ∉ fs.

(** The directory of a country under the base output directory. *)
Definition country_dir (base_output_dir : string) (c : country) : string :=
  path_join base_output_dir (country_id c +:+ "_" +:+ _sanitize_filename (country_name c)).

(** [entity_counts w opts base fs cs ns fs']: starting from the files
    [fs], the call for each country of [cs] in turn returns, with the
    counts [ns], and leaves the files [fs']. *)
Inductive entity_counts (w : world) (opts : options) (base_output_dir : string) :
    gset string → list country → list nat → gset string → Prop :=
| counts_nil (fs : gset string) : entity_counts w opts base_output_dir fs [] [] fs
| counts_cons (fs fs1 fs2 : gset string) (c : country) (cs : list country)
    (n : nat) (ns : list nat) :
    download_images_for_country w opts base_output_dir fs (country_name c) (country_id c)
      = (fs1, Returned n) →
    entity_counts w opts base_output_dir fs1 cs ns fs2 →
    entity_counts w opts base_output_dir fs (c :: cs) (n :: ns) fs2.

(** The reading of C9 as it is written: the call for a country returns a
    count, whatever happens. *)
Definition never_raises (w : world) (opts : options) (base_output_dir : string) : Prop :=
  ∀ fs country_name country_id,
    ∃ fs' n,
      download_images_for_country w opts base_output_dir fs country_name country_id
      = (fs', Returned n).

(** * Further parts of the program *)

(** ** The deny lists of the extraction strategies *)

(** Sources that [_extract_images_from_search_results] passes over. *)
Definition search_denylist : list string :=
  [ "data:image"; "gstatic.com"; "googleusercontent.com/gadgets" ].

(** Sources that [_extract_images_from_page_content] and the scan of the
    page source pass over. *)
Definition content_denylist : list string :=
  [ "maps.googleapis.com"; "maps.gstatic.com"; "googleusercontent.com/gadgets" ].

(** ** Extraction from the page ([_extract_images_from_page_content],
    [_extract_images_from_search_results], [_extract_images_from_jsonld]) *)

(** An element of the page, seen through [get_attribute]: for each
    attribute name the call raises (the element went stale, say) or
    yields the value, which may be missing. *)
Definition element : Type := string → outcome (option string).

(** The truth value of an attribute: missing and empty count as false. *)
Definition truthy (value : option string) : bool :=
  match value with
  | Some (String _ _) => true
  | _ => false
  end.

Definition text_of (value : option string) : string := default EmptyString value.

(** The digits of a decimal literal, in which single underscores may
    separate digits; [prev_digit] tells whether the character before was
    a digit. *)
Fixpoint int_digits (prev_digit : bool) (acc : Z) (s : string) : option Z :=
  match s with
  | EmptyString => if prev_digit then Some acc else None
  | String a s' =>
      if Py.is_digit a then int_digits true (10 * acc + Re.digit_value a) s'
      else if Ascii.eqb a "_" then
        if prev_digit then int_digits false acc s' else None
      else None
  end.

(** [int(text)] for a literal of ASCII digits: white space around the
    literal is dropped, one sign may precede the digits; [None] stands
    for [ValueError].  The interpreter's limit on the number of digits
    is left out. *)
Definition py_int (text : string) : option Z :=
  match Py.strip text with
  | String "-" digits => Z.opp <$> int_digits false 0 digits
  | String "+" digits => int_digits false 0 digits
  | literal => int_digits false 0 literal
  end.

(** The size test of the page content strategy,
    [int(width) < 100 or int(height) < 100] under its handler for
    [ValueError]: a literal that cannot be read ends the test without a
    skip. *)
Definition declared_small (width height : string) : bool :=
  match py_int width with
  | None => false
  | Some w =>
      if (w <? 100)%Z then true
      else match py_int height with
           | None => false
           | Some h => (h <? 100)%Z
           end
  end.

(** One round of the loop over the [img] elements of the page. *)
Definition page_content_round (image_urls : gset string) (img : element) : gset string :=
  match img "src" with
  | Raised => image_urls
  | Returned src =>
      if negb (truthy src) then image_urls
      else if existsb (λ x, Py.contains x (text_of src)) content_denylist then image_urls
      else
        match img "width" with
        | Raised => image_urls
        | Returned width =>
            match img "height" with
            | Raised => image_urls
            | Returned height =>
                if truthy width && truthy height
                   && declared_small (text_of width) (text_of height)
                then image_urls
                else {[ _get_high_res_image_url (text_of src) ]} ∪ image_urls
            end
        end
  end.

(** [images] is the answer of [find_elements] for the tag [img];
    when that call raises, the handler of the function returns the
    empty set. *)
Definition _extract_images_from_page_content (images : outcome (list element))
    : gset string :=
  match images with
  | Raised => ∅
  | Returned l => foldl page_content_round ∅ l
  end.

(** The test on a source in the search result strategy. *)
Definition acceptable_source (src : option string) : bool :=
  truthy src && Py.contains "http" (text_of src)
  && negb (existsb (λ x, Py.contains x (text_of src)) search_denylist).

Definition add_source (src : option string) (image_urls : gset string) : gset string :=
  if acceptable_source src then {[ _get_high_res_image_url (text_of src) ]} ∪ image_urls
  else image_urls.

(** A thumbnail of the result page: the element itself, whether a click
    on it returns, and the larger images that the page shows after the
    click ([Raised] when looking them up raises).  Closing the viewer
    afterwards adds nothing to the set, whether it succeeds or not. *)
Record thumbnail : Type :=
  Thumbnail {
    thumb : element;
    click_ok : bool;
    large_images : outcome (list element)
  }.

(** The loop over the larger images inside the handler of one click: a
    read that raises ends the work on this thumbnail, what was added
    before stays. *)
Fixpoint collect_large (image_urls : gset string) (large : list element) : gset string :=
  match large with
  | [] => image_urls
  | large_img :: large' =>
      match large_img "src" with
      | Raised => image_urls
      | Returned src => collect_large (add_source src image_urls) large'
      end
  end.

Definition click_round (image_urls : gset string) (t : thumbnail) : gset string :=
  if click_ok t then
    match large_images t with
    | Raised => image_urls
    | Returned large => collect_large image_urls large
    end
  else image_urls.

Definition direct_round (image_urls : gset string) (t : thumbnail) : gset string :=
  match thumb t "src" with
  | Raised => image_urls
  | Returned src => add_source src image_urls
  end.

(** [image_elements] is the answer of [find_elements] for the result
    thumbnails.  The first ten are clicked, then the source of every one
    is read. *)
Definition _extract_images_from_search_results (image_elements : outcome (list thumbnail))
    : gset string :=
  match image_elements with
  | Raised => ∅
  | Returned l => foldl direct_round (foldl click_round ∅ (take (Nat.min 10 (length l)) l)) l
  end.

Section JsonLd.

(** [json.loads]; [None] stands for [JSONDecodeError]. *)
Variable json_loads : string → option json.

(** One round of the loop over the script blocks of linked data. *)
Definition jsonld_round (image_urls : gset string) (script : element) : gset string :=
  match script "innerHTML" with
  | Raised => image_urls
  | Returned json_text =>
      if negb (truthy json_text) then image_urls
      else
        match json_loads (text_of json_text) with
        | Some json_data => _extract_images_from_json_object json_data image_urls
        | None => image_urls
        end
  end.

Definition _extract_images_from_jsonld (script_elements : outcome (list element))
    : gset string :=
  match script_elements with
  | Raised => ∅
  | Returned l => foldl jsonld_round ∅ l
  end.

End JsonLd.

(** ** Notions for the further properties of the downloader *)

(** The file [p] does not carry the name of the entity with the index
    [i]: round [i] of the downloader has no reason to touch it. *)
Definition not_of_round (output_dir country_id country_name : string) (i : nat)
    (p : string) : Prop :=
  ∀ ext, p ≠ image_path output_dir country_id country_name i ext.

(** ** The entry point ([main]) *)

(** The arguments that select the countries; a flag that is not given
    is [None]. *)
Record arguments : Type :=
  Arguments {
    arg_country_list : string;
    arg_output_dir : string;
    arg_country_id : option string;
    arg_country_name : option string
  }.

(** The countries of the run: the one named on the command line, or
    those of the list file.  [files] gives the text of a file, [None]
    when it is missing or unreadable. *)
Definition selected_countries (args : arguments) (files : string → option string)
    : list country :=
  if truthy (arg_country_id args) || truthy (arg_country_name args) then
    if truthy (arg_country_id args) then
      [ Country (text_of (arg_country_id args))
          (if truthy (arg_country_name args) then text_of (arg_country_name args)
           else text_of (arg_country_id args)) ]
    else
      [ Country (text_of (arg_country_name args)) (text_of (arg_country_name args)) ]
  else get_countries_from_file (files (arg_country_list args)).

(** The exit status of [main].  [init_ok] tells whether the downloader
    could be set up (base directory and browser session); a failure
    there, like any exception that escapes from the loop, reaches the
    handler of [main]. *)
Definition main (w : world) (opts : options) (args : arguments) (init_ok : bool)
    (files : string → option string) (fs : gset string) : Z :=
  if truthy (arg_country_id args) && truthy (arg_country_name args) then 1
  else if negb init_ok then 1
  else
    match selected_countries args files with
    | [] => 1
    | cs => main_exit_code w opts (arg_output_dir args) fs cs
    end.

(** ** Notions for the further properties of the parser, the search URL
    and the archive *)




(** The characters that [quote] lets through or produces. *)
Definition url_safe (c : ascii) : bool :=
  let n := nat_of_ascii c in
  is_alnum c || (n =? 95) || (n =? 46) || (n =? 45) || (n =? 126) || (n =? 47) || (n =? 37).

(** The extensions that [_create_zip_file] puts into the archive. *)
Definition zip_extensions : list string := [ ".jpg"; ".jpeg"; ".png"; ".webp"; ".gif" ].

(** The text from the last dot of [s] on, [None] when [s] holds no dot. *)
Fixpoint from_last_dot (s : string) : option string :=
  match s with
  | EmptyString => None
  | String a s' =>
      match from_last_dot s' with
      | Some r => Some r
      | None => if Ascii.eqb a "." then Some s else None
      end
  end.

(** [Path(name).suffix]: the part from the last dot on, when that dot
    is neither the first nor the last character of the name. *)
Definition suffix (name : string) : string :=
  match name with
  | EmptyString => EmptyString
  | String _ rest =>
      match from_last_dot rest with
      | Some (String d (String b r)) => String d (String b r)
      | _ => EmptyString
      end
  end.

(** The test of [_create_zip_file] on a file of the image directory: its
    name matches the pattern of the glob (it holds a dot) and its suffix,
    in lower case, is one of the five. *)
Definition in_archive (name : string) : bool :=
  Py.has_char "." name && existsb (String.eqb (Py.lower (suffix name))) zip_extensions.

(** The file name of an image, without its directory. *)
Definition image_file_name (country_id country_name : string) (i : nat) (ext : string)
    : string :=
  country_id +:+ "_" +:+ _sanitize_filename country_name +:+ "_"
    +:+ format_03d (i + 1) +:+ "." +:+ ext.

(** * Properties *)

(** ** Strings *)

Section StringFacts.

Implicit Types (s t p : string) (a c : ascii).

Lemma app_nil_left s : "" +:+ s = s.
Proof. reflexivity. Qed.

Lemma app_cons a s t : String a s +:+ t = String a (s +:+ t).
Proof. reflexivity. Qed.

Lemma app_nil_right s : s +:+ "" = s.
Proof. induction s as [|a s IH]; [done|]. by rewrite app_cons, IH. Qed.

Lemma app_assoc_str s t p : (s +:+ t) +:+ p = s +:+ (t +:+ p).
Proof. induction s as [|a s IH]; [done|]. by rewrite !app_cons, IH. Qed.

Lemma string_length_app s t : String.length (s +:+ t) = String.length s + String.length t.
Proof. induction s as [|a s IH]; [done|]. rewrite app_cons. simpl. by rewrite IH. Qed.

Lemma app_cancel_left s t p : s +:+ t = s +:+ p → t = p.
Proof.
  induction s as [|a s IH]; [done|].
  rewrite !app_cons. intros [= H]. auto.
Qed.

Lemma app_cancel_right s t p : s +:+ p = t +:+ p → s = t.
Proof.
  revert t. induction s as [|a s IH]; intros [|b t] H.
  - done.
  - apply (f_equal String.length) in H.
    rewrite app_nil_left, app_cons in H. simpl in H. rewrite string_length_app in H. lia.
  - apply (f_equal String.length) in H.
    rewrite app_nil_left, app_cons in H. simpl in H. rewrite string_length_app in H. lia.
  - rewrite !app_cons in H. injection H as -> H. f_equal. by apply IH.
Qed.

Lemma char_eqb_true a c : Ascii.eqb a c = true ↔ a = c.
Proof. apply Ascii.eqb_eq. Qed.

Lemma char_eqb_false a c : Ascii.eqb a c = false ↔ a ≠ c.
Proof. apply Ascii.eqb_neq. Qed.

(** *** Splitting at a character *)

Lemma split_head_rest c s : s = Py.split_head c s +:+ Py.split_rest c s.
Proof.
  induction s as [|a s IH]; [done|]. simpl.
  destruct (Ascii.eqb a c); [done|]. by rewrite ?app_cons, <- IH.
Qed.

Lemma split_head_clean c s : Py.has_char c (Py.split_head c s) = false.
Proof.
  induction s as [|a s IH]; [done|]. simpl.
  destruct (Ascii.eqb a c) eqn:E; [done|]. simpl. by rewrite E.
Qed.

Lemma split_rest_starts c s :
  Py.has_char c s = true → ∃ r, Py.split_rest c s = String c r.
Proof.
  induction s as [|a s IH]; [done|]. simpl.
  destruct (Ascii.eqb a c) eqn:E.
  - apply char_eqb_true in E as ->. eauto.
  - simpl. auto.
Qed.

Lemma split_head_app c s t :
  Py.has_char c s = false → Py.split_head c (s +:+ String c t) = s.
Proof.
  induction s as [|a s IH]; simpl.
  - by rewrite Ascii.eqb_refl.
  - destruct (Ascii.eqb a c) eqn:E; [done|]. simpl. intros H.
    by rewrite IH.
Qed.

Lemma split_rest_app c s t :
  Py.has_char c s = false → Py.split_rest c (s +:+ String c t) = String c t.
Proof.
  induction s as [|a s IH]; simpl.
  - intros _. rewrite ?app_nil_left. simpl. by rewrite Ascii.eqb_refl.
  - destruct (Ascii.eqb a c) eqn:E; [done|]. simpl. intros H.
    by rewrite IH.
Qed.

(** *** Prefixes and occurrences *)

Lemma startswith_app p s : Py.startswith p (p +:+ s) = true.
Proof.
  induction p as [|a p IH]; [done|]. rewrite ?app_cons. simpl.
  by rewrite Ascii.eqb_refl, IH.
Qed.

Lemma startswith_inv p s : Py.startswith p s = true → ∃ r, s = p +:+ r.
Proof.
  revert s. induction p as [|a p IH]; intros s H.
  - by exists s.
  - destruct s as [|b s]; [done|]. simpl in H.
    apply andb_true_iff in H as [->%char_eqb_true H].
    destruct (IH _ H) as [r ->]. by exists r.
Qed.

Lemma contains_has_char c p s :
  Py.contains (String c p) s = true → Py.has_char c s = true.
Proof.
  induction s as [|a s IH]; [done|]. simpl.
  destruct (Ascii.eqb c a) eqn:E.
  - apply char_eqb_true in E as ->. by rewrite Ascii.eqb_refl.
  - simpl. intros H. rewrite IH; [|done]. by rewrite orb_true_r.
Qed.

Lemma contains_app_right p s t : Py.contains p t = true → Py.contains p (s +:+ t) = true.
Proof.
  intros H. induction s as [|a s IH]; [done|].
  rewrite ?app_cons. simpl. rewrite IH. by rewrite orb_true_r.
Qed.

End StringFacts.

(** ** Characters *)

Section Characters.

Local Arguments Utf8.is_ascii : simpl never.
Local Arguments Utf8.is_cont : simpl never.

Implicit Types (s t c : string) (a b : ascii) (cs : list string).

Lemma cont_not_ascii a : Utf8.is_cont a = true → Utf8.is_ascii a = false.
Proof.
  unfold Utf8.is_cont, Utf8.is_ascii. intros [H _]%andb_true_iff.
  apply Nat.leb_le in H. apply Nat.ltb_ge. lia.
Qed.

Lemma chars_cons a s :
  Utf8.chars (String a s)
  = if negb (Utf8.is_ascii a) && Utf8.cont_head s then
      match Utf8.chars s with
      | c :: cs => String a c :: cs
      | [] => [String a EmptyString]
      end
    else String a EmptyString :: Utf8.chars s.
Proof. reflexivity. Qed.

Lemma chars_nonempty a s : Utf8.chars (String a s) ≠ [].
Proof. rewrite chars_cons. by destruct (_ && _), (Utf8.chars s). Qed.

Lemma first_cont_chars s : first_cont (Utf8.chars s) = Utf8.cont_head s.
Proof.
  destruct s as [|a s]; [done|]. rewrite chars_cons.
  by destruct (_ && _), (Utf8.chars s).
Qed.

Lemma join_cons c cs : Utf8.join (c :: cs) = c +:+ Utf8.join cs.
Proof. reflexivity. Qed.

Lemma join_app cs ds : Utf8.join (cs ++ ds) = Utf8.join cs +:+ Utf8.join ds.
Proof.
  induction cs as [|c cs IH]; [done|]. cbn [app]. rewrite !join_cons, IH.
  symmetry. apply app_assoc_str.
Qed.

Lemma join_chars s : Utf8.join (Utf8.chars s) = s.
Proof.
  induction s as [|a s IH]; [done|]. rewrite chars_cons.
  destruct (_ && _).
  - destruct (Utf8.chars s) as [|c cs]; simpl in *; by rewrite <- IH.
  - by rewrite join_cons, IH.
Qed.

Lemma chars_empty s : Utf8.chars s = [] → s = "".
Proof. destruct s; [done|]. by intros ?%chars_nonempty. Qed.

Lemma separated_chars s : separated (Utf8.chars s) = true.
Proof.
  induction s as [|a s IH]; [done|]. rewrite chars_cons.
  pose proof (first_cont_chars s) as Hfirst.
  destruct (Utf8.is_ascii a) eqn:Ha; cbn [negb andb].
  - cbn [separated is_char Py.all_chars ascii_head]. by rewrite Ha, IH.
  - destruct (Utf8.cont_head s) eqn:Hs.
    + destruct (Utf8.chars s) as [|c cs]; [by cbn; rewrite Ha|].
      cbn [separated] in IH |- *.
      apply andb_true_iff in IH as [[Hc Hsep]%andb_true_iff Hcs].
      cbn [first_cont] in Hfirst.
      destruct c as [|b k]; [done|]. cbn [Utf8.cont_head] in Hfirst.
      cbn [is_char ascii_head Py.all_chars] in *.
      rewrite Ha, Hfirst, Hcs. cbn [implb orb andb].
      rewrite (cont_not_ascii _ Hfirst) in *. cbn [implb orb andb] in *.
      apply andb_true_iff in Hc as [-> _]. by rewrite Hsep.
    + cbn [separated is_char Py.all_chars ascii_head]. by rewrite Ha, Hfirst, IH.
Qed.

Lemma cont_head_app c t :
  c ≠ "" → Utf8.cont_head (c +:+ t) = Utf8.cont_head c.
Proof. by destruct c. Qed.

(** A character in front of a text that cannot be taken for the rest
    of it is the first character of the whole. *)
Lemma chars_char_app c t :
  is_char c = true → ascii_head c || negb (Utf8.cont_head t) = true →
  Utf8.chars (c +:+ t) = c :: Utf8.chars t.
Proof.
  destruct c as [|a k]; [done|]. revert a.
  induction k as [|b k IH]; intros a Hc Hsep.
  - change (String a "" +:+ t) with (String a t). rewrite chars_cons.
    cbn [ascii_head] in Hsep.
    destruct (Utf8.is_ascii a); [done|]. cbn [orb negb andb] in *.
    apply negb_true_iff in Hsep. by rewrite Hsep.
  - cbn [is_char Py.all_chars] in Hc.
    apply andb_true_iff in Hc as [[Hb Hk]%andb_true_iff Ha].
    destruct (Utf8.is_ascii a) eqn:Ha'; [done|].
    cbn [ascii_head] in Hsep. rewrite Ha' in Hsep. cbn [orb] in Hsep.
    change (String a (String b k) +:+ t) with (String a (String b k +:+ t)).
    rewrite chars_cons, Ha'. cbn [negb andb].
    change (Utf8.cont_head (String b k +:+ t)) with (Utf8.is_cont b). rewrite Hb.
    rewrite IH; [done|..].
    + cbn [is_char]. by rewrite Hk, (cont_not_ascii _ Hb).
    + cbn [ascii_head]. by rewrite (cont_not_ascii _ Hb).
Qed.

Lemma is_char_nonempty c : is_char c = true → c ≠ "".
Proof. by destruct c. Qed.

Lemma cont_head_join cs :
  separated cs = true → Utf8.cont_head (Utf8.join cs) = first_cont cs.
Proof.
  destruct cs as [|c cs]; [done|]. cbn [separated].
  intros [[Hc _]%andb_true_iff _]%andb_true_iff.
  rewrite join_cons. by apply cont_head_app, is_char_nonempty.
Qed.

Lemma chars_join cs : separated cs = true → Utf8.chars (Utf8.join cs) = cs.
Proof.
  induction cs as [|c cs IH]; [done|]. cbn [separated].
  intros [[Hc Hsep]%andb_true_iff Hcs]%andb_true_iff.
  rewrite join_cons, chars_char_app, IH; [done..|].
  by rewrite cont_head_join.
Qed.

(** The characters of two texts put together, when the second does not
    begin with a continuation byte. *)
Lemma chars_app s t :
  Utf8.cont_head t = false → Utf8.chars (s +:+ t) = Utf8.chars s ++ Utf8.chars t.
Proof.
  intros Ht. induction s as [|a s IH]; [done|].
  change (String a s +:+ t) with (String a (s +:+ t)). rewrite !chars_cons, IH.
  assert (Utf8.cont_head (s +:+ t) = Utf8.cont_head s) as ->.
  { destruct s; [|done]. exact Ht. }
  destruct (_ && _) eqn:E; [|done].
  destruct (Utf8.chars s) as [|c cs] eqn:Hs; [|done].
  apply chars_empty in Hs as ->. apply andb_true_iff in E as [_ E]. done.
Qed.

Lemma separated_tail c cs : separated (c :: cs) = true → separated cs = true.
Proof. cbn [separated]. by intros [_ ?]%andb_true_iff. Qed.

Lemma separated_app_l cs ds : separated (cs ++ ds) = true → separated cs = true.
Proof.
  induction cs as [|c cs IH]; [done|]. cbn [app separated].
  intros [[Hc Hsep]%andb_true_iff Hcs]%andb_true_iff.
  rewrite Hc, (IH Hcs), andb_true_r. cbn [andb].
  destruct (ascii_head c); [done|]. cbn [orb] in *.
  destruct cs; [done|]. exact Hsep.
Qed.

Lemma separated_app_r cs ds : separated (cs ++ ds) = true → separated ds = true.
Proof.
  induction cs as [|c cs IH]; [done|]. cbn [app]. intros H%separated_tail. auto.
Qed.

Lemma separated_app cs ds :
  separated cs = true → separated ds = true → first_cont ds = false →
  separated (cs ++ ds) = true.
Proof.
  intros Hcs Hds Hfirst. induction cs as [|c cs IH]; [done|].
  cbn [app separated] in *.
  apply andb_true_iff in Hcs as [[Hc Hsep]%andb_true_iff Hcs].
  rewrite Hc, (IH Hcs), andb_true_r. cbn [andb].
  destruct cs; [|done]. cbn [app]. rewrite Hfirst. apply orb_true_r.
Qed.

Lemma separated_take n cs : separated cs = true → separated (take n cs) = true.
Proof.
  intros H. rewrite <- (take_drop n cs) in H. by apply separated_app_l in H.
Qed.

Lemma separated_drop n cs : separated cs = true → separated (drop n cs) = true.
Proof.
  intros H. rewrite <- (take_drop n cs) in H. by apply separated_app_r in H.
Qed.

End Characters.

(** ** The URL normaliser *)

Lemma google_photo_url_has_equals url :
  is_google_photo_url url = true → Py.has_char "=" url = true.
Proof.
  unfold is_google_photo_url. intros [_ H]%andb_true_iff.
  apply orb_true_iff in H as [H|H]; [apply orb_true_iff in H as [H|H]|];
    by apply contains_has_char in H.
Qed.

(** C3. The normaliser is idempotent: normalising a normalised URL
    changes nothing, for every string. *)
Theorem normalizer_idempotent (u : string) :
  _get_high_res_image_url (_get_high_res_image_url u) = _get_high_res_image_url u.
Proof.
  destruct (is_google_photo_url u) eqn:Hu.
  - assert (_get_high_res_image_url u = Py.split_head "=" u +:+ "=w2048-h2048") as ->.
    { unfold _get_high_res_image_url. by rewrite Hu. }
    unfold _get_high_res_image_url.
    destruct (is_google_photo_url (Py.split_head "=" u +:+ "=w2048-h2048")); [|done].
    by rewrite (split_head_app "=" _ "w2048-h2048") by apply split_head_clean.
  - assert (_get_high_res_image_url u = u) as Hid; [|by rewrite !Hid].
    unfold _get_high_res_image_url. by rewrite Hu.
Qed.

(** C4.  The code says that it extracts the base URL without the size
    parameters, but it cuts at the first equals sign: on a photo URL
    with a query parameter before the size directive, the value of that
    parameter is lost with the directive.  The URL is matched by the
    test, the result is not the URL with only a size directive taken
    off, and the text [=7] is gone. *)
Lemma normalizer_strips_more_than_directives :
  is_google_photo_url "https://lh3.googleusercontent.com/p?id=7=w100-h100" = true ∧
  _get_high_res_image_url "https://lh3.googleusercontent.com/p?id=7=w100-h100"
    = "https://lh3.googleusercontent.com/p?id=w2048-h2048" ∧
  ¬ strips_only_size_directives "https://lh3.googleusercontent.com/p?id=7=w100-h100" ∧
  Py.contains "=7"
    (_get_high_res_image_url "https://lh3.googleusercontent.com/p?id=7=w100-h100") = false.
Proof.
  split; [reflexivity|]. split; [reflexivity|]. split; [|reflexivity].
  intros (base & directives & Hurl & Hdir & Hres).
  change (_get_high_res_image_url _)
    with ("https://lh3.googleusercontent.com/p?id" +:+ "=w2048-h2048") in Hres.
  apply app_cancel_right in Hres. subst base.
  change "https://lh3.googleusercontent.com/p?id=7=w100-h100"
    with ("https://lh3.googleusercontent.com/p?id" +:+ "=7=w100-h100") in Hurl.
  apply app_cancel_left in Hurl. by subst directives.
Qed.

(** ** The filter stage *)

Lemma elem_of_filter_loop (l : list string) (acc : gset string) (url : string) :
  url ∈ foldl (λ filtered_urls u, if keeps u then {[ u ]} ∪ filtered_urls else filtered_urls)
              acc l
  ↔ url ∈ acc ∨ (url ∈ l ∧ keeps url = true).
Proof.
  revert acc. induction l as [|u l IH]; intros acc; simpl.
  - rewrite elem_of_nil. naive_solver.
  - rewrite IH, elem_of_cons. destruct (keeps u) eqn:Hu.
    + rewrite elem_of_union, elem_of_singleton. naive_solver.
    + naive_solver congruence.
Qed.

Lemma elem_of_filter_image_urls (s : gset string) (url : string) :
  url ∈ _filter_image_urls s ↔ url ∈ s ∧ keeps url = true.
Proof.
  unfold _filter_image_urls. rewrite elem_of_filter_loop, elem_of_elements. set_solver.
Qed.

(** A match of the pattern implies the presence of its marker, so the
    test on the two markers never hides a pair of matches. *)
Lemma match_directive_startswith (tag : ascii) (s d : string) :
  Re.match_directive tag s = Some d → Py.startswith (String "=" (String tag "")) s = true.
Proof.
  destruct s as [|a [|b r]]; [done..|].
  unfold Re.match_directive.
  destruct (Ascii.eqb a "=") eqn:Ea; [|done].
  destruct (Ascii.eqb b tag) eqn:Eb; [|done].
  apply char_eqb_true in Ea, Eb. subst. intros _.
  unfold Py.startswith. by rewrite !Ascii.eqb_refl.
Qed.

Lemma search_directive_cons (tag a : ascii) (s : string) :
  Re.search_directive tag (String a s)
  = match Re.match_directive tag (String a s) with
    | Some d => Some d
    | None => Re.search_directive tag s
    end.
Proof. reflexivity. Qed.

Lemma contains_cons (sub : string) (a : ascii) (s : string) :
  Py.contains sub (String a s) = Py.startswith sub (String a s) || Py.contains sub s.
Proof. reflexivity. Qed.

Lemma search_directive_contains (tag : ascii) (s d : string) :
  Re.search_directive tag s = Some d → Py.contains (String "=" (String tag "")) s = true.
Proof.
  induction s as [|a s IH]; [done|].
  rewrite search_directive_cons, contains_cons.
  destruct (Re.match_directive tag (String a s)) eqn:E.
  - intros _. by rewrite (match_directive_startswith _ _ _ E).
  - intros H. rewrite (IH H). apply orb_true_r.
Qed.

Lemma declared_size_search (url : string) (dw dh : string) :
  Re.search_directive "w" url = Some dw → Re.search_directive "h" url = Some dh →
  declared_size url
  = match Re.int dw, Re.int dh with
    | Some width, Some height => Some (width, height)
    | _, _ => None
    end.
Proof.
  intros Hw Hh. unfold declared_size.
  rewrite (search_directive_contains _ _ _ Hw), (search_directive_contains _ _ _ Hh).
  simpl. by rewrite Hw, Hh.
Qed.

Lemma keeps_declared_size (url : string) (width height : Z) :
  keeps url = true → declared_size url = Some (width, height) →
  (100 ≤ width ∧ 100 ≤ height)%Z.
Proof.
  unfold keeps. intros Hk Hd. rewrite Hd in Hk.
  destruct (width <? 100)%Z eqn:Hw; [done|].
  destruct (height <? 100)%Z eqn:Hh; [done|].
  apply Z.ltb_ge in Hw, Hh. done.
Qed.

(** *** Groups of digits *)

Lemma digits_prefix_chars_take (cs : list string) :
  ∃ n, Re.digits_prefix_chars cs = take n cs.
Proof.
  induction cs as [|c cs [n IH]]; [by exists 0|]. cbn [Re.digits_prefix_chars].
  destruct (Re.digit_of c); [|by exists 0]. exists (S n). by rewrite IH.
Qed.

Lemma digits_prefix_chars_digits (cs : list string) :
  Forall (λ c, is_Some (Re.digit_of c)) (Re.digits_prefix_chars cs).
Proof.
  induction cs as [|c cs IH]; [constructor|]. cbn [Re.digits_prefix_chars].
  destruct (Re.digit_of c) eqn:E; [|constructor].
  constructor; [by rewrite E|done].
Qed.

Lemma chars_digits_prefix (s : string) :
  Utf8.chars (Re.digits_prefix s) = Re.digits_prefix_chars (Utf8.chars s).
Proof.
  unfold Re.digits_prefix. apply chars_join.
  destruct (digits_prefix_chars_take (Utf8.chars s)) as [n ->].
  apply separated_take, separated_chars.
Qed.

Lemma int_chars_digits (cs : list string) (acc : Z) :
  Forall (λ c, is_Some (Re.digit_of c)) cs → is_Some (Re.int_chars acc cs).
Proof.
  intros H. revert acc. induction H as [|c cs [d Hd] _ IH]; intros acc; [by eexists|].
  cbn [Re.int_chars]. rewrite Hd. apply IH.
Qed.

(** A group that the pattern captured is converted unless it is too
    long. *)
Lemma int_digits_prefix (s : string) :
  Py.len (Re.digits_prefix s) ≤ Re.int_max_str_digits → is_Some (Re.int (Re.digits_prefix s)).
Proof.
  unfold Re.int, Py.len. cbv zeta. intros Hlen.
  apply Nat.ltb_ge in Hlen. rewrite Hlen.
  rewrite chars_digits_prefix. apply int_chars_digits, digits_prefix_chars_digits.
Qed.

Lemma match_directive_group (tag : ascii) (s d : string) :
  Re.match_directive tag s = Some d → ∃ r, d = Re.digits_prefix r.
Proof.
  destruct s as [|a [|b r]]; [done..|]. unfold Re.match_directive.
  destruct (_ && _); [|done].
  destruct (Re.digits_prefix r) eqn:E; [done|]. intros [= <-]. by exists r.
Qed.

Lemma search_directive_group (tag : ascii) (s d : string) :
  Re.search_directive tag s = Some d → ∃ r, d = Re.digits_prefix r.
Proof.
  induction s as [|a s IH].
  - cbn. done.
  - rewrite search_directive_cons.
    destruct (Re.match_directive tag (String a s)) eqn:E; [|done].
    intros [= <-]. by eapply match_directive_group.
Qed.

(** C5, as stated, fails: the size test is made only when both markers
    [=w] and [=h] occur, so a URL that declares a width of 50 and no
    height passes the filter. *)
Lemma filter_keeps_small_width_directive :
  "https://img.example.org/p.jpg=w50"
    ∈ _filter_image_urls {[ "https://img.example.org/p.jpg=w50" ]} ∧
  Re.search_directive "w" "https://img.example.org/p.jpg=w50" = Some "50" ∧
  Re.int "50" = Some 50%Z ∧
  ¬ no_small_directive "https://img.example.org/p.jpg=w50".
Proof.
  split; [|split; [reflexivity|split; [reflexivity|]]].
  - apply elem_of_filter_image_urls. split; [set_solver|reflexivity].
  - intros [Hw _]. specialize (Hw "50" 50%Z eq_refl eq_refl). lia.
Qed.

(** The same happens for the form [=w50-h50], in which the height
    follows a dash and not an equals sign: the pattern for the height
    finds nothing and the URL is kept. *)
Example filter_keeps_dash_height_form :
  Re.search_directive "h" "https://lh3.googleusercontent.com/abc=w50-h50" = None ∧
  "https://lh3.googleusercontent.com/abc=w50-h50"
    ∈ _filter_image_urls {[ "https://lh3.googleusercontent.com/abc=w50-h50" ]}.
Proof.
  split; [reflexivity|].
  apply elem_of_filter_image_urls. split; [set_solver|reflexivity].
Qed.

(** A number that [int] refuses to convert ends the size test: a width
    of 4301 zeros is no reason to drop the URL. *)
Example filter_keeps_unreadable_width :
  keeps ("https://img.example.org/p?a=w" +:+ zeros 4301 +:+ "&b=h200.jpg") = true.
Proof. vm_compute. reflexivity. Qed.

(** Digits of any script count: the width here is fifty in
    Arabic-Indic digits. *)
Example filter_reads_other_digits :
  declared_size
    ("https://img.example.org/p?a=w"
       +:+ String "217" (String "165" (String "217" (String "160" "")))
       +:+ "&b=h480.jpg")
  = Some (50, 480)%Z.
Proof. vm_compute. reflexivity. Qed.

(** C5, amended.  In a URL that the filter outputs and in which both a
    width directive [=w<digits>] and a height directive [=h<digits>]
    are found, each of no more digits than [int] converts (4300), both
    groups are read as numbers and both numbers are at least 100: a URL
    with two such directives of which one is below 100 is dropped. *)
Theorem filter_drops_small_declared_size (s : gset string) (url dw dh : string) :
  url ∈ _filter_image_urls s →
  Re.search_directive "w" url = Some dw →
  Re.search_directive "h" url = Some dh →
  Py.len dw ≤ Re.int_max_str_digits → Py.len dh ≤ Re.int_max_str_digits →
  ∃ width height,
    Re.int dw = Some width ∧ Re.int dh = Some height ∧ (100 ≤ width ∧ 100 ≤ height)%Z.
Proof.
  intros [_ Hk]%elem_of_filter_image_urls Hw Hh Hlw Hlh.
  destruct (search_directive_group _ _ _ Hw) as [rw ->].
  destruct (search_directive_group _ _ _ Hh) as [rh ->].
  destruct (int_digits_prefix rw Hlw) as [width Hwidth].
  destruct (int_digits_prefix rh Hlh) as [height Hheight].
  exists width, height. split; [done|]. split; [done|].
  eapply keeps_declared_size; [done|].
  rewrite (declared_size_search _ _ _ Hw Hh). by rewrite Hwidth, Hheight.
Qed.

Lemma filter_drops_small_declared_size_witness :
  ∃ width height,
    Re.int "640" = Some width ∧ Re.int "480" = Some height ∧ (100 ≤ width ∧ 100 ≤ height)%Z.
Proof.
  apply (filter_drops_small_declared_size
           {[ "https://img.example.org/p?a=w640&b=h480" ]}
           "https://img.example.org/p?a=w640&b=h480").
  - apply elem_of_filter_image_urls. split; [set_solver|reflexivity].
  - reflexivity.
  - reflexivity.
  - vm_compute. lia.
  - vm_compute. lia.
Defined.

Example filter_drops_icon_size :
  _filter_image_urls {[ "https://img.example.org/p?a=w64&b=h480" ]} = ∅.
Proof.
  apply set_eq. intros x. rewrite elem_of_filter_image_urls. split; [|set_solver].
  intros [->%elem_of_singleton Hk]. done.
Qed.

(** C10. The filter returns a subset of its input, a URL is kept or
    dropped on its own text alone, and filtering twice is the same as
    filtering once. *)
Theorem filter_subset_idempotent (s : gset string) :
  _filter_image_urls s ⊆ s ∧
  (∀ url, url ∈ _filter_image_urls s ↔ url ∈ s ∧ keeps url = true) ∧
  _filter_image_urls (_filter_image_urls s) = _filter_image_urls s.
Proof.
  split_and!.
  - intros url [? _]%elem_of_filter_image_urls. done.
  - apply elem_of_filter_image_urls.
  - apply set_eq. intros url. rewrite !elem_of_filter_image_urls. naive_solver.
Qed.

(** ** The cap on the number of images *)

(** C6. With a positive limit the capped collection has exactly
    [min (len input) max_count] elements, hence never more than
    [max_count], and consists of the first [max_count] elements in
    iteration order; with the limit 0 nothing is cut. *)
Theorem limit_images_length (max_count : Z) (s : gset string) :
  ((0 < max_count)%Z →
     length (limit_images max_count s) = Nat.min (size s) (Z.to_nat max_count) ∧
     (Z.of_nat (length (limit_images max_count s)) ≤ max_count)%Z ∧
     limit_images max_count s = take (Z.to_nat max_count) (elements s)) ∧
  (max_count = 0%Z → limit_images max_count s = elements s).
Proof.
  unfold limit_images, size, set_size. simpl. split.
  - intros Hpos. apply Z.ltb_lt in Hpos as Hb. rewrite Hb. simpl.
    destruct (max_count <? Z.of_nat (length (elements s)))%Z eqn:Hlt.
    + apply Z.ltb_lt in Hlt. rewrite length_take. split_and!; [lia|lia|done].
    + apply Z.ltb_ge in Hlt. rewrite take_ge by lia. split_and!; [lia|lia|done].
  - intros ->. done.
Qed.

Lemma limit_images_length_witness :
  length (limit_images 2 {[ "https://a/1.jpg"; "https://a/2.jpg"; "https://a/3.jpg" ]}) = 2.
Proof.
  exact (proj1 (proj1 (limit_images_length 2
           {[ "https://a/1.jpg"; "https://a/2.jpg"; "https://a/3.jpg" ]}) eq_refl)).
Defined.

(** ** File name sanitation *)

Section Sanitation.

Local Arguments Py.is_space : simpl never.
Local Arguments Re.is_illegal : simpl never.
Local Arguments Ascii.eqb : simpl never.
Local Arguments Utf8.is_ascii : simpl never.
Local Arguments Utf8.is_cont : simpl never.

Implicit Types (s t c d : string) (a : ascii) (P : ascii → bool) (cs ds : list string).

(** *** The bytes of a character *)







(** *** Tests on every byte *)

Lemma all_chars_has_char P s (x : ascii) :
  Py.all_chars P s = true → Py.has_char x s = true → P x = true.
Proof.
  induction s as [|a s IH]; [done|]. simpl.
  intros [Ha Hs]%andb_true_iff [Hx|Hx]%orb_true_iff; [|by auto].
  by apply char_eqb_true in Hx as <-.
Qed.

Lemma all_chars_app P s t :
  Py.all_chars P (s +:+ t) = Py.all_chars P s && Py.all_chars P t.
Proof.
  induction s as [|a s IH]; [done|]. rewrite app_cons. simpl.
  by rewrite IH, andb_assoc.
Qed.

Lemma all_chars_join P cs :
  Py.all_chars P (Utf8.join cs) = forallb (Py.all_chars P) cs.
Proof.
  induction cs as [|c cs IH]; [done|]. rewrite join_cons, all_chars_app, IH. done.
Qed.

Lemma all_chars_chars P s :
  forallb (Py.all_chars P) (Utf8.chars s) = Py.all_chars P s.
Proof. by rewrite <- all_chars_join, join_chars. Qed.

Lemma forallb_take (Q : string → bool) n cs :
  forallb Q cs = true → forallb Q (take n cs) = true.
Proof.
  revert n. induction cs as [|c cs IH]; intros [|n]; try done. cbn [take forallb].
  intros [-> Hs]%andb_true_iff. by apply IH.
Qed.

Lemma forallb_lstrip (Q : string → bool) cs :
  forallb Q cs = true → forallb Q (Py.lstrip_chars cs) = true.
Proof.
  induction cs as [|c cs IH]; [done|]. cbn [Py.lstrip_chars].
  destruct (Py.is_space c); [|done]. cbn [forallb]. intros [_ Hs]%andb_true_iff. auto.
Qed.

Lemma rstrip_chars_cons c cs :
  Py.rstrip_chars (c :: cs)
  = match Py.rstrip_chars cs with
    | [] => if Py.is_space c then [] else [c]
    | r => c :: r
    end.
Proof. reflexivity. Qed.

Lemma forallb_rstrip (Q : string → bool) cs :
  forallb Q cs = true → forallb Q (Py.rstrip_chars cs) = true.
Proof.
  induction cs as [|c cs IH]; [done|]. rewrite rstrip_chars_cons. cbn [forallb].
  intros [Hc Hs]%andb_true_iff. specialize (IH Hs).
  destruct (Py.rstrip_chars cs) as [|d r].
  - destruct (Py.is_space c); [done|]. cbn [forallb]. by rewrite Hc.
  - cbn [forallb] in *. by rewrite Hc.
Qed.

Lemma all_chars_sub_illegal s :
  Py.all_chars (λ a, negb (Re.is_illegal a)) (Re.sub_illegal s) = true.
Proof.
  induction s as [|a s IH]; [done|]. simpl. rewrite IH.
  by destruct (Re.is_illegal a) eqn:E; [|rewrite E].
Qed.

Lemma sub_spaces_chars_cons c cs :
  Re.sub_spaces_chars (c :: cs)
  = if Py.is_space c then
      match cs with
      | d :: _ => if Py.is_space d then Re.sub_spaces_chars cs
                  else " " :: Re.sub_spaces_chars cs
      | [] => [" "]
      end
    else c :: Re.sub_spaces_chars cs.
Proof. reflexivity. Qed.

Lemma forallb_sub_spaces (Q : string → bool) cs :
  Q " " = true → forallb Q cs = true → forallb Q (Re.sub_spaces_chars cs) = true.
Proof.
  intros Hb. induction cs as [|c cs IH]; [done|]. cbn [forallb].
  intros [Hc Hs]%andb_true_iff. specialize (IH Hs). rewrite sub_spaces_chars_cons.
  destruct (Py.is_space c).
  - destruct cs as [|d cs]; [by cbn; rewrite Hb|].
    destruct (Py.is_space d); [done|]. cbn [forallb]. by rewrite Hb.
  - cbn [forallb]. by rewrite Hc.
Qed.

(** *** The first substitution and the characters *)

Lemma sub_illegal_app s t :
  Re.sub_illegal (s +:+ t) = Re.sub_illegal s +:+ Re.sub_illegal t.
Proof. induction s as [|a s IH]; [done|]. rewrite app_cons. simpl. by rewrite IH. Qed.

Lemma sub_illegal_join cs :
  Re.sub_illegal (Utf8.join cs) = Utf8.join (Re.sub_illegal <$> cs).
Proof.
  induction cs as [|c cs IH]; [done|].
  cbn [fmap list_fmap]. by rewrite !join_cons, sub_illegal_app, IH.
Qed.

Lemma sub_illegal_legal s :
  Py.all_chars (λ a, negb (Re.is_illegal a)) s = true → Re.sub_illegal s = s.
Proof.
  induction s as [|a s IH]; [done|]. simpl.
  intros [Ha Hs]%andb_true_iff. apply negb_true_iff in Ha. by rewrite Ha, IH.
Qed.




(** *** Lengths *)

Lemma length_lstrip_le cs : length (Py.lstrip_chars cs) ≤ length cs.
Proof.
  induction cs as [|c cs IH]; [done|]. cbn [Py.lstrip_chars].
  destruct (Py.is_space c); cbn [length]; lia.
Qed.

Lemma length_rstrip_le cs : length (Py.rstrip_chars cs) ≤ length cs.
Proof.
  induction cs as [|c cs IH]; [done|]. rewrite rstrip_chars_cons.
  destruct (Py.rstrip_chars cs) as [|d r]; [destruct (Py.is_space c)|];
    cbn [length] in *; lia.
Qed.


(** *** Runs of white space *)

Lemma single_spaced_tail c cs :
  single_spaced_chars (c :: cs) = true → single_spaced_chars cs = true.
Proof. cbn [single_spaced_chars]. by intros [_ ?]%andb_true_iff. Qed.

Lemma single_spaced_cons c cs :
  single_spaced_chars (c :: cs)
  = (if Py.is_space c then
       String.eqb c " " && match cs with d :: _ => negb (Py.is_space d) | [] => true end
     else true) && single_spaced_chars cs.
Proof. reflexivity. Qed.

Lemma single_spaced_sub_spaces cs : single_spaced_chars (Re.sub_spaces_chars cs) = true.
Proof.
  induction cs as [|c cs IH]; [done|]. rewrite sub_spaces_chars_cons.
  destruct (Py.is_space c) eqn:Hc.
  - destruct cs as [|d cs]; [done|].
    destruct (Py.is_space d) eqn:Hd; [done|].
    rewrite sub_spaces_chars_cons, Hd in *.
    rewrite single_spaced_cons, IH, Hd. done.
  - by rewrite single_spaced_cons, Hc, IH.
Qed.

Lemma single_spaced_take n cs :
  single_spaced_chars cs = true → single_spaced_chars (take n cs) = true.
Proof.
  revert n. induction cs as [|c cs IH]; intros [|n]; try done.
  intros H. pose proof (IH n (single_spaced_tail _ _ H)) as IHn.
  cbn [take]. rewrite single_spaced_cons in *. rewrite IHn, andb_true_r.
  apply andb_true_iff in H as [H _].
  destruct (Py.is_space c); [|done].
  apply andb_true_iff in H as [-> H]. cbn [andb].
  destruct cs as [|d cs]; [by destruct n|]. by destruct n.
Qed.

Lemma single_spaced_lstrip cs :
  single_spaced_chars cs = true → single_spaced_chars (Py.lstrip_chars cs) = true.
Proof.
  induction cs as [|c cs IH]; [done|]. intros H. cbn [Py.lstrip_chars].
  destruct (Py.is_space c); [|done]. apply IH. by eapply single_spaced_tail.
Qed.

Lemma rstrip_chars_head cs d r : Py.rstrip_chars cs = d :: r → ∃ cs', cs = d :: cs'.
Proof.
  destruct cs as [|c cs]; [done|]. rewrite rstrip_chars_cons.
  destruct (Py.rstrip_chars cs); [destruct (Py.is_space c)|]; intros [= <- _]; eauto.
Qed.

Lemma single_spaced_rstrip cs :
  single_spaced_chars cs = true → single_spaced_chars (Py.rstrip_chars cs) = true.
Proof.
  induction cs as [|c cs IH]; [done|]. intros H.
  pose proof (IH (single_spaced_tail _ _ H)) as IHs. rewrite rstrip_chars_cons.
  destruct (Py.rstrip_chars cs) as [|d r] eqn:Hr.
  - destruct (Py.is_space c) eqn:Hc; [done|]. by rewrite single_spaced_cons, Hc.
  - destruct (rstrip_chars_head _ _ _ Hr) as [cs' ->].
    rewrite single_spaced_cons in H. apply andb_true_iff in H as [H _].
    by rewrite single_spaced_cons, H, IHs.
Qed.

Lemma single_spaced_dots cs :
  single_spaced_chars cs = true → single_spaced_chars (cs ++ Utf8.chars "...") = true.
Proof.
  induction cs as [|c cs IH]; [done|]. intros H.
  pose proof (IH (single_spaced_tail _ _ H)) as IHs.
  cbn [app]. rewrite single_spaced_cons in *. rewrite IHs, andb_true_r.
  apply andb_true_iff in H as [H _].
  destruct (Py.is_space c); [|done].
  destruct cs as [|d cs]; [by rewrite andb_true_r in *|done].
Qed.


(** *** Stripping *)

Lemma lstrip_chars_idempotent cs :
  Py.lstrip_chars (Py.lstrip_chars cs) = Py.lstrip_chars cs.
Proof.
  induction cs as [|c cs IH]; [done|]. cbn [Py.lstrip_chars].
  destruct (Py.is_space c) eqn:Hc; [done|]. cbn [Py.lstrip_chars]. by rewrite Hc.
Qed.

Lemma rstrip_chars_idempotent cs :
  Py.rstrip_chars (Py.rstrip_chars cs) = Py.rstrip_chars cs.
Proof.
  induction cs as [|c cs IH]; [done|]. rewrite (rstrip_chars_cons c cs).
  destruct (Py.rstrip_chars cs) as [|d r] eqn:Hr.
  - destruct (Py.is_space c) eqn:Hc; [done|]. rewrite rstrip_chars_cons. cbn. by rewrite Hc.
  - rewrite rstrip_chars_cons, IH. done.
Qed.

Lemma lstrip_rstrip_chars cs :
  Py.lstrip_chars (Py.rstrip_chars cs) = Py.rstrip_chars (Py.lstrip_chars cs).
Proof.
  induction cs as [|c cs IH]; [done|]. rewrite (rstrip_chars_cons c cs).
  cbn [Py.lstrip_chars].
  destruct (Py.is_space c) eqn:Hc.
  - rewrite <- IH. destruct (Py.rstrip_chars cs) as [|d r]; [done|].
    cbn [Py.lstrip_chars]. by rewrite Hc.
  - rewrite (rstrip_chars_cons c cs).
    destruct (Py.rstrip_chars cs) as [|d r]; cbn [Py.lstrip_chars]; by rewrite Hc.
Qed.

Lemma lstrip_chars_before c cs ds :
  Py.is_space c = false →
  Py.lstrip_chars (cs ++ c :: ds) = Py.lstrip_chars cs ++ c :: ds.
Proof.
  intros Hc. induction cs as [|d cs IH].
  - cbn. by rewrite Hc.
  - cbn [app Py.lstrip_chars]. by destruct (Py.is_space d).
Qed.

Lemma rstrip_chars_after c cs ds :
  Py.is_space c = false →
  Py.rstrip_chars (cs ++ c :: ds) = cs ++ c :: Py.rstrip_chars ds.
Proof.
  intros Hc. induction cs as [|d cs IH].
  - cbn [app]. rewrite rstrip_chars_cons. destruct (Py.rstrip_chars ds); [by rewrite Hc|done].
  - cbn [app]. rewrite rstrip_chars_cons, IH. by destruct cs.
Qed.

Lemma rstrip_chars_empty cs : Py.rstrip_chars cs = [] → forallb Py.is_space cs = true.
Proof.
  induction cs as [|c cs IH]; [done|]. rewrite rstrip_chars_cons.
  destruct (Py.rstrip_chars cs); [|done].
  destruct (Py.is_space c) eqn:Hc; [|done]. intros _. cbn [forallb]. by rewrite Hc, IH.
Qed.

Lemma lstrip_chars_all_space cs :
  forallb Py.is_space (Py.lstrip_chars cs) = true → forallb Py.is_space cs = true.
Proof.
  induction cs as [|c cs IH]; [done|]. cbn [Py.lstrip_chars].
  destruct (Py.is_space c) eqn:Hc; [|done]. cbn [forallb]. by rewrite Hc.
Qed.

Lemma lstrip_chars_blank cs : forallb Py.is_space cs = true → Py.lstrip_chars cs = [].
Proof.
  induction cs as [|c cs IH]; [done|]. cbn [forallb Py.lstrip_chars].
  intros [-> Hs]%andb_true_iff. auto.
Qed.

Lemma strip_chars_all_space cs :
  forallb Py.is_space cs = true → Py.rstrip_chars (Py.lstrip_chars cs) = [].
Proof. intros H. by rewrite lstrip_chars_blank. Qed.

(** A list that stripping leaves alone neither begins nor ends with
    white space. *)
Lemma lstrip_chars_fixed c cs :
  Py.lstrip_chars (c :: cs) = c :: cs → Py.is_space c = false.
Proof.
  cbn [Py.lstrip_chars]. destruct (Py.is_space c); [|done].
  intros H%(f_equal length). pose proof (length_lstrip_le cs). cbn [length] in H. lia.
Qed.

Lemma rstrip_chars_fixed c cs :
  Py.rstrip_chars (cs ++ [c]) = cs ++ [c] → Py.is_space c = false.
Proof.
  destruct (Py.is_space c) eqn:Hc; [|done]. intros H.
  assert (length (Py.rstrip_chars (cs ++ [c])) ≤ length cs) as Hlen; [|
    rewrite H, length_app in Hlen; cbn [length] in Hlen; lia].
  clear H. induction cs as [|d cs IH].
  - cbn. by rewrite Hc.
  - cbn [app]. rewrite rstrip_chars_cons.
    destruct (Py.rstrip_chars (cs ++ [c])); [destruct (Py.is_space d)|];
      cbn [length] in *; lia.
Qed.

Lemma lstrip_chars_drop cs : ∃ n, Py.lstrip_chars cs = drop n cs.
Proof.
  induction cs as [|c cs [n IH]]; [by exists 0|]. cbn [Py.lstrip_chars].
  destruct (Py.is_space c); [by exists (S n)|by exists 0].
Qed.

Lemma rstrip_chars_take cs : ∃ n, Py.rstrip_chars cs = take n cs.
Proof.
  induction cs as [|c cs [n IH]]; [by exists 0|]. rewrite rstrip_chars_cons, IH.
  destruct (take n cs) eqn:E.
  - destruct (Py.is_space c); [by exists 0|by exists 1].
  - exists (S n). cbn [take]. by rewrite E.
Qed.

Lemma strip_chars_fixed cs :
  Py.rstrip_chars (Py.lstrip_chars cs) = cs →
  Py.lstrip_chars cs = cs ∧ Py.rstrip_chars cs = cs.
Proof.
  intros H.
  assert (Py.lstrip_chars cs = cs) as Hl.
  { destruct (lstrip_chars_drop cs) as [n Hn].
    pose proof (length_rstrip_le (Py.lstrip_chars cs)) as Hlen.
    rewrite H, Hn, length_drop in Hlen.
    rewrite Hn. destruct n; [done|]. destruct cs; [done|]. cbn [length] in Hlen. lia. }
  split; [done|]. by rewrite Hl in H.
Qed.

(** *** The substitutions, the cut and the strip on characters *)

Lemma sub_spaces_chars_space c cs :
  Py.is_space c = true →
  Re.sub_spaces_chars (c :: cs) = " " :: Re.sub_spaces_chars (Py.lstrip_chars cs).
Proof.
  revert c. induction cs as [|d cs IH]; intros c Hc; rewrite sub_spaces_chars_cons, Hc.
  - done.
  - cbn [Py.lstrip_chars]. destruct (Py.is_space d) eqn:Hd; [by apply IH|done].
Qed.

Lemma first_cont_sub_spaces cs :
  first_cont (Re.sub_spaces_chars cs) = true → first_cont cs = true.
Proof.
  destruct cs as [|c cs]; [done|].
  destruct (Py.is_space c) eqn:Hc.
  - by rewrite sub_spaces_chars_space.
  - by rewrite sub_spaces_chars_cons, Hc.
Qed.

Lemma separated_sub_spaces cs :
  separated cs = true → separated (Re.sub_spaces_chars cs) = true.
Proof.
  induction cs as [|c cs IH]; [done|]. cbn [separated].
  intros [[Hchar Hsep]%andb_true_iff Hcs]%andb_true_iff. specialize (IH Hcs).
  rewrite sub_spaces_chars_cons. destruct (Py.is_space c).
  - destruct cs as [|d cs]; [done|].
    destruct (Py.is_space d); [done|]. cbn [separated]. by rewrite IH.
  - cbn [separated]. rewrite Hchar, IH, andb_true_r. cbn [andb].
    destruct (ascii_head c); [done|]. cbn [orb] in *.
    apply negb_true_iff in Hsep. apply negb_true_iff.
    destruct (first_cont (Re.sub_spaces_chars cs)) eqn:E; [|done].
    apply first_cont_sub_spaces in E. congruence.
Qed.

Lemma chars_sub_spaces s :
  Utf8.chars (Re.sub_spaces s) = Re.sub_spaces_chars (Utf8.chars s).
Proof. apply chars_join, separated_sub_spaces, separated_chars. Qed.

Lemma chars_take n s : Utf8.chars (Py.take n s) = take n (Utf8.chars s).
Proof. apply chars_join, separated_take, separated_chars. Qed.

Lemma separated_lstrip cs : separated cs = true → separated (Py.lstrip_chars cs) = true.
Proof. destruct (lstrip_chars_drop cs) as [n ->]. apply separated_drop. Qed.

Lemma separated_rstrip cs : separated cs = true → separated (Py.rstrip_chars cs) = true.
Proof. destruct (rstrip_chars_take cs) as [n ->]. apply separated_take. Qed.

Lemma chars_lstrip s : Utf8.chars (Py.lstrip s) = Py.lstrip_chars (Utf8.chars s).
Proof. apply chars_join, separated_lstrip, separated_chars. Qed.

Lemma chars_rstrip s : Utf8.chars (Py.rstrip s) = Py.rstrip_chars (Utf8.chars s).
Proof. apply chars_join, separated_rstrip, separated_chars. Qed.

Lemma chars_strip s :
  Utf8.chars (Py.strip s) = Py.rstrip_chars (Py.lstrip_chars (Utf8.chars s)).
Proof. apply chars_join, separated_rstrip, separated_lstrip, separated_chars. Qed.

Lemma strip_lstrip_rstrip s : Py.strip s = Py.rstrip (Py.lstrip s).
Proof. unfold Py.strip, Py.rstrip. by rewrite chars_lstrip. Qed.

Lemma chars_dots s : Utf8.chars (s +:+ "...") = Utf8.chars s ++ Utf8.chars "...".
Proof. by apply chars_app. Qed.

Lemma join_dots cs : Utf8.join (cs ++ Utf8.chars "...") = Utf8.join cs +:+ "...".
Proof. by rewrite join_app. Qed.

Lemma lstrip_idempotent s : Py.lstrip (Py.lstrip s) = Py.lstrip s.
Proof. unfold Py.lstrip at 1. by rewrite chars_lstrip, lstrip_chars_idempotent. Qed.

Lemma strip_lstrip s : Py.strip (Py.lstrip s) = Py.strip s.
Proof. unfold Py.strip. by rewrite chars_lstrip, lstrip_chars_idempotent. Qed.

Lemma strip_rstrip s : Py.strip (Py.rstrip s) = Py.strip s.
Proof.
  unfold Py.strip. by rewrite chars_rstrip, lstrip_rstrip_chars, rstrip_chars_idempotent.
Qed.

Lemma strip_idempotent s : Py.strip (Py.strip s) = Py.strip s.
Proof.
  unfold Py.strip at 1.
  by rewrite chars_strip, lstrip_rstrip_chars, lstrip_chars_idempotent,
    rstrip_chars_idempotent.
Qed.

Lemma strip_dots s : Py.strip (s +:+ "...") = Py.lstrip s +:+ "...".
Proof.
  unfold Py.strip, Py.lstrip. rewrite chars_dots.
  change (Utf8.chars "...") with ["."; "."; "."].
  rewrite (lstrip_chars_before "." _ [_; _]) by done.
  rewrite (rstrip_chars_after "." _ [_; _]) by done.
  change (Py.rstrip_chars [".";"."]) with [".";"."].
  by rewrite join_app.
Qed.

Lemma blank_empty_or_space s : String.eqb s "" || Py.isspace s = blank s.
Proof.
  unfold Py.isspace, blank. destruct s as [|a s]; [done|].
  pose proof (chars_nonempty a s). by destruct (Utf8.chars (String a s)).
Qed.

Lemma blank_dots s : blank (s +:+ "...") = false.
Proof.
  unfold blank. rewrite chars_dots, forallb_app. apply andb_false_r.
Qed.

Lemma strip_empty s : Py.strip s = "" → blank s = true.
Proof.
  intros H%(f_equal Utf8.chars). rewrite chars_strip in H.
  by apply lstrip_chars_all_space, rstrip_chars_empty.
Qed.

Lemma strip_blank s : blank s = true → Py.strip s = "".
Proof. intros H. unfold Py.strip. by rewrite strip_chars_all_space. Qed.


Lemma sub_spaces_chars_nonempty c cs : Re.sub_spaces_chars (c :: cs) ≠ [].
Proof.
  destruct (Py.is_space c) eqn:Hc.
  - by rewrite sub_spaces_chars_space.
  - by rewrite sub_spaces_chars_cons, Hc.
Qed.


End Sanitation.

Lemma sanitize_cases (name : string) :
  (50 < Py.len (substituted name) ∧
   _sanitize_filename name = Py.lstrip (Py.take 47 (substituted name)) +:+ "...") ∨
  (Py.len (substituted name) ≤ 50 ∧
   blank (substituted name) = true ∧
   _sanitize_filename name = "unnamed_country") ∨
  (Py.len (substituted name) ≤ 50 ∧
   blank (substituted name) = false ∧
   _sanitize_filename name = Py.strip (substituted name)).
Proof.
  unfold _sanitize_filename. cbv zeta. fold (substituted name).
  destruct (50 <? Py.len (substituted name)) eqn:Hlen.
  - apply Nat.ltb_lt in Hlen. left. split; [done|].
    rewrite blank_empty_or_space, blank_dots. apply strip_dots.
  - apply Nat.ltb_ge in Hlen. right. rewrite blank_empty_or_space.
    destruct (blank (substituted name)); [left|right]; done.
Qed.

Lemma substituted_single_spaced (name : string) :
  single_spaced_chars (Utf8.chars (substituted name)) = true.
Proof. unfold substituted. rewrite chars_sub_spaces. apply single_spaced_sub_spaces. Qed.

Lemma substituted_legal (name : string) :
  Py.all_chars (λ a, negb (Re.is_illegal a)) (substituted name) = true.
Proof.
  unfold substituted, Re.sub_spaces. rewrite all_chars_join.
  apply forallb_sub_spaces; [done|]. rewrite all_chars_chars. apply all_chars_sub_illegal.
Qed.

Lemma sanitize_legal (name : string) :
  Py.all_chars (λ a, negb (Re.is_illegal a)) (_sanitize_filename name) = true.
Proof.
  pose proof (substituted_legal name) as Hl. rewrite <- all_chars_chars in Hl.
  destruct (sanitize_cases name) as [[_ ->]|[(_ & _ & ->)|(_ & _ & ->)]].
  - rewrite all_chars_app. apply andb_true_iff. split; [|done].
    unfold Py.lstrip. rewrite all_chars_join, chars_take.
    by apply forallb_lstrip, forallb_take.
  - done.
  - unfold Py.strip. rewrite all_chars_join. by apply forallb_rstrip, forallb_lstrip.
Qed.

Lemma sanitize_single_spaced (name : string) :
  single_spaced (_sanitize_filename name) = true.
Proof.
  pose proof (substituted_single_spaced name) as Hsp. unfold single_spaced.
  destruct (sanitize_cases name) as [[_ ->]|[(_ & _ & ->)|(_ & _ & ->)]].
  - rewrite chars_dots, chars_lstrip, chars_take.
    by apply single_spaced_dots, single_spaced_lstrip, single_spaced_take.
  - done.
  - rewrite chars_strip. by apply single_spaced_rstrip, single_spaced_lstrip.
Qed.

Lemma sanitize_length (name : string) : Py.len (_sanitize_filename name) ≤ 50.
Proof.
  unfold Py.len.
  destruct (sanitize_cases name) as [[_ ->]|[(_ & _ & ->)|(Hlen & _ & ->)]].
  - rewrite chars_dots, length_app, chars_lstrip, chars_take.
    pose proof (length_lstrip_le (take 47 (Utf8.chars (substituted name)))) as H.
    rewrite length_take in H. change (length (Utf8.chars "...")) with 3. lia.
  - vm_compute. lia.
  - rewrite chars_strip. unfold Py.len in Hlen.
    pose proof (length_rstrip_le (Py.lstrip_chars (Utf8.chars (substituted name)))).
    pose proof (length_lstrip_le (Utf8.chars (substituted name))). lia.
Qed.

Lemma sanitize_nonempty (name : string) : _sanitize_filename name ≠ "".
Proof.
  destruct (sanitize_cases name) as [[_ ->]|[(_ & _ & ->)|(_ & Hns & ->)]].
  - intros H%(f_equal String.length). rewrite string_length_app in H.
    change (String.length "...") with 3 in H. change (String.length "") with 0 in H. lia.
  - done.
  - intros H%strip_empty. congruence.
Qed.





(** Characters beyond ASCII: a name of 29 Cyrillic letters is not cut,
    and a run of two no-break spaces becomes one blank. *)
Example sanitize_counts_characters :
  let letter := String "208" (String "176" "") in
  let name := Utf8.join (replicate 29 letter) in
  String.length name = 58 ∧ Py.len name = 29 ∧ _sanitize_filename name = name.
Proof. vm_compute. done. Qed.

Example sanitize_collapses_no_break_spaces :
  let nbsp := String "194" (String "160" "") in
  _sanitize_filename ("Costa" +:+ nbsp +:+ nbsp +:+ "Rica") = "Costa Rica".
Proof. reflexivity. Qed.

(** ** The recursive JSON walk *)

Section JsonWalk.

Local Abbreviation walk := _extract_images_from_json_object.

Lemma json_nested_ind (P : json → Prop) :
  P JNull → (∀ b, P (JBool b)) → (∀ n, P (JNum n)) → (∀ s, P (JStr s)) →
  (∀ l, Forall P l → P (JList l)) →
  (∀ d, Forall (λ kv, P kv.2) d → P (JDict d)) →
  ∀ j, P j.
Proof.
  intros Hnull Hbool Hnum Hstr Hlist Hdict.
  fix F 1.
  intros [ | b | n | s | l | d ];
    [exact Hnull | apply Hbool | apply Hnum | apply Hstr | | ].
  - apply Hlist. induction l as [|x l IHl]; constructor; [apply F|apply IHl].
  - apply Hdict. induction d as [|[k v] d IHd]; constructor; [apply F|apply IHd].
Qed.

Lemma walk_list (l : list json) (acc : gset string) :
  walk (JList l) acc = foldl (λ image_urls item, walk item image_urls) acc l.
Proof. reflexivity. Qed.

Lemma walk_dict (d : list (string * json)) (acc : gset string) :
  walk (JDict d) acc
  = foldl (λ image_urls kv, on_child walk image_urls kv.2)
      (foldl (λ image_urls key, dict_case key image_urls (on_value walk image_urls) d)
             acc recognized_keys)
      d.
Proof. reflexivity. Qed.

Lemma dict_case_get {A : Type} (key : string) (none : A) (some : json → A)
    (d : list (string * json)) :
  dict_case key none some d
  = match dict_get key d with
    | Some value => some value
    | None => none
    end.
Proof.
  unfold dict_get. induction d as [|[k v] d IH]; [done|]. simpl.
  by destruct (String.eqb k key).
Qed.

Lemma dict_get_elem_of (key : string) (d : list (string * json)) (value : json) :
  dict_get key d = Some value → (key, value) ∈ d.
Proof.
  unfold dict_get. induction d as [|[k v] d IH]; [done|]. simpl.
  destruct (String.eqb k key) eqn:E.
  - apply String.eqb_eq in E as ->. intros [= ->]. apply elem_of_cons. by left.
  - intros H. apply elem_of_cons. right. auto.
Qed.

(** A loop that only adds keeps what it had, and keeps what one of its
    rounds is sure to add. *)
Lemma foldl_grows {B : Type} (f : gset string → B → gset string) (l : list B)
    (acc : gset string) :
  (∀ a x, x ∈ l → a ⊆ f a x) → acc ⊆ foldl f acc l.
Proof.
  revert acc. induction l as [|x l IH]; intros acc Hf; simpl; [done|].
  trans (f acc x).
  - apply Hf. apply elem_of_cons. by left.
  - apply IH. intros a y Hy. apply Hf. apply elem_of_cons. by right.
Qed.

Lemma foldl_finds {B : Type} (f : gset string → B → gset string) (l : list B)
    (acc : gset string) (x : B) (u : string) :
  x ∈ l → (∀ a y, y ∈ l → a ⊆ f a y) → (∀ a, u ∈ f a x) → u ∈ foldl f acc l.
Proof.
  revert acc. induction l as [|y l IH]; intros acc Hx Hf Hu; [by apply elem_of_nil in Hx|].
  simpl. apply elem_of_cons in Hx as [<-|Hx].
  - eapply (foldl_grows f l); [|apply Hu].
    intros a z Hz. apply Hf. apply elem_of_cons. by right.
  - apply IH; [done| |done]. intros a z Hz. apply Hf. apply elem_of_cons. by right.
Qed.

Lemma add_image_grows (s : string) (acc : gset string) : acc ⊆ add_image s acc.
Proof. unfold add_image. set_solver. Qed.

Lemma on_item_grows (item : json) (acc : gset string) :
  (∀ a, a ⊆ walk item a) → acc ⊆ on_item walk acc item.
Proof.
  intros Hw. destruct item; simpl; try done.
  destruct (is_json_image_url s); [apply add_image_grows|done].
Qed.

Lemma on_child_grows (value : json) (acc : gset string) :
  (∀ a, a ⊆ walk value a) → acc ⊆ on_child walk acc value.
Proof. intros Hw. destruct value; simpl; done. Qed.

(** The walk only adds to the set it is given. *)
Lemma walk_grows (j : json) (acc : gset string) : acc ⊆ walk j acc.
Proof.
  revert acc.
  cut ((∀ acc, acc ⊆ walk j acc) ∧
       match j with
       | JList items => Forall (λ item, ∀ acc, acc ⊆ walk item acc) items
       | _ => True
       end); [by intros [? _]|].
  induction j as [ | b | n | s | l IH | d IH ] using json_nested_ind; try done.
  - assert (Forall (λ item, ∀ acc, acc ⊆ walk item acc) l) as Hl.
    { eapply Forall_impl; [exact IH|]. by intros x [? _]. }
    split; [|done]. intros acc. rewrite walk_list. apply foldl_grows.
    intros a x Hx. rewrite Forall_forall in Hl. by apply Hl.
  - split; [|done]. intros acc. rewrite walk_dict.
    rewrite Forall_forall in IH.
    etrans; [|apply foldl_grows].
    + apply foldl_grows. intros a key _. rewrite dict_case_get.
      destruct (dict_get key d) as [value|] eqn:Hget; [|done].
      apply dict_get_elem_of in Hget. destruct (IH _ Hget) as [Hv Hitems]. simpl in *.
      destruct value; simpl; try done.
      * destruct (is_json_image_url s); [apply add_image_grows|done].
      * apply foldl_grows. intros a' item Hitem. apply on_item_grows.
        rewrite Forall_forall in Hitems. by apply Hitems.
    + intros a [k v] Hkv. apply on_child_grows. by apply (IH _ Hkv).
Qed.

Lemma on_child_container (v : json) (d : list (string * json)) (acc : gset string) :
  reaches v (JDict d) → on_child walk acc v = walk v acc.
Proof. intros H. by inversion H. Qed.

Lemma on_value_grows (value : json) (acc : gset string) : acc ⊆ on_value walk acc value.
Proof.
  destruct value as [ | b | n | s | items | d ]; unfold on_value; [done..| | | ].
  - destruct (is_json_image_url s); [apply add_image_grows|done].
  - apply foldl_grows. intros a item _. apply on_item_grows. intros a'. apply walk_grows.
  - apply walk_grows.
Qed.

Lemma on_value_finds (value : json) (u : string) (acc : gset string) :
  (value = JStr u ∨ ∃ items, value = JList items ∧ JStr u ∈ items) →
  is_json_image_url u = true →
  _get_high_res_image_url u ∈ on_value walk acc value.
Proof.
  intros [->|(items & -> & Hin)] Hu; simpl.
  - rewrite Hu. unfold add_image. set_solver.
  - apply (foldl_finds _ _ _ (JStr u)); [done| |].
    + intros a item _. apply on_item_grows. intros a'. apply walk_grows.
    + intros a. simpl. rewrite Hu. unfold add_image. set_solver.
Qed.

Lemma walk_dict_finds (d : list (string * json)) (key u : string) (value : json)
    (acc : gset string) :
  key ∈ recognized_keys →
  dict_get key d = Some value →
  (value = JStr u ∨ ∃ items, value = JList items ∧ JStr u ∈ items) →
  is_json_image_url u = true →
  _get_high_res_image_url u ∈ walk (JDict d) acc.
Proof.
  intros Hkey Hget Hval Hu. rewrite walk_dict.
  eapply (foldl_grows _ d).
  { intros a [k v] _. apply on_child_grows. intros a'. apply walk_grows. }
  apply (foldl_finds _ _ _ key); [done| |].
  - intros a k _. rewrite dict_case_get.
    destruct (dict_get k d) as [v|]; [apply on_value_grows|done].
  - intros a. rewrite dict_case_get, Hget. by apply on_value_finds.
Qed.

End JsonWalk.

(** An HTTP(S) string that ends in a supported extension passes the test
    of the walk, which is wider (the extension may occur anywhere, in any
    letter case). *)
Lemma lower_app (s t : string) : Py.lower (s +:+ t) = Py.lower s +:+ Py.lower t.
Proof. induction s as [|a s IH]; [done|]. rewrite app_cons. simpl. by rewrite IH. Qed.

Lemma endswith_cons (suf : string) (a : ascii) (s : string) :
  Py.endswith suf (String a s) = String.eqb (String a s) suf || Py.endswith suf s.
Proof. reflexivity. Qed.

Lemma endswith_inv (suf s : string) : Py.endswith suf s = true → ∃ p, s = p +:+ suf.
Proof.
  induction s as [|a s IH].
  - destruct suf; [by exists ""|done].
  - rewrite endswith_cons. intros [->%String.eqb_eq|H]%orb_true_iff; [by exists ""|].
    destruct (IH H) as [p ->]. by exists (String a p).
Qed.

Lemma contains_self_app (s t : string) : Py.contains s (s +:+ t) = true.
Proof.
  destruct s as [|a s]; [by destruct t|].
  rewrite app_cons. simpl. rewrite Ascii.eqb_refl, startswith_app. done.
Qed.

Lemma http_image_url_passes (u : string) :
  is_http_image_url u = true → is_json_image_url u = true.
Proof.
  unfold is_http_image_url, is_json_image_url.
  intros [Hscheme Hext]%andb_true_iff. apply andb_true_iff. split.
  - apply orb_true_iff in Hscheme as [H|H]; apply startswith_inv in H as [r ->]; done.
  - apply existsb_exists in Hext as (ext & Hin & Hends).
    apply existsb_exists. exists ext. split; [done|].
    apply endswith_inv in Hends as [p ->]. rewrite lower_app.
    apply contains_app_right.
    assert (Py.lower ext = ext) as ->.
    { simpl in Hin. by destruct Hin as [<-|[<-|[<-|[<-|[]]]]]. }
    rewrite <- (app_nil_right ext) at 2. apply contains_self_app.
Qed.

(** C2, as stated, fails: a string that is the value of a key outside
    the recognised set is never collected, because the second loop only
    descends into mappings and sequences; three levels deep under the
    key [url] the image URL is missed. *)
Lemma walk_misses_unrecognized_key :
  string_value_in "https://example.org/photo.jpg"
    (JDict [("a", JDict [("b", JDict [("url", JStr "https://example.org/photo.jpg")])])]) ∧
  is_http_image_url "https://example.org/photo.jpg" = true ∧
  _get_high_res_image_url "https://example.org/photo.jpg"
    ∉ _extract_images_from_json_object
        (JDict [("a", JDict [("b", JDict [("url", JStr "https://example.org/photo.jpg")])])])
        ∅.
Proof.
  split_and!.
  - exists [("url", JStr "https://example.org/photo.jpg")], "url". split.
    + eapply reaches_dict; [apply list_elem_of_here|].
      eapply reaches_dict; [apply list_elem_of_here|]. apply reaches_here.
    + apply list_elem_of_here.
  - reflexivity.
  - intros H%elem_of_elements. vm_compute in H. by apply elem_of_nil in H.
Qed.

(** C2, amended.  Wherever a mapping lies in the document, at any depth
    and under any keys or list positions, an image URL that this mapping
    holds under one of the recognised keys, as the value itself or as an
    element of the sequence stored there, is collected in its normalised
    form.  An image URL is a string that starts with [http] and holds one
    of the extensions in any letter case. *)
Theorem walk_finds_recognized_key (j : json) (d : list (string * json))
    (key u : string) (value : json) (image_urls : gset string) :
  reaches j (JDict d) →
  key ∈ recognized_keys →
  dict_get key d = Some value →
  (value = JStr u ∨ ∃ items, value = JList items ∧ JStr u ∈ items) →
  is_json_image_url u = true →
  _get_high_res_image_url u ∈ _extract_images_from_json_object j image_urls.
Proof.
  intros Hreach Hkey Hget Hval Hu. revert image_urls.
  remember (JDict d) as target eqn:Htarget.
  induction Hreach as [j | d' k v sub Hkv Hsub IH | l v sub Hv Hsub IH];
    intros image_urls; subst.
  - by eapply walk_dict_finds.
  - rewrite walk_dict. apply (foldl_finds _ _ _ (k, v)); [done| |].
    + intros a [k' v'] _. apply on_child_grows. intros a'. apply walk_grows.
    + intros a. simpl. rewrite (on_child_container _ _ _ Hsub). by apply IH.
  - rewrite walk_list. apply (foldl_finds _ _ _ v); [done| |].
    + intros a item _. apply walk_grows.
    + intros a. by apply IH.
Qed.

Lemma walk_finds_recognized_key_witness :
  _get_high_res_image_url "https://example.org/photo.jpg"
    ∈ _extract_images_from_json_object
        (JDict [("a", JDict [("b", JDict [("image", JStr "https://example.org/photo.jpg")])])])
        ∅.
Proof.
  apply (walk_finds_recognized_key _ [("image", JStr "https://example.org/photo.jpg")]
           "image" "https://example.org/photo.jpg" (JStr "https://example.org/photo.jpg")).
  - eapply reaches_dict; [apply list_elem_of_here|].
    eapply reaches_dict; [apply list_elem_of_here|]. apply reaches_here.
  - apply list_elem_of_here.
  - reflexivity.
  - by left.
  - reflexivity.
Defined.

(** ** The entity list parser *)

Section Parser.

Local Arguments Py.is_space : simpl never.
Local Arguments Ascii.eqb : simpl never.
Local Arguments Utf8.is_ascii : simpl never.
Local Arguments Utf8.is_cont : simpl never.

Implicit Types (s t c : string) (a : ascii) (cs ds : list string).

(** An ASCII character is a character of the text wherever it stands. *)
Lemma chars_ascii_mid a s t :
  Utf8.is_ascii a = true →
  Utf8.chars (s +:+ String a t) = Utf8.chars s ++ String a "" :: Utf8.chars t.
Proof.
  intros Ha. rewrite chars_app.
  - by rewrite (chars_cons a t), Ha.
  - cbn [Utf8.cont_head]. destruct (Utf8.is_cont a) eqn:E; [|done].
    apply cont_not_ascii in E. congruence.
Qed.

Lemma has_char_app a s t : Py.has_char a (s +:+ t) = Py.has_char a s || Py.has_char a t.
Proof.
  induction s as [|b s IH]; [done|]. rewrite app_cons. simpl. by rewrite IH, orb_assoc.
Qed.

Lemma has_char_join a cs :
  Py.has_char a (Utf8.join cs) = negb (forallb (λ c, negb (Py.has_char a c)) cs).
Proof.
  induction cs as [|c cs IH]; [done|]. rewrite join_cons, has_char_app, IH.
  cbn [forallb]. by destruct (Py.has_char a c).
Qed.

Lemma has_char_chars a s :
  forallb (λ c, negb (Py.has_char a c)) (Utf8.chars s) = negb (Py.has_char a s).
Proof. by rewrite <- (join_chars s) at 2; rewrite has_char_join, negb_involutive. Qed.

Lemma has_char_lstrip a s : Py.has_char a s = false → Py.has_char a (Py.lstrip s) = false.
Proof.
  intros H. unfold Py.lstrip. rewrite has_char_join. apply negb_false_iff.
  apply forallb_lstrip. by rewrite has_char_chars, H.
Qed.

Lemma has_char_strip a s : Py.has_char a s = false → Py.has_char a (Py.strip s) = false.
Proof.
  intros H. unfold Py.strip. rewrite has_char_join. apply negb_false_iff.
  apply forallb_rstrip, forallb_lstrip. by rewrite has_char_chars, H.
Qed.

Lemma has_char_middle a s t : Py.has_char a (s +:+ String a t) = true.
Proof.
  rewrite has_char_app. simpl. rewrite Ascii.eqb_refl. apply orb_true_r.
Qed.

Lemma split_at_first a s :
  Py.has_char a s = true →
  s = Py.split_head a s +:+ String a (split_tail a s).
Proof.
  intros H. unfold split_tail.
  destruct (split_rest_starts a s H) as [r Hr]. rewrite Hr.
  rewrite <- Hr. apply split_head_rest.
Qed.

Lemma split_tail_app a s t :
  Py.has_char a s = false → split_tail a (s +:+ String a t) = t.
Proof. intros H. unfold split_tail. by rewrite split_rest_app. Qed.

(** Stripping a text around a colon strips the text before it on the
    left and the text after it on the right. *)
Lemma strip_around_colon s t :
  Py.strip (s +:+ String ":" t) = Py.lstrip s +:+ String ":" (Py.rstrip t).
Proof.
  unfold Py.strip, Py.lstrip, Py.rstrip. rewrite chars_ascii_mid by done.
  rewrite lstrip_chars_before, rstrip_chars_after by done.
  by rewrite join_app, join_cons.
Qed.

(** One round of the loop against the reading of the line. *)
Lemma process_line_spec (st : parse_state) (line : string) :
  process_line st line
  = ParseState (countries st ++ option_list (entity_of_line line))
               (warnings st ++ option_list (warning_of_line line)).
Proof.
  unfold process_line, entity_of_line, warning_of_line, split_once.
  destruct (Py.has_char ":" line) eqn:Hcolon.
  - pose proof (split_at_first _ _ Hcolon) as Hline.
    pose proof (split_head_clean ":" line) as Hclean.
    set (id_text := Py.split_head ":" line) in *.
    set (name_text := split_tail ":" line) in *.
    assert (Py.strip line = Py.lstrip id_text +:+ String ":" (Py.rstrip name_text)) as ->.
    { rewrite Hline at 1. apply strip_around_colon. }
    rewrite has_char_middle.
    rewrite split_head_app, split_tail_app by by apply has_char_lstrip.
    rewrite strip_lstrip, strip_rstrip.
    destruct (Py.lstrip id_text); simpl; by rewrite app_nil_r.
  - rewrite (has_char_strip _ _ Hcolon).
    destruct (blank line) eqn:Hblank.
    + rewrite (strip_blank _ Hblank). simpl. destruct st. by rewrite !app_nil_r.
    + destruct (String.eqb (Py.strip line) "") eqn:E.
      * apply String.eqb_eq, strip_empty in E. congruence.
      * simpl. by rewrite app_nil_r.
Qed.

Lemma parse_loop_spec (lines : list string) (st : parse_state) :
  foldl process_line st lines
  = ParseState (countries st ++ omap entity_of_line lines)
               (warnings st ++ omap warning_of_line lines).
Proof.
  revert st. induction lines as [|line lines IH]; intros st; simpl.
  - destruct st. by rewrite !app_nil_r.
  - rewrite IH, process_line_spec. simpl.
    destruct (entity_of_line line), (warning_of_line line); simpl;
      by rewrite <- ?app_assoc, ?app_nil_r.
Qed.

(** *** The lines of a file *)

Lemma readlines_cons a text :
  readlines (String a text)
  = if Ascii.eqb a newline then String a "" :: readlines text
    else match readlines text with
         | [] => [String a ""]
         | line :: lines => String a line :: lines
         end.
Proof. reflexivity. Qed.

Lemma readlines_unterminated s :
  Py.has_char newline s = false → readlines s = if String.eqb s "" then [] else [s].
Proof.
  induction s as [|a s IH]; [done|]. cbn [Py.has_char].
  intros [Ha Hs]%orb_false_iff. rewrite readlines_cons, Ha, (IH Hs).
  by destruct s.
Qed.

Lemma readlines_line s text :
  Py.has_char newline s = false →
  readlines (s +:+ String newline text) = (s +:+ String newline "") :: readlines text.
Proof.
  induction s as [|a s IH]; intros Hs.
  - reflexivity.
  - cbn [Py.has_char] in Hs. apply orb_false_iff in Hs as [Ha Hs].
    rewrite !app_cons, readlines_cons, Ha, (IH Hs). done.
Qed.

Lemma unlines_cons line lines :
  unlines (line :: lines) = line +:+ String newline (unlines lines).
Proof.
  unfold unlines. cbn [fmap list_fmap]. rewrite join_cons.
  by rewrite app_assoc_str.
Qed.

Lemma readlines_unlines (lines : list string) (last : string) :
  Forall (λ line, Py.has_char newline line = false) lines →
  Py.has_char newline last = false →
  readlines (unlines lines +:+ last)
  = ((λ line, line +:+ String newline "") <$> lines)
      ++ (if String.eqb last "" then [] else [last]).
Proof.
  intros Hlines Hlast. induction Hlines as [|line lines Hline _ IH].
  - by apply readlines_unterminated.
  - rewrite unlines_cons, app_assoc_str, app_cons, readlines_line, IH by done. done.
Qed.

(** Every text is made of lines closed by a line feed and a last line
    that is not. *)
Lemma text_lines (text : string) :
  ∃ lines last,
    text = unlines lines +:+ last ∧
    Forall (λ line, Py.has_char newline line = false) lines ∧
    Py.has_char newline last = false.
Proof.
  induction text as [|a text (lines & last & -> & Hlines & Hlast)].
  - by exists [], "".
  - destruct (Ascii.eqb a newline) eqn:Ha.
    + apply char_eqb_true in Ha as ->. exists ("" :: lines), last.
      split_and!; [by rewrite unlines_cons|by constructor|done].
    + destruct Hlines as [|line lines Hline Hlines].
      * exists [], (String a last). split_and!; [done|constructor|].
        cbn [Py.has_char]. by rewrite Ha.
      * exists (String a line :: lines), last. split_and!; [|constructor|done].
        -- by rewrite !unlines_cons.
        -- cbn [Py.has_char]. by rewrite Ha.
        -- done.
Qed.

(** *** The line feed at the end of a line *)

Lemma newline_space : Py.is_space (String newline "") = true.
Proof. reflexivity. Qed.

Lemma chars_line_feed s :
  Utf8.chars (s +:+ String newline "") = Utf8.chars s ++ [String newline ""].
Proof. by rewrite chars_ascii_mid. Qed.

Lemma rstrip_chars_space_end cs c :
  Py.is_space c = true → Py.rstrip_chars (cs ++ [c]) = Py.rstrip_chars cs.
Proof.
  intros Hc. induction cs as [|d cs IH].
  - cbn. by rewrite Hc.
  - cbn [app]. by rewrite !rstrip_chars_cons, IH.
Qed.

Lemma lstrip_chars_app cs ds :
  Py.lstrip_chars (cs ++ ds)
  = if forallb Py.is_space cs then Py.lstrip_chars ds else Py.lstrip_chars cs ++ ds.
Proof.
  induction cs as [|c cs IH]; [done|]. cbn [app Py.lstrip_chars forallb].
  destruct (Py.is_space c); [exact IH|done].
Qed.

Lemma strip_line_feed s : Py.strip (s +:+ String newline "") = Py.strip s.
Proof.
  unfold Py.strip. rewrite chars_line_feed, lstrip_chars_app.
  destruct (forallb Py.is_space (Utf8.chars s)) eqn:E.
  - by rewrite (strip_chars_all_space _ E).
  - by rewrite rstrip_chars_space_end.
Qed.

Lemma blank_line_feed s : blank (s +:+ String newline "") = blank s.
Proof.
  unfold blank. rewrite chars_line_feed, forallb_app. cbn [forallb].
  by rewrite newline_space, !andb_true_r.
Qed.

Lemma entity_of_line_feed line :
  entity_of_line (line +:+ String newline "") = entity_of_line line.
Proof.
  unfold entity_of_line. rewrite has_char_app.
  change (Py.has_char ":" (String newline "")) with false. rewrite orb_false_r.
  destruct (Py.has_char ":" line) eqn:Hcolon; [|done].
  rewrite (split_at_first _ _ Hcolon) at 1 2.
  rewrite app_assoc_str, app_cons.
  rewrite split_head_app, split_tail_app by apply split_head_clean.
  by rewrite strip_line_feed.
Qed.

Lemma warning_of_line_feed line :
  warning_of_line (line +:+ String newline "") = warning_of_line line.
Proof.
  unfold warning_of_line. rewrite has_char_app.
  change (Py.has_char ":" (String newline "")) with false. rewrite orb_false_r.
  by rewrite blank_line_feed, strip_line_feed.
Qed.

Lemma omap_line_feed {A} (f : string → option A) (lines : list string) (last : string) :
  (∀ line, f (line +:+ String newline "") = f line) → f "" = None →
  omap f (((λ line, line +:+ String newline "") <$> lines)
            ++ (if String.eqb last "" then [] else [last]))
  = omap f (lines ++ [last]).
Proof.
  intros Hf Hempty. rewrite !omap_app. f_equal.
  - induction lines as [|line lines IH]; [done|].
    simpl. rewrite Hf. destruct (f line); [f_equal|]; exact IH.
  - destruct last; [|done]. simpl. by rewrite Hempty.
Qed.

End Parser.

(** C8. The parser returns, in the order of the file, one entity for
    every line that holds a colon: its id is the trimmed text before the
    first colon and its name the trimmed text after it.  Blank lines give
    nothing; a line without a colon gives no entity but a warning, and
    the lines after it are still read.  The lines are the texts between
    the line feeds of the file, and every text is made of such lines.  A
    file that cannot be read gives the empty list. *)
Theorem get_countries_from_file_spec (lines : list string) (last : string) :
  Forall (λ line, Py.has_char newline line = false) lines →
  Py.has_char newline last = false →
  get_countries_from_file (Some (unlines lines +:+ last))
    = omap entity_of_line (lines ++ [last]) ∧
  warnings (parse_lines (readlines (unlines lines +:+ last)))
    = omap warning_of_line (lines ++ [last]) ∧
  (∀ text, ∃ lines' last',
     text = unlines lines' +:+ last' ∧
     Forall (λ line, Py.has_char newline line = false) lines' ∧
     Py.has_char newline last' = false) ∧
  (∀ id_text name_text,
     Py.has_char ":" id_text = false →
     entity_of_line (id_text +:+ ":" +:+ name_text)
     = Some (Country (Py.strip id_text) (Py.strip name_text))) ∧
  (∀ line, Py.has_char ":" line = false →
     entity_of_line line = None ∧
     warning_of_line line
     = if blank line then None
       else Some ("Could not parse line: " +:+ Py.strip line)) ∧
  get_countries_from_file None = [].
Proof.
  intros Hlines Hlast. split_and!.
  - unfold get_countries_from_file, parse_lines.
    rewrite parse_loop_spec, readlines_unlines by done. cbn [countries app].
    apply omap_line_feed; [apply entity_of_line_feed|done].
  - unfold parse_lines.
    rewrite parse_loop_spec, readlines_unlines by done. cbn [warnings app].
    apply omap_line_feed; [apply warning_of_line_feed|done].
  - apply text_lines.
  - intros id_text name_text Hid. unfold entity_of_line.
    change (id_text +:+ ":" +:+ name_text) with (id_text +:+ String ":" name_text).
    by rewrite has_char_middle, split_head_app, split_tail_app.
  - intros line Hline. unfold entity_of_line, warning_of_line. by rewrite Hline.
  - done.
Qed.

Lemma get_countries_from_file_spec_witness :
  get_countries_from_file (Some "12: Wakanda

bad line
 3 : a: b ")
  = [Country "12" "Wakanda"; Country "3" "a: b"].
Proof.
  apply (get_countries_from_file_spec ["12: Wakanda"; ""; "bad line"] " 3 : a: b ").
  - repeat constructor.
  - reflexivity.
Defined.

Example parse_country_list :
  get_countries_from_file (Some "12: Wakanda
07: Atlantis

bad line
 3 : a: b ")
  = [Country "12" "Wakanda"; Country "07" "Atlantis"; Country "3" "a: b"].
Proof. reflexivity. Qed.

(** White space beyond ASCII is trimmed as well, here a no-break space
    in front of the name and an ideographic space after it. *)
Example parse_trims_wide_spaces :
  let nbsp := String "194" (String "160" "") in
  let wide := String "227" (String "128" (String "128" "")) in
  get_countries_from_file (Some ("1:" +:+ nbsp +:+ "France" +:+ wide))
  = [Country "1" "France"].
Proof. reflexivity. Qed.

(** ** File names of the downloader *)

Section Paths.

Local Arguments Py.is_digit : simpl never.
Local Arguments Ascii.eqb : simpl never.

Lemma lower_char_idempotent (a : ascii) : Py.lower_char (Py.lower_char a) = Py.lower_char a.
Proof. by destruct a as [[] [] [] [] [] [] [] []]. Qed.

Lemma lower_idempotent (s : string) : Py.lower (Py.lower s) = Py.lower s.
Proof.
  induction s as [|a s IH]; [done|]. simpl. by rewrite lower_char_idempotent, IH.
Qed.

Lemma lower_idempotent_format (img : pil_image) :
  Py.lower (true_format img) = true_format img.
Proof.
  unfold true_format. destruct (img_format img) as [[|a f]|]; [done| |done].
  apply lower_idempotent.
Qed.

Lemma decimal_value_uint (d : Decimal.uint) (acc : nat) :
  decimal_value (Z.of_nat acc) (NilEmpty.string_of_uint d)
  = Z.of_nat (Nat.of_uint_acc d acc).
Proof.
  revert acc. induction d as [|d IH|d IH|d IH|d IH|d IH|d IH|d IH|d IH|d IH|d IH];
    intros acc; [done|..];
    cbn [NilEmpty.string_of_uint decimal_value Nat.of_uint_acc];
    rewrite <- IH; f_equal; rewrite Nat.tail_mul_spec;
    match goal with |- context [Re.digit_value ?c] =>
      let v := eval vm_compute in (Re.digit_value c) in
      change (Re.digit_value c) with v
    end; lia.
Qed.

Lemma decimal_value_decimal (n : nat) : decimal_value 0 (decimal n) = Z.of_nat n.
Proof.
  unfold decimal. change 0%Z with (Z.of_nat 0).
  rewrite decimal_value_uint. f_equal. apply DecimalNat.Unsigned.of_to.
Qed.

Lemma decimal_value_zeros (k : nat) (s : string) :
  decimal_value 0 (zeros k +:+ s) = decimal_value 0 s.
Proof.
  induction k as [|k IH]; [done|].
  cbn [zeros]. rewrite app_cons. cbn [decimal_value]. exact IH.
Qed.

Lemma format_03d_inj (n m : nat) : format_03d n = format_03d m → n = m.
Proof.
  intros H%(f_equal (decimal_value 0)). unfold format_03d in H.
  rewrite !decimal_value_zeros, !decimal_value_decimal in H. lia.
Qed.

Lemma all_digits_uint (d : Decimal.uint) :
  Py.all_chars Py.is_digit (NilEmpty.string_of_uint d) = true.
Proof. induction d; [done|by cbn [NilEmpty.string_of_uint Py.all_chars]; rewrite IHd..]. Qed.

Lemma all_digits_zeros (k : nat) : Py.all_chars Py.is_digit (zeros k) = true.
Proof. induction k as [|k IH]; [done|]. cbn [zeros Py.all_chars]. by rewrite IH. Qed.

Lemma all_digits_format (n : nat) : Py.all_chars Py.is_digit (format_03d n) = true.
Proof.
  unfold format_03d, decimal. by rewrite all_chars_app, all_digits_zeros, all_digits_uint.
Qed.

(** Two texts made of digits and followed by a dot: the digits and the
    rests agree when the whole texts do. *)
Lemma digits_dot_inj (a b x y : string) :
  Py.all_chars Py.is_digit a = true → Py.all_chars Py.is_digit b = true →
  a +:+ String "." x = b +:+ String "." y → a = b ∧ x = y.
Proof.
  revert b. induction a as [|c a IH]; intros [|c' b] Ha Hb H.
  - rewrite !app_nil_left in H. by injection H as ->.
  - rewrite app_nil_left, app_cons in H. injection H as <- _.
    cbn [Py.all_chars] in Hb. done.
  - rewrite app_nil_left, app_cons in H. injection H as -> _.
    cbn [Py.all_chars] in Ha. done.
  - rewrite !app_cons in H. injection H as -> H.
    cbn [Py.all_chars] in Ha, Hb.
    apply andb_true_iff in Ha as [_ Ha]. apply andb_true_iff in Hb as [_ Hb].
    destruct (IH b Ha Hb H) as [-> ->]. done.
Qed.

(** *** Components of a path *)

Lemma split_cons (a : ascii) (s : string) :
  Path.split (String a s)
  = if Ascii.eqb a "/" then "" :: Path.split s
    else match Path.split s with
         | x :: xs => String a x :: xs
         | [] => [String a ""]
         end.
Proof. reflexivity. Qed.

Lemma split_nonempty (s : string) : Path.split s ≠ [].
Proof.
  destruct s as [|a s]; [done|]. rewrite split_cons.
  by destruct (Ascii.eqb a "/"), (Path.split s).
Qed.

(** The first component is the text before the first slash. *)
Lemma split_first (s : string) : ∃ rest, Path.split s = Py.split_head "/" s :: rest.
Proof.
  induction s as [|a s [rest IH]]; [by exists []|]. rewrite split_cons. cbn [Py.split_head].
  destruct (Ascii.eqb a "/"); [by eexists|]. rewrite IH. by eexists.
Qed.

Lemma split_clean (s : string) : Forall (λ x, Py.has_char "/" x = false) (Path.split s).
Proof.
  induction s as [|a s IH]; [by repeat constructor|]. rewrite split_cons.
  destruct (Ascii.eqb a "/") eqn:Ha; [by constructor|].
  destruct IH as [|x xs Hx Hxs].
  - repeat constructor. cbn [Py.has_char]. by rewrite Ha.
  - constructor; [|done]. cbn [Py.has_char]. by rewrite Ha, Hx.
Qed.

Lemma split_head_no_slash (s : string) :
  Py.has_char "/" s = false → Py.split_head "/" s = s.
Proof.
  induction s as [|a s IH]; [done|]. cbn [Py.has_char Py.split_head].
  intros [-> Hs]%orb_false_iff. by rewrite IH.
Qed.

Lemma split_no_slash (s : string) : Py.has_char "/" s = false → Path.split s = [s].
Proof.
  induction s as [|a s IH]; [done|]. cbn [Py.has_char].
  intros [Ha Hs]%orb_false_iff. by rewrite split_cons, Ha, IH.
Qed.

(** A text without a slash in front of another one joins its first
    component. *)
Lemma split_no_slash_app (u t : string) :
  Py.has_char "/" u = false →
  ∃ rest, Path.split t = Py.split_head "/" t :: rest ∧
          Path.split (u +:+ t) = (u +:+ Py.split_head "/" t) :: rest.
Proof.
  intros Hu. destruct (split_first t) as [rest Ht]. exists rest. split; [done|].
  induction u as [|a u IH]; [done|]. cbn [Py.has_char] in Hu.
  apply orb_false_iff in Hu as [Ha Hu].
  by rewrite !app_cons, split_cons, Ha, (IH Hu).
Qed.

Lemma split_slash_app (x t : string) :
  Py.has_char "/" x = false → Path.split (x +:+ String "/" t) = x :: Path.split t.
Proof.
  induction x as [|a x IH]; [done|]. cbn [Py.has_char].
  intros [Ha Hx]%orb_false_iff. by rewrite app_cons, split_cons, Ha, (IH Hx).
Qed.

(** The components of a text followed by another: all but the last
    stay, the last takes the first component of what follows. *)
Lemma split_snoc (s : string) :
  ∃ init x,
    Path.split s = init ++ [x] ∧
    ∀ t rest, Path.split t = Py.split_head "/" t :: rest →
              Path.split (s +:+ t) = init ++ (x +:+ Py.split_head "/" t) :: rest.
Proof.
  induction s as [|a s (init & x & Hs & IH)].
  - exists [], "". split; [done|]. intros t rest Ht. exact Ht.
  - destruct (Ascii.eqb a "/") eqn:Ha.
    + exists ("" :: init), x. rewrite split_cons, Ha, Hs. split; [done|].
      intros t rest Ht. by rewrite app_cons, split_cons, Ha, (IH t rest Ht).
    + destruct init as [|y init].
      * exists [], (String a x). rewrite split_cons, Ha, Hs. split; [done|].
        intros t rest Ht. by rewrite app_cons, split_cons, Ha, (IH t rest Ht).
      * exists (String a y :: init), x. rewrite split_cons, Ha, Hs. split; [done|].
        intros t rest Ht. by rewrite app_cons, split_cons, Ha, (IH t rest Ht).
Qed.

Lemma root_of_cases (s : string) :
  Path.root_of s = "" ∨ Path.root_of s = "/" ∨ Path.root_of s = "//".
Proof.
  unfold Path.root_of. destruct (Py.startswith "/" s); [|by left].
  destruct (_ && _); auto.
Qed.

Lemma root_of_empty (s : string) :
  String.eqb (Path.root_of s) "" = negb (Py.startswith "/" s).
Proof.
  unfold Path.root_of. destruct (Py.startswith "/" s); [|done]. by destruct (_ && _).
Qed.

Lemma normal_parse (s : string) : normal_path (Path.parse s).
Proof.
  split; [apply root_of_cases|]. cbn [Path.parse Path.parts].
  induction (split_clean s) as [|x xs Hx _ IH]; [constructor|]. cbn [List.filter].
  destruct (Path.is_part x) eqn:E; [by constructor|done].
Qed.

Lemma normal_join (p : Path.t) (name : string) :
  normal_path p → normal_path (Path.join p name).
Proof.
  intros [Hr Hp]. unfold Path.join. cbv zeta.
  destruct (normal_parse name) as [Hr' Hp'].
  destruct (Path.root (Path.parse name)) eqn:E.
  - split; [done|]. cbn [Path.parts]. by apply Forall_app.
  - split; [by rewrite E|done].
Qed.

Lemma parts_sep_join (ps : list string) :
  ps ≠ [] →
  Forall (λ x, Path.is_part x = true ∧ Py.has_char "/" x = false) ps →
  List.filter Path.is_part (Path.split (Path.sep_join ps)) = ps.
Proof.
  induction ps as [|x ps IH]; [done|]. intros _ Hall.
  apply Forall_cons in Hall as [[Hx Hs] Hps]. destruct ps as [|y ps].
  - cbn [Path.sep_join]. rewrite split_no_slash by done. cbn [List.filter]. by rewrite Hx.
  - change (Path.sep_join (x :: y :: ps))
      with (x +:+ String "/" (Path.sep_join (y :: ps))).
    rewrite split_slash_app by done. cbn [List.filter]. by rewrite Hx, IH.
Qed.

(** Reading the text of a path gives its components back. *)
Lemma parts_str (p : Path.t) :
  normal_path p → Path.parts (Path.parse (Path.str p)) = Path.parts p.
Proof.
  destruct p as [r ps]. intros [Hr Hps]. cbn [Path.root Path.parts] in *.
  unfold Path.str. cbn [Path.root Path.parts Path.parse].
  destruct ps as [|x ps].
  - by destruct Hr as [->|[->| ->]].
  - destruct Hr as [->|[->| ->]].
    + by apply parts_sep_join.
    + change ("/" +:+ Path.sep_join (x :: ps)) with (String "/" (Path.sep_join (x :: ps))).
      rewrite split_cons. cbn [List.filter]. by apply parts_sep_join.
    + change ("//" +:+ Path.sep_join (x :: ps))
        with (String "/" (String "/" (Path.sep_join (x :: ps)))).
      rewrite !split_cons. cbn [List.filter]. by apply parts_sep_join.
Qed.

Lemma no_slash_head (x : string) :
  Py.has_char "/" x = false → Py.startswith "/" x = false.
Proof.
  destruct x as [|a x]; [done|]. cbn [Py.has_char Py.startswith].
  intros [Ha _]%orb_false_iff. by rewrite Ascii.eqb_sym, Ha.
Qed.

Lemma part_first (x : string) (ps : list string) :
  Path.is_part x = true → Py.has_char "/" x = false →
  ∃ a r, Path.sep_join (x :: ps) = String a r ∧ Ascii.eqb a "/" = false.
Proof.
  intros Hx Hs. destruct x as [|a x]; [done|]. cbn [Py.has_char] in Hs.
  apply orb_false_iff in Hs as [Ha _].
  destruct ps; cbn [Path.sep_join]; rewrite ?app_cons; by eexists _, _.
Qed.

(** Reading the text of a path gives the path back. *)
Lemma parse_str (p : Path.t) : normal_path p → Path.parse (Path.str p) = p.
Proof.
  intros Hp. pose proof (parts_str p Hp) as Hparts.
  destruct p as [r ps]. cbn [Path.parts] in Hparts.
  unfold Path.parse in *. cbn [Path.parts] in Hparts. rewrite Hparts. f_equal.
  destruct Hp as [Hr Hps]. cbn [Path.root Path.parts] in *.
  unfold Path.str. cbn [Path.root Path.parts].
  destruct ps as [|x ps].
  - by destruct Hr as [->|[->| ->]].
  - apply Forall_cons in Hps as [[Hx Hs] _].
    destruct (part_first x ps Hx Hs) as (a & t & -> & Ha). rewrite Ascii.eqb_sym in Ha.
    destruct Hr as [->|[->| ->]]; rewrite ?app_cons, ?app_nil_left;
      unfold Path.root_of; cbn [Py.startswith]; by rewrite Ha.
Qed.

(** A name of one component is put after the components of the
    directory. *)
Lemma parse_path_join_name (dir filename : string) :
  Path.is_part filename = true → Py.has_char "/" filename = false →
  Path.parse (path_join dir filename)
  = Path.Make (Path.root (Path.parse dir)) (Path.parts (Path.parse dir) ++ [filename]).
Proof.
  intros Hpart Hslash. unfold path_join.
  rewrite parse_str by apply normal_join, normal_parse.
  unfold Path.join. cbv zeta. cbn [Path.parse Path.root Path.parts].
  unfold Path.root_of at 1. rewrite (no_slash_head _ Hslash).
  rewrite (split_no_slash _ Hslash). cbn [List.filter]. by rewrite Hpart.
Qed.

(** The components of a joined path: those of the directory, unless
    the name is absolute, and those of the name. *)
Lemma path_join_parts (dir filename : string) :
  Path.parts (Path.parse (path_join dir filename))
  = (if Py.startswith "/" filename then [] else Path.parts (Path.parse dir))
      ++ List.filter Path.is_part (Path.split filename).
Proof.
  unfold path_join. rewrite parts_str by apply normal_join, normal_parse.
  unfold Path.join. cbv zeta. cbn [Path.parse Path.root Path.parts].
  pose proof (root_of_empty filename) as Hroot.
  destruct (Path.root_of filename); destruct (Py.startswith "/" filename); done.
Qed.

Lemma split_head_no_slash_app (u e : string) :
  Py.has_char "/" u = false → Py.split_head "/" (u +:+ e) = u +:+ Py.split_head "/" e.
Proof.
  induction u as [|a u IH]; [done|]. cbn [Py.has_char].
  intros [Ha Hu]%orb_false_iff. rewrite !app_cons. cbn [Py.split_head].
  by rewrite Ha, (IH Hu).
Qed.

(** The components of a name made of a prefix, a stem without a slash
    and an extension: the stem lies in one component, with the end of the
    prefix and the extension up to its first slash. *)
Lemma split_name (s : string) :
  ∃ init x, ∀ u e rest,
    Py.has_char "/" u = false → Path.split e = Py.split_head "/" e :: rest →
    Path.split (s +:+ u +:+ e) = init ++ (x +:+ u +:+ Py.split_head "/" e) :: rest.
Proof.
  destruct (split_snoc s) as (init & x & _ & Hs). exists init, x.
  intros u e rest Hu He.
  destruct (split_no_slash_app u e Hu) as (rest' & He' & Hue).
  rewrite He in He'. injection He' as <-.
  rewrite <- (split_head_no_slash_app u e Hu) in Hue |- *.
  by apply Hs.
Qed.

Lemma is_part_stem (x r : string) : Path.is_part (x +:+ String "_" r) = true.
Proof.
  unfold Path.is_part. destruct x as [|a [|b x]]; [reflexivity|..];
    lazy -[Ascii.eqb]; by destruct (Ascii.eqb a ".").
Qed.

Lemma digits_no_slash (d : string) :
  Py.all_chars Py.is_digit d = true → Py.has_char "/" d = false.
Proof.
  intros H. destruct (Py.has_char "/" d) eqn:E; [|done].
  by pose proof (all_chars_has_char _ _ _ H E).
Qed.

Lemma sanitize_no_slash (name : string) : Py.has_char "/" (_sanitize_filename name) = false.
Proof.
  destruct (Py.has_char "/" (_sanitize_filename name)) eqn:E; [|done].
  by pose proof (all_chars_has_char _ _ _ (sanitize_legal name) E).
Qed.

(** The text between the id and the extension in the name of an image
    file. *)
Lemma image_name_stem (country_id sanitized number ext : string) :
  country_id +:+ "_" +:+ sanitized +:+ "_" +:+ number +:+ "." +:+ ext
  = country_id +:+ String "_" (sanitized +:+ String "_" (number +:+ ".")) +:+ ext.
Proof.
  change (country_id +:+ String "_" (sanitized +:+ String "_" (number +:+ String "." ext))
          = country_id +:+ String "_" ((sanitized +:+ String "_" (number +:+ ".")) +:+ ext)).
  do 2 f_equal. rewrite app_assoc_str. f_equal.
  change (String "_" (number +:+ String "." ext) = String "_" ((number +:+ ".") +:+ ext)).
  f_equal. by rewrite app_assoc_str.
Qed.

Lemma stem_no_slash (name : string) (n : nat) :
  Py.has_char "/" (String "_" (_sanitize_filename name +:+ String "_" (format_03d n +:+ ".")))
  = false.
Proof.
  cbn [Py.has_char]. rewrite has_char_app. cbn [Py.has_char]. rewrite has_char_app.
  by rewrite sanitize_no_slash, (digits_no_slash _ (all_digits_format n)).
Qed.

(** The components of the path of an image. *)
Lemma image_path_parts (output_dir country_id country_name : string) :
  ∃ init x, ∀ i ext rest,
    Path.split ext = Py.split_head "/" ext :: rest →
    Path.parts (Path.parse (image_path output_dir country_id country_name i ext))
    = init
        ++ (x +:+ String "_" (_sanitize_filename country_name
                                +:+ String "_" (format_03d (i + 1) +:+ "."))
              +:+ Py.split_head "/" ext)
        :: List.filter Path.is_part rest.
Proof.
  destruct (split_name country_id) as (init & x & Hsplit).
  exists ((if Py.startswith "/" (country_id +:+ "_") then []
           else Path.parts (Path.parse output_dir)) ++ List.filter Path.is_part init), x.
  intros i ext rest Hext. unfold image_path.
  rewrite path_join_parts, image_name_stem.
  rewrite (Hsplit _ ext rest (stem_no_slash country_name (i + 1)) Hext).
  rewrite List.filter_app. cbn [List.filter].
  match goal with
  | |- context [Path.is_part ?t] =>
      assert (Path.is_part t = true) as -> by exact (is_part_stem x _)
  end.
  rewrite <- app_assoc. f_equal. by destruct country_id.
Qed.


(** Two paths of images of one entity agree only for one index, and
    then their extensions agree up to the first slash. *)
Lemma image_path_inj (output_dir country_id country_name : string) (i j : nat)
    (ext1 ext2 : string) :
  image_path output_dir country_id country_name i ext1
  = image_path output_dir country_id country_name j ext2 →
  i = j ∧ Py.split_head "/" ext1 = Py.split_head "/" ext2.
Proof.
  intros H%(f_equal (λ p, Path.parts (Path.parse p))).
  destruct (image_path_parts output_dir country_id country_name) as (init & x & Hparts).
  destruct (split_first ext1) as [rest1 H1]. destruct (split_first ext2) as [rest2 H2].
  rewrite (Hparts i ext1 rest1 H1), (Hparts j ext2 rest2 H2) in H.
  apply app_inv_head in H. injection H as H _.
  apply app_cancel_left in H. rewrite !app_cons in H. injection H as H.
  rewrite !app_assoc_str in H. apply app_cancel_left in H.
  rewrite !app_cons in H. injection H as H.
  rewrite !app_assoc_str in H.
  change ("." +:+ Py.split_head "/" ext1) with (String "." (Py.split_head "/" ext1)) in H.
  change ("." +:+ Py.split_head "/" ext2) with (String "." (Py.split_head "/" ext2)) in H.
  apply digits_dot_inj in H as [H ->]; [|apply all_digits_format..].
  apply format_03d_inj in H. split; [lia|done].
Qed.

(** Extensions without a slash: different extensions give different
    files. *)
Lemma image_path_ext_inj (output_dir country_id country_name : string) (i j : nat)
    (ext1 ext2 : string) :
  Py.has_char "/" ext1 = false → Py.has_char "/" ext2 = false →
  image_path output_dir country_id country_name i ext1
  = image_path output_dir country_id country_name j ext2 →
  i = j ∧ ext1 = ext2.
Proof.
  intros H1 H2 [Hi He]%image_path_inj.
  by rewrite !split_head_no_slash in He.
Qed.

End Paths.

(** ** The downloader *)

Section DownloadFacts.

Variable get : web.
Variables output_dir country_id country_name : string.

Local Abbreviation path := (image_path output_dir country_id country_name).
Local Abbreviation fresh := (fresh_from output_dir country_id country_name).

Lemma os_remove_present (p : string) (fs : gset string) :
  p ∉ fs → os_remove p ({[ p ]} ∪ fs) = Some fs.
Proof.
  intros Hp. unfold os_remove. rewrite decide_True by set_solver.
  f_equal. set_solver.
Qed.

Lemma remove_if_exists_present (p : string) (fs : gset string) :
  p ∉ fs → remove_if_exists p ({[ p ]} ∪ fs) = fs.
Proof.
  intros Hp. unfold remove_if_exists. rewrite decide_True by set_solver. set_solver.
Qed.

Lemma check_size_spec (img : pil_image) (p : string) (fs : gset string) :
  p ∉ fs →
  check_size img p ({[ p ]} ∪ fs)
  = if too_small img then (fs, None) else ({[ p ]} ∪ fs, Some p).
Proof.
  intros Hp. unfold check_size. destruct (too_small img); [|done].
  by rewrite os_remove_present.
Qed.

Local Ltac round_done :=
  simpl; rewrite ?(right_id_L ∅ (∪)), ?(left_id_L ∅ (∪)); done.

(** One round of the loop, for a URL whose body stream does not break. *)
Lemma download_one_spec (fs : gset string) (i : nat) (url : string) :
  fresh i fs →
  (∀ r, get url = Some r →
     body_complete r = true ∧ ∀ img, opened r = Some img → plain_format img) →
  download_one get output_dir country_id country_name fs i url
  = (list_to_set (option_list (path i <$> verdict get url)) ∪ fs,
     path i <$> verdict get url).
Proof.
  intros Hfresh Hgood. unfold download_one, verdict, passes.
  assert (∀ ext, path i ext ∉ fs) as Hnew by (intros ext; by apply Hfresh).
  destruct (get url) as [r|]; [|round_done].
  destruct (Hgood r eq_refl) as [Hbody Hfmt].
  destruct (raise_for_status r); [round_done|].
  destruct (is_image_content r); [|round_done].
  destruct (open_ok r); [|round_done].
  rewrite Hbody. cbn [negb andb].
  destruct (opened r) as [img|] eqn:Himg.
  - destruct (Hfmt img eq_refl) as [Hjpg Hslash]. unfold final_extension. cbv zeta.
    destruct (String.eqb (true_format img) "jpeg") eqn:Hjpeg.
    + rewrite check_size_spec by done. cbn [orb andb].
      destruct (too_small img); simpl; rewrite ?Hjpeg; round_done.
    + cbn [orb]. rewrite lower_idempotent_format.
      destruct (save_ok r).
      * assert (path i "jpg" ≠ path i (true_format img)) as Hne.
        { intros H. apply image_path_ext_inj in H as [_ H]; [by apply Hjpg|done..]. }
        assert (os_remove (path i "jpg")
                  ({[path i (true_format img)]} ∪ ({[path i "jpg"]} ∪ fs))
                = Some ({[path i (true_format img)]} ∪ fs)) as ->.
        { unfold os_remove. rewrite decide_True by set_solver.
          f_equal. specialize (Hnew "jpg"). set_solver. }
        rewrite check_size_spec by done. cbn [andb].
        destruct (too_small img); simpl; rewrite ?Hjpeg; round_done.
      * cbn [negb andb]. rewrite remove_if_exists_present by done. round_done.
  - rewrite remove_if_exists_present by done. round_done.
Qed.

Lemma fresh_after_round (fs : gset string) (i : nat) (o : option string) :
  fresh i fs →
  fresh (S i) (list_to_set (option_list (path i <$> o)) ∪ fs).
Proof.
  intros Hfresh j ext Hj. destruct o as [e|]; simpl.
  - intros [[H|H]%elem_of_union|H]%elem_of_union.
    + apply elem_of_singleton, image_path_inj in H as [? _]. lia.
    + by apply elem_of_empty in H.
    + revert H. apply Hfresh. lia.
  - intros [H|H]%elem_of_union; [by apply elem_of_empty in H|].
    revert H. apply Hfresh. lia.
Qed.

Lemma download_loop_spec (urls : list string) (fs : gset string) (i : nat)
    (downloaded : list string) :
  fresh i fs → well_behaved get urls →
  download_loop get output_dir country_id country_name fs i urls downloaded
  = (list_to_set (kept_paths get output_dir country_id country_name i urls) ∪ fs,
     downloaded ++ kept_paths get output_dir country_id country_name i urls).
Proof.
  revert fs i downloaded.
  induction urls as [|url urls IH]; intros fs i downloaded Hfresh Hgood.
  - simpl. by rewrite (left_id_L ∅ (∪)), app_nil_r.
  - cbn [download_loop kept_paths].
    rewrite download_one_spec; [|done|].
    2:{ intros r Hr. apply (Hgood url r); [apply list_elem_of_here|done]. }
    rewrite IH; [|by apply fresh_after_round|].
    2:{ intros u r Hu. apply Hgood. by apply list_elem_of_further. }
    rewrite list_to_set_app_L. f_equal; [set_solver|].
    destruct (verdict get url); simpl; by rewrite <- ?app_assoc.
Qed.

Lemma elem_of_kept_paths (urls : list string) (i : nat) (p : string) :
  p ∈ kept_paths get output_dir country_id country_name i urls
  ↔ ∃ k url ext, urls !! k = Some url ∧ verdict get url = Some ext ∧ p = path (i + k) ext.
Proof.
  revert i. induction urls as [|url urls IH]; intros i; cbn [kept_paths].
  - split; [by intros ?%elem_of_nil|]. by intros (k & u & e & ? & _).
  - rewrite elem_of_app, IH. split.
    + intros [H|(k & u & e & Hk & Hv & ->)].
      * destruct (verdict get url) as [e|] eqn:Hv; simpl in H; [|by apply elem_of_nil in H].
        apply list_elem_of_singleton in H as ->.
        exists 0, url, e. by rewrite Nat.add_0_r.
      * exists (S k), u, e. split_and!; [done..|]. f_equal. lia.
    + intros ([|k] & u & e & Hk & Hv & ->).
      * left. simpl in Hk. injection Hk as ->. rewrite Hv, Nat.add_0_r. simpl.
        apply list_elem_of_here.
      * right. exists k, u, e. split_and!; [done..|]. f_equal. lia.
Qed.

Lemma kept_paths_NoDup (urls : list string) (i : nat) :
  NoDup (kept_paths get output_dir country_id country_name i urls).
Proof.
  revert i. induction urls as [|url urls IH]; intros i; cbn [kept_paths].
  - constructor.
  - destruct (verdict get url) as [e|]; simpl; [|apply IH].
    constructor; [|apply IH].
    intros (k & u & e' & _ & _ & [? _]%image_path_inj)%elem_of_kept_paths. lia.
Qed.

Lemma kept_paths_length (urls : list string) (i : nat) :
  length (kept_paths get output_dir country_id country_name i urls)
  = length (omap (verdict get) urls).
Proof.
  revert i. induction urls as [|url urls IH]; intros i; simpl; [done|].
  destruct (verdict get url); simpl; by rewrite IH.
Qed.

End DownloadFacts.


(** The mishap that C1, amended, leaves aside: when the connection
    breaks while the body is streamed into the file, the handler of the
    loop only logs, and the partial file stays in the directory without
    being returned (the handler of the verification block, next to it,
    does remove the file). *)
Example download_broken_stream_leaves_file :
  let get : web := λ _, Some (Response 200 (Some "image/jpeg") true false None true) in
  elements (_download_images get "images/12_Wakanda" "12" "Wakanda" ∅
              ["https://example.org/a.jpg"]).1
  = ["images/12_Wakanda/12_Wakanda_001.jpg"] ∧
  (_download_images get "images/12_Wakanda" "12" "Wakanda" ∅
     ["https://example.org/a.jpg"]).2 = [].
Proof. split; reflexivity. Qed.



(** ** The orchestrator and the loop over the countries *)

(** Once the directory of the country exists, the call returns: with 0
    when the page cannot be loaded, when the archive cannot be written
    or when a downloaded file cannot be removed, with the number of
    downloaded images otherwise. *)
Lemma download_images_for_country_returns (w : world) (opts : options)
    (base_output_dir : string) (fs : gset string) (name id : string) :
  mkdir_ok w (country_dir base_output_dir (Country id name)) = true →
  ∃ fs' n,
    download_images_for_country w opts base_output_dir fs name id = (fs', Returned n) ∧
    (load_ok (browser w (_create_search_url name)) = false → n = 0 ∧ fs' = fs) ∧
    (load_ok (browser w (_create_search_url name)) = true → no_zip opts = false →
     zip_ok w (path_join base_output_dir ((id +:+ "_" +:+ name) +:+ "_images.zip")) = false →
     n = 0).
Proof.
  intros Hmkdir. unfold download_images_for_country, country_dir in *. simpl in Hmkdir.
  rewrite Hmkdir. cbn [negb]. cbv zeta.
  destruct (load_ok (browser w (_create_search_url name))) eqn:Hload; cbn [negb].
  2:{ exists fs, 0. split_and!; [done|done|intros; done]. }
  destruct (_download_images _ _ _ _ _ _) as [fs1 downloaded].
  destruct (no_zip opts) eqn:Hzip.
  { exists fs1, (length downloaded). split_and!; [done|done|done]. }
  unfold _create_zip_file.
  destruct (zip_ok w _) eqn:Hok.
  2:{ exists fs1, 0. split_and!; [done|done|done]. }
  destruct (zip_only opts).
  - destruct (remove_each downloaded _) as [fs2 [|]].
    + exists fs2, (length downloaded). split_and!; [done|done|]. intros _ _ H. congruence.
    + exists fs2, 0. split_and!; [done|done|done].
  - eexists _, (length downloaded). split_and!; [done|done|]. intros _ _ H. congruence.
Qed.

(** C9.  The call for a country is meant to return a count whatever
    happens, and it does so for every failure inside its [try] block;
    but the directory of the country is created before that block, and
    without its parents.  For the country with the id [1/2] the
    directory [images/1/2_Wakanda] cannot be created, the exception
    escapes from the call, the loop of [main] has no handler for it, and
    the run ends with status 1 before the second country is reached. *)
Lemma orchestrator_propagates_mkdir_failure :
  let w := World (λ _, Page true ∅ ∅ ∅ ∅) (λ _, None)
                 (λ dir, String.eqb dir "images/07_Atlantis") (λ _, true) in
  let opts := Options 10 false false in
  ¬ never_raises w opts "images" ∧
  download_images_for_country w opts "images" ∅ "Wakanda" "1/2" = (∅, Raised) ∧
  process_countries w opts "images" ∅ 0 [Country "1/2" "Wakanda"; Country "07" "Atlantis"]
    = (∅, Raised) ∧
  main_exit_code w opts "images" ∅ [Country "1/2" "Wakanda"; Country "07" "Atlantis"] = 1%Z.
Proof.
  intros w opts.
  assert (download_images_for_country w opts "images" ∅ "Wakanda" "1/2" = (∅, Raised))
    as Hraise by reflexivity.
  split_and!; [|done|..].
  - intros H. destruct (H ∅ "Wakanda" "1/2") as (fs' & n & Hn). congruence.
  - cbn [process_countries country_name country_id]. by rewrite Hraise.
  - unfold main_exit_code. cbn [process_countries country_name country_id].
    by rewrite Hraise.
Qed.

Lemma process_countries_returns (w : world) (opts : options) (base_output_dir : string)
    (cs : list country) (fs : gset string) (total : nat) :
  (∀ c, c ∈ cs → mkdir_ok w (country_dir base_output_dir c) = true) →
  ∃ ns fs',
    entity_counts w opts base_output_dir fs cs ns fs' ∧
    length ns = length cs ∧
    process_countries w opts base_output_dir fs total cs
      = (fs', Returned (total + sum_list ns)) ∧
    main_exit_code w opts base_output_dir fs cs = 0%Z.
Proof.
  intros Hdirs.
  cut (∃ ns fs',
         entity_counts w opts base_output_dir fs cs ns fs' ∧ length ns = length cs ∧
         ∀ t, process_countries w opts base_output_dir fs t cs
              = (fs', Returned (t + sum_list ns))).
  { intros (ns & fs' & Hc & Hl & Hrun). exists ns, fs'. split_and!; [done..|].
    unfold main_exit_code. by rewrite Hrun. }
  clear total. revert fs. induction cs as [|c cs IH]; intros fs.
  - exists [], fs. split_and!; [constructor|done|]. intros t. simpl. by rewrite Nat.add_0_r.
  - destruct c as [id name].
    destruct (download_images_for_country_returns w opts base_output_dir fs name id)
      as (fs1 & n & Hcall & _).
    { apply Hdirs, list_elem_of_here. }
    destruct (IH (λ c Hc, Hdirs c (list_elem_of_further _ _ _ Hc)) fs1)
      as (ns & fs2 & Hcounts & Hlen & Hrun).
    exists (n :: ns), fs2. split_and!.
    + by econstructor.
    + simpl. by rewrite Hlen.
    + intros t. cbn [process_countries country_name country_id sum_list].
      rewrite Hcall, Hrun. unfold Datatypes.id. by rewrite Nat.add_assoc.
Qed.

Example run_counts_downloads :
  let w :=
    World (λ _, Page true {[ "https://example.org/a.png" ]} ∅ ∅ ∅)
          (λ url, Some (Response 200 (Some "image/png") true true
                          (Some (PilImage (Some "PNG") 640 480)) true))
          (λ _, true) (λ _, true) in
  (process_countries w (Options 10 true false) "images" ∅ 0
     [Country "12" "Wakanda"; Country "07" "Atlantis"]).2 = Returned 2.
Proof. reflexivity. Qed.


(** * Further properties *)

(** ** Sanitation as a normal form *)

Section SanitationMore.

Local Arguments Py.is_space : simpl never.
Local Arguments Re.is_illegal : simpl never.
Local Arguments Ascii.eqb : simpl never.

Implicit Types (s c : string) (cs : list string).

Lemma sub_spaces_chars_single_spaced cs :
  single_spaced_chars cs = true → Re.sub_spaces_chars cs = cs.
Proof.
  induction cs as [|c cs IH]; [done|]. intros H.
  pose proof (IH (single_spaced_tail _ _ H)) as IHs.
  rewrite single_spaced_cons in H. apply andb_true_iff in H as [H _].
  rewrite sub_spaces_chars_cons.
  destruct (Py.is_space c); [|by rewrite IHs].
  apply andb_true_iff in H as [->%String.eqb_eq H].
  destruct cs as [|d cs]; [done|].
  apply negb_true_iff in H. rewrite H. by rewrite IHs.
Qed.

Lemma sub_spaces_single_spaced s : single_spaced s = true → Re.sub_spaces s = s.
Proof.
  unfold Re.sub_spaces, single_spaced. intros H.
  by rewrite sub_spaces_chars_single_spaced, join_chars.
Qed.

Lemma substituted_clean s :
  Py.all_chars (λ a, negb (Re.is_illegal a)) s = true → single_spaced s = true →
  substituted s = s.
Proof.
  intros Hlegal Hsp. unfold substituted.
  by rewrite sub_illegal_legal, sub_spaces_single_spaced.
Qed.

Lemma stripped_not_blank s : Py.strip s = s → s ≠ "" → blank s = false.
Proof.
  intros Hs Hne. destruct (blank s) eqn:E; [|done].
  apply strip_blank in E. congruence.
Qed.

Lemma sanitize_stripped (name : string) :
  Py.strip (_sanitize_filename name) = _sanitize_filename name.
Proof.
  destruct (sanitize_cases name) as [[_ ->]|[(_ & _ & ->)|(_ & _ & ->)]].
  - by rewrite strip_dots, lstrip_idempotent.
  - done.
  - apply strip_idempotent.
Qed.

(** A text that stripping leaves alone neither begins nor ends with
    a white-space character. *)
Lemma stripped_ends s :
  Py.strip s = s →
  (∀ c cs, Utf8.chars s = c :: cs → Py.is_space c = false) ∧
  (∀ c cs, Utf8.chars s = cs ++ [c] → Py.is_space c = false).
Proof.
  intros H%(f_equal Utf8.chars). rewrite chars_strip in H.
  apply strip_chars_fixed in H as [Hl Hr]. split.
  - intros c cs E. rewrite E in Hl. by apply lstrip_chars_fixed in Hl.
  - intros c cs E. rewrite E in Hr. by apply rstrip_chars_fixed in Hr.
Qed.

End SanitationMore.

(** X1. A name that needs no cleaning is returned as it is: no illegal
    character, single blanks only, no white space at either end, not
    empty and at most 50 characters long. *)
Theorem sanitize_clean_name (name : string) :
  Py.all_chars (λ a, negb (Re.is_illegal a)) name = true →
  single_spaced name = true →
  Py.strip name = name →
  name ≠ "" →
  Py.len name ≤ 50 →
  _sanitize_filename name = name.
Proof.
  intros Hlegal Hsp Hstrip Hne Hlen.
  pose proof (substituted_clean name Hlegal Hsp) as Hsub.
  destruct (sanitize_cases name) as [[Hlong _]|[(_ & Hblank & _)|(_ & _ & ->)]].
  - rewrite Hsub in Hlong. lia.
  - rewrite Hsub, stripped_not_blank in Hblank by done. done.
  - by rewrite Hsub.
Qed.

Lemma sanitize_clean_name_witness : _sanitize_filename "Costa Rica" = "Costa Rica".
Proof.
  apply sanitize_clean_name; [reflexivity|reflexivity|reflexivity|done|].
  vm_compute. lia.
Defined.

(** X2. Sanitation is idempotent, and its result neither begins nor
    ends with a white-space character: stripping it changes nothing. *)
Theorem sanitize_idempotent (name : string) :
  _sanitize_filename (_sanitize_filename name) = _sanitize_filename name ∧
  Py.strip (_sanitize_filename name) = _sanitize_filename name ∧
  (∀ c cs, Utf8.chars (_sanitize_filename name) = c :: cs → Py.is_space c = false) ∧
  (∀ c cs, Utf8.chars (_sanitize_filename name) = cs ++ [c] → Py.is_space c = false).
Proof.
  split; [|split; [apply sanitize_stripped|apply stripped_ends, sanitize_stripped]].
  pose proof (sanitize_legal name) as Hlegal.
  pose proof (sanitize_single_spaced name) as Hsp.
  pose proof (sanitize_stripped name) as Hstrip.
  pose proof (sanitize_nonempty name) as Hne.
  pose proof (sanitize_length name) as Hlen.
  revert Hlegal Hsp Hstrip Hne Hlen. generalize (_sanitize_filename name). intros out.
  intros Hlegal Hsp Hstrip Hne Hlen.
  pose proof (substituted_clean out Hlegal Hsp) as Hsub.
  destruct (sanitize_cases out) as [[Hlong _]|[(_ & Hblank & _)|(_ & _ & ->)]].
  - rewrite Hsub in Hlong. lia.
  - rewrite Hsub, stripped_not_blank in Hblank by done. done.
  - by rewrite Hsub.
Qed.

(** ** The filter as a test on single URLs *)

(** X3. Filtering a union is the union of the filtered sets, and the
    filter is monotone: what the filter does to a URL does not depend on
    the other URLs of the set. *)
Theorem filter_union (s t : gset string) :
  _filter_image_urls (s ∪ t) = _filter_image_urls s ∪ _filter_image_urls t ∧
  (s ⊆ t → _filter_image_urls s ⊆ _filter_image_urls t).
Proof.
  split.
  - apply set_eq. intros url.
    rewrite elem_of_union, !elem_of_filter_image_urls, elem_of_union. naive_solver.
  - intros Hst url. rewrite !elem_of_filter_image_urls. naive_solver.
Qed.

Lemma filter_union_witness :
  _filter_image_urls {[ "https://a.example/x.jpg" ]}
  ⊆ _filter_image_urls {[ "https://a.example/x.jpg"; "https://b.example/y.png" ]}.
Proof.
  apply (filter_union {[ "https://a.example/x.jpg" ]}
           {[ "https://a.example/x.jpg"; "https://b.example/y.png" ]}).
  set_solver.
Defined.

(** X4. Every URL that leaves the filter names none of the five icon
    and map hosts, and either ends (in any letter case) in one of the
    five image extensions or carries one of the markers [=w], [=h]. *)
Theorem filter_output_shape (s : gset string) (url : string) :
  url ∈ _filter_image_urls s →
  (∀ host, host ∈ icon_hosts → Py.contains host url = false) ∧
  ((∃ ext, ext ∈ filter_extensions ∧ Py.endswith ext (Py.lower url) = true) ∨
   Py.contains "=w" url = true ∨ Py.contains "=h" url = true).
Proof.
  intros [_ Hk]%elem_of_filter_image_urls. unfold keeps in Hk.
  destruct (match declared_size url with Some _ => _ | None => _ end); [done|].
  destruct (existsb (λ x, Py.contains x url) icon_hosts) eqn:Hhosts; [done|].
  split.
  - intros host Hin. destruct (Py.contains host url) eqn:E; [|done].
    assert (existsb (λ x, Py.contains x url) icon_hosts = true); [|congruence].
    apply existsb_exists. exists host. split; [by apply list_elem_of_In|done].
  - destruct (existsb (λ ext, Py.endswith ext (Py.lower url)) filter_extensions) eqn:Hext.
    + left. apply existsb_exists in Hext as (ext & Hin & He).
      exists ext. split; [by apply list_elem_of_In|done].
    + right. destruct (Py.contains "=w" url); [by left|].
      destruct (Py.contains "=h" url); [by right|done].
Qed.

Lemma filter_output_shape_witness :
  Py.contains "maps.gstatic.com" "https://a.example/x.JPG" = false.
Proof.
  apply (filter_output_shape {[ "https://a.example/x.JPG" ]} "https://a.example/x.JPG").
  - apply elem_of_filter_image_urls. split; [set_solver|reflexivity].
  - apply list_elem_of_In. simpl. tauto.
Defined.

(** ** The normaliser and the tests made before and after it *)

Section NormaliserMore.

Local Arguments Ascii.eqb : simpl never.

Implicit Types (s t p : string) (a c : ascii).

Lemma startswith_app_left p s t :
  Py.startswith p s = true → Py.startswith p (s +:+ t) = true.
Proof.
  intros [r ->]%startswith_inv. rewrite app_assoc_str. apply startswith_app.
Qed.

Lemma contains_app_left p s t : Py.contains p s = true → Py.contains p (s +:+ t) = true.
Proof.
  induction s as [|a s IH].
  - destruct p; [by destruct t|done].
  - rewrite app_cons, !contains_cons. intros [H|H]%orb_true_iff.
    + apply (startswith_app_left _ _ t) in H. rewrite app_cons in H. by rewrite H.
    + rewrite (IH H). apply orb_true_r.
Qed.

(** A text without the character [c] that starts before an occurrence
    of [c] ends before it. *)
Lemma startswith_before p s c t :
  Py.has_char c p = false →
  Py.startswith p (s +:+ String c t) = true → Py.startswith p s = true.
Proof.
  revert s. induction p as [|b p IH]; intros s Hp H; [done|].
  simpl in Hp. apply orb_false_iff in Hp as [Hb Hp].
  destruct s as [|a s].
  - rewrite app_nil_left in H. simpl in H. by rewrite Hb in H.
  - rewrite app_cons in H. simpl in *.
    apply andb_true_iff in H as [-> H]. by apply IH.
Qed.

Lemma contains_split p s c t :
  Py.has_char c p = false →
  Py.contains p (s +:+ String c t) = true →
  Py.contains p s = true ∨ Py.contains p t = true.
Proof.
  intros Hp. induction s as [|a s IH].
  - rewrite app_nil_left, contains_cons. intros [H|H]%orb_true_iff; [|by right].
    left. apply (startswith_before p "" c t Hp) in H. by destruct p.
  - rewrite app_cons, !contains_cons. intros [H|H]%orb_true_iff.
    + left. rewrite <- app_cons in H. apply startswith_before in H; [|done]. by rewrite H.
    + destruct (IH H) as [H'|H']; [left|by right]. rewrite H'. apply orb_true_r.
Qed.

Lemma no_height_marker s :
  Py.has_char "=" s = false → Py.contains "=h" (s +:+ "=w2048-h2048") = false.
Proof.
  induction s as [|a s IH]; [done|]. simpl. intros [Ha Hs]%orb_false_iff.
  rewrite (IH Hs), orb_false_r, Ascii.eqb_sym. by rewrite Ha.
Qed.

End NormaliserMore.

(** X5. A URL that the normaliser has rewritten is never dropped by the
    size test of the filter and always counts as an image endpoint: the
    filter keeps it unless it names one of the icon and map hosts. *)
Theorem rewritten_url_passes_filter (url : string) :
  is_google_photo_url url = true →
  declared_size (_get_high_res_image_url url) = None ∧
  keeps (_get_high_res_image_url url)
  = negb (existsb (λ host, Py.contains host (_get_high_res_image_url url)) icon_hosts).
Proof.
  intros Hurl. unfold _get_high_res_image_url. rewrite Hurl. cbv zeta.
  pose proof (split_head_clean "=" url) as Hclean.
  set (base := Py.split_head "=" url) in *.
  assert (declared_size (base +:+ "=w2048-h2048") = None) as Hsize.
  { unfold declared_size. by rewrite no_height_marker, andb_false_r. }
  split; [done|]. unfold keeps. rewrite Hsize.
  destruct (existsb _ icon_hosts); [done|].
  rewrite (contains_app_right "=w" base "=w2048-h2048") by done.
  by rewrite andb_false_r.
Qed.

Lemma rewritten_url_passes_filter_witness :
  keeps (_get_high_res_image_url "https://lh3.googleusercontent.com/abc=w50-h50") = true.
Proof.
  refine (eq_trans
            (proj2 (rewritten_url_passes_filter
                      "https://lh3.googleusercontent.com/abc=w50-h50" _)) _);
    reflexivity.
Defined.

Lemma host_stays_out (host url : string) :
  Py.has_char "=" host = false → Py.contains host "w2048-h2048" = false →
  Py.contains host url = false →
  Py.contains host (_get_high_res_image_url url) = false.
Proof.
  intros Hc Ht Hout. unfold _get_high_res_image_url.
  destruct (is_google_photo_url url); [|done]. cbv zeta.
  destruct (Py.contains host (Py.split_head "=" url +:+ "=w2048-h2048")) eqn:E; [|done].
  apply (contains_split host _ "=" "w2048-h2048" Hc) in E as [E|E]; [|congruence].
  apply (contains_app_left _ _ (Py.split_rest "=" url)) in E.
  rewrite <- split_head_rest in E. congruence.
Qed.

Lemma denied_host_plain (host : string) :
  host ∈ search_denylist ++ content_denylist ++ icon_hosts →
  Py.has_char "=" host = false ∧ Py.contains host "w2048-h2048" = false.
Proof.
  intros Hhost. unfold search_denylist, content_denylist, icon_hosts in Hhost.
  simpl in Hhost.
  repeat (apply elem_of_cons in Hhost as [->|Hhost]; [by split|]).
  by apply elem_of_nil in Hhost.
Qed.

(** X6. Normalisation never brings in a denied host: a URL that names
    none of the hosts of the three deny lists still names none of them
    after normalisation, so the skip rules of the extraction strategies
    also hold for the URLs they collect. *)
Theorem normalizer_keeps_hosts_out (host url : string) :
  host ∈ search_denylist ++ content_denylist ++ icon_hosts →
  Py.contains host url = false →
  Py.contains host (_get_high_res_image_url url) = false.
Proof.
  intros Hhost Hout. destruct (denied_host_plain host Hhost) as [Hc Ht].
  unfold _get_high_res_image_url.
  destruct (is_google_photo_url url); [|done]. cbv zeta.
  destruct (Py.contains host (Py.split_head "=" url +:+ "=w2048-h2048")) eqn:E; [|done].
  apply (contains_split host _ "=" "w2048-h2048" Hc) in E as [E|E]; [|congruence].
  apply (contains_app_left _ _ (Py.split_rest "=" url)) in E.
  rewrite <- split_head_rest in E. congruence.
Qed.

Lemma normalizer_keeps_hosts_out_witness :
  Py.contains "gstatic.com"
    (_get_high_res_image_url "https://lh3.googleusercontent.com/abc=w50-h50") = false.
Proof.
  apply normalizer_keeps_hosts_out; [|reflexivity].
  apply elem_of_cons. right. apply list_elem_of_here.
Defined.

(** ** What the JSON walk adds *)

Section JsonWalkMore.

Local Abbreviation walk := _extract_images_from_json_object.

(** A loop whose rounds add to the set independently of what it holds
    does so as a whole, and what it adds comes from one of its rounds. *)
Lemma foldl_adds {B : Type} (f : gset string → B → gset string) (l : list B)
    (acc : gset string) :
  (∀ x a, x ∈ l → f a x = a ∪ f ∅ x) → foldl f acc l = acc ∪ foldl f ∅ l.
Proof.
  revert acc. induction l as [|x l IH]; intros acc Hf; simpl.
  - by rewrite (right_id_L ∅ (∪)).
  - assert (∀ y a, y ∈ l → f a y = a ∪ f ∅ y) as Hl.
    { intros y a Hy. apply Hf. by apply list_elem_of_further. }
    rewrite (IH (f acc x) Hl), (IH (f ∅ x) Hl), (Hf x acc (list_elem_of_here _ _)).
    by rewrite (assoc_L (∪)).
Qed.

Lemma foldl_adds_inv {B : Type} (f : gset string → B → gset string) (l : list B)
    (u : string) :
  (∀ x a, x ∈ l → f a x = a ∪ f ∅ x) →
  u ∈ foldl f ∅ l → ∃ x, x ∈ l ∧ u ∈ f ∅ x.
Proof.
  induction l as [|x l IH]; intros Hf; simpl; [by intros ?%elem_of_empty|].
  assert (∀ y a, y ∈ l → f a y = a ∪ f ∅ y) as Hl.
  { intros y a Hy. apply Hf. by apply list_elem_of_further. }
  rewrite (foldl_adds f l (f ∅ x) Hl). intros [H|H]%elem_of_union.
  - exists x. split; [apply list_elem_of_here|done].
  - destruct (IH Hl H) as (y & Hy & Hu). exists y. split; [by apply list_elem_of_further|done].
Qed.

Lemma add_image_adds (s : string) (a : gset string) : add_image s a = a ∪ add_image s ∅.
Proof. unfold add_image. set_solver. Qed.

Lemma on_item_adds (item : json) (a : gset string) :
  (∀ a', walk item a' = a' ∪ walk item ∅) →
  on_item walk a item = a ∪ on_item walk ∅ item.
Proof.
  intros Hw. destruct item as [ | b | n | s | l | d ]; unfold on_item;
    try by rewrite (right_id_L ∅ (∪)).
  - destruct (is_json_image_url s); [apply add_image_adds|by rewrite (right_id_L ∅ (∪))].
  - apply Hw.
Qed.

Lemma on_child_adds (value : json) (a : gset string) :
  (∀ a', walk value a' = a' ∪ walk value ∅) →
  on_child walk a value = a ∪ on_child walk ∅ value.
Proof.
  intros Hw. destruct value as [ | b | n | s | l | d ]; unfold on_child;
    [by rewrite (right_id_L ∅ (∪)).. | apply Hw | apply Hw].
Qed.

Lemma on_value_adds (value : json) (a : gset string) :
  (∀ a', walk value a' = a' ∪ walk value ∅) →
  (∀ items item, value = JList items → item ∈ items →
     ∀ a', walk item a' = a' ∪ walk item ∅) →
  on_value walk a value = a ∪ on_value walk ∅ value.
Proof.
  intros Hw Hitems. destruct value as [ | b | n | s | l | d ]; unfold on_value;
    try by rewrite (right_id_L ∅ (∪)).
  - destruct (is_json_image_url s); [apply add_image_adds|by rewrite (right_id_L ∅ (∪))].
  - apply foldl_adds. intros item a' Hin. apply on_item_adds. by eapply Hitems.
  - apply Hw.
Qed.

Lemma key_round_adds (d : list (string * json)) (key : string) (a : gset string) :
  (∀ k v, (k, v) ∈ d →
     (∀ a', walk v a' = a' ∪ walk v ∅) ∧
     ∀ items item, v = JList items → item ∈ items → ∀ a', walk item a' = a' ∪ walk item ∅) →
  dict_case key a (on_value walk a) d = a ∪ dict_case key ∅ (on_value walk ∅) d.
Proof.
  intros Hd. rewrite !dict_case_get.
  destruct (dict_get key d) as [v|] eqn:Hget; [|by rewrite (right_id_L ∅ (∪))].
  apply dict_get_elem_of in Hget. destruct (Hd _ _ Hget) as [Hv Hitems].
  by apply on_value_adds.
Qed.

(** The walk and its parts, away from the set collected so far. *)
Lemma walk_adds_strong (j : json) :
  (∀ acc, walk j acc = acc ∪ walk j ∅) ∧
  ∀ items item, j = JList items → item ∈ items → ∀ acc, walk item acc = acc ∪ walk item ∅.
Proof.
  induction j as [ | b | n | s | l IH | d IH ] using json_nested_ind;
    try (split; [intros acc; simpl; by rewrite (right_id_L ∅ (∪))|done]).
  - rewrite Forall_forall in IH.
    assert (∀ item, item ∈ l → ∀ acc, walk item acc = acc ∪ walk item ∅) as Hl.
    { intros item Hin. by apply (IH item Hin). }
    split.
    + intros acc. rewrite !walk_list. apply foldl_adds. intros x a Hx. by apply Hl.
    + intros items item [= <-]. apply Hl.
  - rewrite Forall_forall in IH. split; [|done]. intros acc. rewrite !walk_dict.
    assert (∀ k v, (k, v) ∈ d →
              (∀ a', walk v a' = a' ∪ walk v ∅) ∧
              ∀ items item, v = JList items → item ∈ items →
                ∀ a', walk item a' = a' ∪ walk item ∅) as Hd.
    { intros k v Hkv. apply (IH _ Hkv). }
    rewrite (foldl_adds _ d (foldl _ acc recognized_keys)).
    2:{ intros [k v] a Hkv. apply on_child_adds. by apply (Hd k v). }
    rewrite (foldl_adds _ recognized_keys acc).
    2:{ intros key a _. by apply key_round_adds. }
    rewrite (foldl_adds _ d (foldl _ ∅ recognized_keys)).
    2:{ intros [k v] a Hkv. apply on_child_adds. by apply (Hd k v). }
    by rewrite (assoc_L (∪)).
Qed.

Lemma walk_adds (j : json) (acc : gset string) : walk j acc = acc ∪ walk j ∅.
Proof. apply walk_adds_strong. Qed.

Lemma on_item_sound (item : json) (u : string) :
  u ∈ on_item walk ∅ item →
  (∃ s, item = JStr s ∧ is_json_image_url s = true ∧ u = _get_high_res_image_url s) ∨
  (∃ d, item = JDict d ∧ u ∈ walk item ∅).
Proof.
  destruct item as [ | b | n | s | l | d ]; unfold on_item;
    try by intros ?%elem_of_empty.
  - destruct (is_json_image_url s) eqn:Hs; [|by intros ?%elem_of_empty].
    unfold add_image. intros H. left. exists s. split_and!; [done..|]. set_solver.
  - intros H. right. by exists d.
Qed.

End JsonWalkMore.

(** X7. The walk does not depend on what was collected before: its
    result is the set it was given together with what the same document
    yields from the empty set.  In particular it never removes a URL. *)
Theorem walk_accumulates (j : json) (image_urls : gset string) :
  _extract_images_from_json_object j image_urls
  = image_urls ∪ _extract_images_from_json_object j ∅.
Proof. apply walk_adds. Qed.

(** X8. The walk invents nothing: every URL it adds is the normalised
    form of a string of the document that starts with [http] and holds
    one of the four extensions. *)
Theorem walk_sound (j : json) (u : string) :
  u ∈ _extract_images_from_json_object j ∅ →
  ∃ s, reaches j (JStr s) ∧ is_json_image_url s = true ∧ u = _get_high_res_image_url s.
Proof.
  revert u.
  cut ((∀ u, u ∈ _extract_images_from_json_object j ∅ →
          ∃ s, reaches j (JStr s) ∧ is_json_image_url s = true ∧
               u = _get_high_res_image_url s) ∧
       ∀ items item, j = JList items → item ∈ items →
         ∀ u, u ∈ _extract_images_from_json_object item ∅ →
           ∃ s, reaches item (JStr s) ∧ is_json_image_url s = true ∧
                u = _get_high_res_image_url s); [by intros [? _]|].
  induction j as [ | b | n | s | l IH | d IH ] using json_nested_ind;
    try (split; [by intros u ?%elem_of_empty|done]).
  - rewrite Forall_forall in IH. split.
    + intros u. rewrite walk_list.
      intros (item & Hin & Hu)%foldl_adds_inv; [|intros; apply walk_adds].
      destruct (proj1 (IH item Hin) u Hu) as (s & Hs & Himg & ->).
      exists s. split_and!; [|done..]. by eapply reaches_list.
    + intros items item [= <-] Hin. apply (IH item Hin).
  - rewrite Forall_forall in IH. split; [|done]. intros u. rewrite walk_dict.
    rewrite foldl_adds by (intros [k v] a _; apply on_child_adds; intros; apply walk_adds).
    intros [Hu|Hu]%elem_of_union.
    + apply foldl_adds_inv in Hu as (key & _ & Hu).
      2:{ intros key a _. apply key_round_adds. intros k v _. split; intros; apply walk_adds. }
      rewrite dict_case_get in Hu.
      destruct (dict_get key d) as [v|] eqn:Hget; [|by apply elem_of_empty in Hu].
      apply dict_get_elem_of in Hget. destruct (IH _ Hget) as [Hv Hitems]. simpl in Hv, Hitems.
      destruct v as [ | b | n | s | items | d' ]; unfold on_value in Hu;
        try by apply elem_of_empty in Hu.
      * destruct (is_json_image_url s) eqn:Hs; [|by apply elem_of_empty in Hu].
        exists s. split_and!; [|done|].
        -- eapply reaches_dict; [done|apply reaches_here].
        -- unfold add_image in Hu. set_solver.
      * apply foldl_adds_inv in Hu as (item & Hin & Hu).
        2:{ intros item a _. apply on_item_adds. intros. apply walk_adds. }
        apply on_item_sound in Hu as [(s & -> & Hs & ->)|(d' & -> & Hu)].
        -- exists s. split_and!; [|done..].
           eapply reaches_dict; [done|]. eapply reaches_list; [done|apply reaches_here].
        -- destruct (Hitems _ _ eq_refl Hin u Hu) as (s & Hs & Himg & ->).
           exists s. split_and!; [|done..].
           eapply reaches_dict; [done|]. by eapply reaches_list.
      * destruct (Hv u Hu) as (s & Hs & Himg & ->).
        exists s. split_and!; [|done..]. by eapply reaches_dict.
    + apply foldl_adds_inv in Hu as ([k v] & Hin & Hu).
      2:{ intros [k v] a _. apply on_child_adds. intros. apply walk_adds. }
      destruct (IH _ Hin) as [Hv _]. simpl in Hv, Hu.
      assert (u ∈ _extract_images_from_json_object v ∅) as Hu'.
      { destruct v as [ | b | n | s | l | d' ]; unfold on_child in Hu;
          [by apply elem_of_empty in Hu..|done|done]. }
      destruct (Hv u Hu') as (s & Hs & Himg & ->).
      exists s. split_and!; [|done..]. by eapply reaches_dict.
Qed.

Lemma walk_sound_witness :
  ∃ s,
    reaches (JDict [("image", JStr "https://example.org/photo.jpg")]) (JStr s) ∧
    is_json_image_url s = true ∧
    "https://example.org/photo.jpg" = _get_high_res_image_url s.
Proof.
  apply walk_sound. apply elem_of_elements. vm_compute. apply list_elem_of_here.
Defined.

(** ** The extraction strategies *)

Section Extraction.

Local Arguments Py.is_space : simpl never.
Local Arguments Py.is_digit : simpl never.
Local Arguments Ascii.eqb : simpl never.
Local Arguments Utf8.is_ascii : simpl never.

Lemma existsb_false_elem (P : string → bool) (l : list string) (x : string) :
  existsb P l = false → x ∈ l → P x = false.
Proof.
  intros H Hx. destruct (P x) eqn:E; [|done].
  assert (existsb P l = true); [|congruence].
  apply existsb_exists. exists x. split; [by apply list_elem_of_In|done].
Qed.

Lemma existsb_false_intro (P : string → bool) (l : list string) :
  (∀ x, x ∈ l → P x = false) → existsb P l = false.
Proof.
  intros H. destruct (existsb P l) eqn:E; [|done].
  apply existsb_exists in E as (x & Hx%list_elem_of_In & HP). rewrite H in HP; done.
Qed.

Lemma truthy_text (value : option string) :
  truthy value = true → value = Some (text_of value) ∧ text_of value ≠ "".
Proof. by destruct value as [[|a s]|]. Qed.

(** *** Reading integers *)

Lemma digit_not_space (a : ascii) :
  Py.is_digit a = true → Py.is_space (String a "") = false ∧ Utf8.is_ascii a = true.
Proof. by destruct a as [[] [] [] [] [] [] [] []]. Qed.

Lemma no_space_strip (cs : list string) :
  forallb (λ c, negb (Py.is_space c)) cs = true →
  Py.rstrip_chars (Py.lstrip_chars cs) = cs.
Proof.
  intros H.
  assert (Py.lstrip_chars cs = cs) as ->.
  { destruct cs as [|c cs]; [done|]. cbn [forallb Py.lstrip_chars] in *.
    apply andb_true_iff in H as [Hc _]. apply negb_true_iff in Hc. by rewrite Hc. }
  induction cs as [|c cs IH]; [done|]. cbn [forallb] in H.
  apply andb_true_iff in H as [Hc Hs]. apply negb_true_iff in Hc.
  rewrite rstrip_chars_cons, (IH Hs). destruct cs; [by rewrite Hc|done].
Qed.

Lemma chars_digits (s : string) :
  Py.all_chars Py.is_digit s = true →
  forallb (λ c, negb (Py.is_space c)) (Utf8.chars s) = true.
Proof.
  induction s as [|a s IH]; [done|]. cbn [Py.all_chars].
  intros [Ha Hs]%andb_true_iff. destruct (digit_not_space a Ha) as [Hsp Hascii].
  rewrite chars_cons, Hascii. cbn [negb andb forallb]. by rewrite Hsp, IH.
Qed.

Lemma digit_not_sign (a : ascii) :
  Py.is_digit a = true → a ≠ "-"%char ∧ a ≠ "+"%char.
Proof. by destruct a as [[] [] [] [] [] [] [] []]. Qed.

Lemma strip_digits (s : string) : Py.all_chars Py.is_digit s = true → Py.strip s = s.
Proof.
  intros H. unfold Py.strip. by rewrite no_space_strip, join_chars by by apply chars_digits.
Qed.

Lemma int_digits_plain (s : string) (prev : bool) (acc : Z) :
  Py.all_chars Py.is_digit s = true → s ≠ "" →
  int_digits prev acc s = Some (decimal_value acc s).
Proof.
  revert prev acc. induction s as [|a s IH]; intros prev acc H Hne; [done|].
  simpl in H. apply andb_true_iff in H as [Ha Hs]. simpl. rewrite Ha.
  destruct s as [|b s]; [done|]. by apply IH.
Qed.

Lemma py_int_digits (s : string) :
  Py.all_chars Py.is_digit s = true → s ≠ "" → py_int s = Some (decimal_value 0 s).
Proof.
  intros H Hne. unfold py_int. rewrite (strip_digits _ H).
  destruct s as [|a s]; [done|].
  assert (Py.is_digit a = true) as Ha.
  { simpl in H. by apply andb_true_iff in H as [? _]. }
  destruct (digit_not_sign a Ha) as [Hm Hp].
  assert (match String a s with
          | String "-" digits => Z.opp <$> int_digits false 0 digits
          | String "+" digits => int_digits false 0 digits
          | literal => int_digits false 0 literal
          end = int_digits false 0 (String a s)) as ->.
  { destruct a as [[] [] [] [] [] [] [] []]; done. }
  by apply int_digits_plain.
Qed.

(** *** Rounds that only add *)

Lemma page_content_round_adds (img : element) (a : gset string) :
  page_content_round a img = a ∪ page_content_round ∅ img.
Proof.
  unfold page_content_round.
  repeat match goal with
         | |- context [match ?x with _ => _ end] => destruct x
         end; set_solver.
Qed.

Lemma add_source_adds (src : option string) (a : gset string) :
  add_source src a = a ∪ add_source src ∅.
Proof. unfold add_source. destruct (acceptable_source src); set_solver. Qed.

Lemma collect_large_adds (large : list element) (a : gset string) :
  collect_large a large = a ∪ collect_large ∅ large.
Proof.
  revert a. induction large as [|e large IH]; intros a; simpl.
  - by rewrite (right_id_L ∅ (∪)).
  - destruct (e "src") as [src|]; [|by rewrite (right_id_L ∅ (∪))].
    rewrite (IH (add_source src a)), (IH (add_source src ∅)), (add_source_adds src a).
    by rewrite (assoc_L (∪)).
Qed.

Lemma click_round_adds (t : thumbnail) (a : gset string) :
  click_round a t = a ∪ click_round ∅ t.
Proof.
  unfold click_round. destruct (click_ok t); [|by rewrite (right_id_L ∅ (∪))].
  destruct (large_images t); [apply collect_large_adds|by rewrite (right_id_L ∅ (∪))].
Qed.

Lemma direct_round_adds (t : thumbnail) (a : gset string) :
  direct_round a t = a ∪ direct_round ∅ t.
Proof.
  unfold direct_round. destruct (thumb t "src"); [apply add_source_adds|].
  by rewrite (right_id_L ∅ (∪)).
Qed.

Lemma add_source_sound (src : option string) (u : string) :
  u ∈ add_source src ∅ →
  acceptable_source src = true ∧ u = _get_high_res_image_url (text_of src).
Proof.
  unfold add_source. destruct (acceptable_source src); [|by intros ?%elem_of_empty].
  intros H. split; [done|]. set_solver.
Qed.

Lemma collect_large_sound (large : list element) (u : string) :
  u ∈ collect_large ∅ large →
  ∃ src, acceptable_source src = true ∧ u = _get_high_res_image_url (text_of src).
Proof.
  induction large as [|e large IH]; simpl; [by intros ?%elem_of_empty|].
  destruct (e "src") as [src|]; [|by intros ?%elem_of_empty].
  rewrite collect_large_adds. intros [H|H]%elem_of_union; [|by apply IH].
  exists src. by apply add_source_sound.
Qed.

Lemma acceptable_source_clean (src : option string) (host : string) :
  acceptable_source src = true → host ∈ search_denylist →
  Py.contains host (_get_high_res_image_url (text_of src)) = false.
Proof.
  unfold acceptable_source. intros [_ Hd%negb_true_iff]%andb_true_iff Hhost.
  destruct (denied_host_plain host) as [Hc Ht].
  { apply elem_of_app. by left. }
  apply host_stays_out; [done..|].
  by apply (existsb_false_elem _ _ _ Hd).
Qed.

End Extraction.

(** X9. Reading the declared size of an image element: when both
    attributes are plain decimal numbers, the element counts as small
    exactly when one of the two numbers is below 100; when the width
    cannot be read as an integer, the element never counts as small,
    whatever its height. *)
Theorem declared_small_spec (width height : string) :
  (Py.all_chars Py.is_digit width = true → width ≠ "" →
   Py.all_chars Py.is_digit height = true → height ≠ "" →
   declared_small width height
   = (decimal_value 0 width <? 100)%Z || (decimal_value 0 height <? 100)%Z) ∧
  (py_int width = None → declared_small width height = false).
Proof.
  split.
  - intros Hw Hwne Hh Hhne. unfold declared_small.
    rewrite (py_int_digits _ Hw Hwne), (py_int_digits _ Hh Hhne).
    by destruct (decimal_value 0 width <? 100)%Z.
  - intros Hw. unfold declared_small. by rewrite Hw.
Qed.

Lemma declared_small_spec_witness :
  declared_small "640" "48" = true ∧ declared_small "100%" "48" = false.
Proof.
  split.
  - refine (eq_trans (proj1 (declared_small_spec "640" "48") _ _ _ _) _);
      [reflexivity|done|reflexivity|done|reflexivity].
  - apply (declared_small_spec "100%" "48"). reflexivity.
Defined.

(** X10. The page content strategy treats every element on its own: an
    element with a readable, non-empty source that names no denied host
    and is not declared small contributes its normalised source,
    whatever the other elements of the page do, stale ones included. *)
Theorem page_content_collects (l : list element) (img : element)
    (src : string) (width height : option string) :
  img ∈ l →
  img "src" = Returned (Some src) → src ≠ "" →
  (∀ host, host ∈ content_denylist → Py.contains host src = false) →
  img "width" = Returned width → img "height" = Returned height →
  truthy width && truthy height && declared_small (text_of width) (text_of height) = false →
  _get_high_res_image_url src ∈ _extract_images_from_page_content (Returned l).
Proof.
  intros Hin Hsrc Hne Hhosts Hw Hh Hsize. unfold _extract_images_from_page_content.
  apply (foldl_finds _ _ _ img); [done| |].
  - intros a y _. rewrite page_content_round_adds. set_solver.
  - intros a. unfold page_content_round. rewrite Hsrc, Hw, Hh.
    destruct src as [|c src]; [done|].
    change (text_of (Some (String c src))) with (String c src). cbn [truthy negb].
    rewrite (existsb_false_intro _ _ Hhosts), Hsize. set_solver.
Qed.

Lemma page_content_collects_witness :
  _get_high_res_image_url "https://example.org/a.jpg"
    ∈ _extract_images_from_page_content
        (Returned
           [ (λ _, Raised);
             (λ name, if String.eqb name "src"
                      then Returned (Some "https://example.org/a.jpg")
                      else Returned None) ]).
Proof.
  apply (page_content_collects _
           (λ name, if String.eqb name "src"
                    then Returned (Some "https://example.org/a.jpg")
                    else Returned None)
           "https://example.org/a.jpg" None None).
  - apply list_elem_of_further, list_elem_of_here.
  - reflexivity.
  - done.
  - intros host Hhost. unfold content_denylist in Hhost.
    repeat (apply elem_of_cons in Hhost as [->|Hhost]; [reflexivity|]).
    by apply elem_of_nil in Hhost.
  - reflexivity.
  - reflexivity.
  - reflexivity.
Defined.

(** X11. The page content strategy collects nothing else: every URL of
    its result is the normalised source of an element of the page whose
    attributes could be read, whose source names no denied host and
    which is not declared small; and the URL itself, like the source,
    names no denied host. *)
Theorem page_content_sound (images : outcome (list element)) (u : string) :
  u ∈ _extract_images_from_page_content images →
  ∃ l img src width height,
    images = Returned l ∧ img ∈ l ∧
    img "src" = Returned (Some src) ∧ src ≠ "" ∧ u = _get_high_res_image_url src ∧
    img "width" = Returned width ∧ img "height" = Returned height ∧
    truthy width && truthy height
      && declared_small (text_of width) (text_of height) = false ∧
    (∀ host, host ∈ content_denylist → Py.contains host src = false) ∧
    (∀ host, host ∈ content_denylist → Py.contains host u = false).
Proof.
  destruct images as [l|]; [|by intros ?%elem_of_empty].
  unfold _extract_images_from_page_content.
  intros (img & Hin & Hu)%foldl_adds_inv; [|intros; apply page_content_round_adds].
  unfold page_content_round in Hu.
  destruct (img "src") as [src|] eqn:Hsrc; [|by apply elem_of_empty in Hu].
  destruct (truthy src) eqn:Htruthy; [|by apply elem_of_empty in Hu].
  cbn [negb] in Hu.
  destruct (existsb _ content_denylist) eqn:Hhosts; [by apply elem_of_empty in Hu|].
  destruct (img "width") as [width|] eqn:Hw; [|by apply elem_of_empty in Hu].
  destruct (img "height") as [height|] eqn:Hh; [|by apply elem_of_empty in Hu].
  destruct (truthy width && truthy height && declared_small _ _) eqn:Hsize;
    [by apply elem_of_empty in Hu|].
  destruct (truthy_text _ Htruthy) as [Hs Hne].
  assert (u = _get_high_res_image_url (text_of src)) as -> by set_solver.
  exists l, img, (text_of src), width, height.
  split_and!; [done|done|by rewrite <- Hs|done..| |].
  { intros host Hhost. by apply (existsb_false_elem _ _ _ Hhosts). }
  intros host Hhost.
  destruct (denied_host_plain host) as [Hc Ht].
  { apply elem_of_app. right. apply elem_of_app. by left. }
  apply host_stays_out; [done..|]. by apply (existsb_false_elem _ _ _ Hhosts).
Qed.

Lemma page_content_sound_witness :
  ∃ l img src width height,
    Returned [ (λ name : string, Returned (Some "https://example.org/a.jpg")) ]
      = Returned l ∧ img ∈ l ∧
    img "src" = Returned (Some src) ∧ src ≠ "" ∧
    "https://example.org/a.jpg" = _get_high_res_image_url src ∧
    img "width" = Returned width ∧ img "height" = Returned height ∧
    truthy width && truthy height
      && declared_small (text_of width) (text_of height) = false ∧
    (∀ host, host ∈ content_denylist → Py.contains host src = false) ∧
    (∀ host, host ∈ content_denylist →
       Py.contains host "https://example.org/a.jpg" = false).
Proof.
  apply page_content_sound. apply elem_of_elements. vm_compute. apply list_elem_of_here.
Defined.

(** X12. The search result strategy collects the own source of every
    thumbnail that passes the test on sources, whether or not the click
    on it, or on any other thumbnail, succeeded, and also for thumbnails
    beyond the ten that are clicked. *)
Theorem search_results_collect_thumbnails (l : list thumbnail) (t : thumbnail)
    (src : option string) :
  t ∈ l → thumb t "src" = Returned src → acceptable_source src = true →
  _get_high_res_image_url (text_of src)
    ∈ _extract_images_from_search_results (Returned l).
Proof.
  intros Hin Hsrc Hok. unfold _extract_images_from_search_results.
  apply (foldl_finds _ _ _ t); [done| |].
  - intros a y _. rewrite direct_round_adds. set_solver.
  - intros a. unfold direct_round, add_source. rewrite Hsrc, Hok. set_solver.
Qed.

Lemma search_results_collect_thumbnails_witness :
  _get_high_res_image_url "https://example.org/a.jpg"
    ∈ _extract_images_from_search_results
        (Returned [ Thumbnail (λ _, Returned (Some "https://example.org/a.jpg"))
                      false Raised ]).
Proof.
  apply (search_results_collect_thumbnails _
           (Thumbnail (λ _, Returned (Some "https://example.org/a.jpg")) false Raised)
           (Some "https://example.org/a.jpg")).
  - apply list_elem_of_here.
  - reflexivity.
  - reflexivity.
Defined.

(** X13. Every URL that the search result strategy returns is the
    normalised form of a source that passed the test on sources (it is
    not empty, holds [http] and names none of the three denied hosts),
    and the URL itself names none of these hosts. *)
Theorem search_results_sound (image_elements : outcome (list thumbnail)) (u : string) :
  u ∈ _extract_images_from_search_results image_elements →
  ∃ src,
    acceptable_source src = true ∧ u = _get_high_res_image_url (text_of src) ∧
    ∀ host, host ∈ search_denylist → Py.contains host u = false.
Proof.
  destruct image_elements as [l|]; [|by intros ?%elem_of_empty].
  unfold _extract_images_from_search_results.
  rewrite (foldl_adds direct_round) by (intros; apply direct_round_adds).
  assert (∀ src, acceptable_source src = true →
            u = _get_high_res_image_url (text_of src) →
            ∃ src, acceptable_source src = true ∧
                   u = _get_high_res_image_url (text_of src) ∧
                   ∀ host, host ∈ search_denylist → Py.contains host u = false) as Hdone.
  { intros src Hok ->. exists src. split_and!; [done..|].
    intros host Hhost. by apply acceptable_source_clean. }
  intros [Hu|Hu]%elem_of_union.
  - apply foldl_adds_inv in Hu as (t & _ & Hu); [|intros; apply click_round_adds].
    unfold click_round in Hu.
    destruct (click_ok t); [|by apply elem_of_empty in Hu].
    destruct (large_images t) as [large|]; [|by apply elem_of_empty in Hu].
    apply collect_large_sound in Hu as (src & Hok & Hsrc). by eapply Hdone.
  - apply foldl_adds_inv in Hu as (t & _ & Hu); [|intros; apply direct_round_adds].
    unfold direct_round in Hu.
    destruct (thumb t "src") as [src|]; [|by apply elem_of_empty in Hu].
    apply add_source_sound in Hu as [Hok Hsrc]. by eapply Hdone.
Qed.

Lemma search_results_sound_witness :
  ∃ src,
    acceptable_source src = true ∧
    "https://example.org/big.jpg" = _get_high_res_image_url (text_of src) ∧
    ∀ host, host ∈ search_denylist →
      Py.contains host "https://example.org/big.jpg" = false.
Proof.
  apply (search_results_sound
           (Returned [ Thumbnail (λ _, Raised) true
                         (Returned [ (λ _, Returned (Some "https://example.org/big.jpg")) ]) ])).
  apply elem_of_elements. vm_compute. apply list_elem_of_here.
Defined.

(** X14. The linked data strategy returns exactly what the walk finds
    in the script blocks whose text can be read, is not empty and parses
    as JSON; the other blocks are passed over and change nothing. *)
Theorem jsonld_collects_parsed_blocks (json_loads : string → option json)
    (l : list element) (u : string) :
  u ∈ _extract_images_from_jsonld json_loads (Returned l)
  ↔ ∃ script json_text json_data,
      script ∈ l ∧ script "innerHTML" = Returned (Some json_text) ∧ json_text ≠ "" ∧
      json_loads json_text = Some json_data ∧
      u ∈ _extract_images_from_json_object json_data ∅.
Proof.
  assert (∀ script a, jsonld_round json_loads a script
                      = a ∪ jsonld_round json_loads ∅ script) as Hadds.
  { intros script a. unfold jsonld_round.
    destruct (script "innerHTML") as [t|]; [|by rewrite (right_id_L ∅ (∪))].
    destruct (truthy t); cbn [negb]; [|by rewrite (right_id_L ∅ (∪))].
    destruct (json_loads (text_of t)); [apply walk_adds|by rewrite (right_id_L ∅ (∪))]. }
  unfold _extract_images_from_jsonld. split.
  - intros (script & Hin & Hu)%foldl_adds_inv; [|intros; apply Hadds].
    unfold jsonld_round in Hu.
    destruct (script "innerHTML") as [t|] eqn:Ht; [|by apply elem_of_empty in Hu].
    destruct (truthy t) eqn:Htruthy; cbn [negb] in Hu; [|by apply elem_of_empty in Hu].
    destruct (json_loads (text_of t)) as [doc|] eqn:Hdoc; [|by apply elem_of_empty in Hu].
    destruct (truthy_text _ Htruthy) as [Hs Hne].
    exists script, (text_of t), doc. split_and!; [done|by rewrite <- Hs|done..].
  - intros (script & text & doc & Hin & Ht & Hne & Hdoc & Hu).
    apply (foldl_finds _ _ _ script); [done| |].
    + intros a y _. rewrite Hadds. set_solver.
    + intros a. unfold jsonld_round. rewrite Ht.
      destruct text as [|c text]; [done|].
      change (text_of (Some (String c text))) with (String c text). cbn [truthy negb].
      rewrite Hdoc, walk_adds. set_solver.
Qed.

(** ** The downloader in any directory and on any network *)

Section DownloadMore.

Variable get : web.
Variables output_dir country_id country_name : string.

Local Abbreviation path := (image_path output_dir country_id country_name).
Local Abbreviation round := (download_one get output_dir country_id country_name).
Local Abbreviation loop := (download_loop get output_dir country_id country_name).

Local Abbreviation other_index := (not_of_round output_dir country_id country_name).

Lemma check_size_frame (img : pil_image) (i : nat) (ext : string) (fs : gset string)
    (p : string) :
  other_index i p → (p ∈ (check_size img (path i ext) fs).1 ↔ p ∈ fs).
Proof.
  intros Hp. specialize (Hp ext). unfold check_size, os_remove, remove_if_exists.
  destruct (too_small img); [|done].
  destruct (decide (path i ext ∈ fs)); simpl; set_solver.
Qed.

Lemma download_one_frame (fs : gset string) (i : nat) (url p : string) :
  other_index i p → (p ∈ (round fs i url).1 ↔ p ∈ fs).
Proof.
  intros Hp. unfold download_one.
  pose proof (Hp "jpg") as Hjpg.
  destruct (get url) as [r|]; [|done].
  destruct (raise_for_status r); [done|].
  destruct (is_image_content r); cbn [negb]; [|done].
  destruct (open_ok r); cbn [negb]; [|done].
  destruct (body_complete r); cbn [negb fst]; [|set_solver].
  destruct (opened r) as [img|].
  - cbv zeta. destruct (String.eqb (true_format img) "jpeg").
    + rewrite check_size_frame by done. set_solver.
    + pose proof (Hp (Py.lower (true_format img))) as Hnew.
      destruct (save_ok r); cbn [negb].
      * unfold os_remove.
        destruct (decide (path i "jpg" ∈ _)); [|unfold remove_if_exists; simpl].
        -- rewrite check_size_frame by done. set_solver.
        -- destruct (decide (path i "jpg" ∈ _)); simpl; set_solver.
      * unfold remove_if_exists. destruct (decide (path i "jpg" ∈ _)); simpl; set_solver.
  - unfold remove_if_exists. destruct (decide (path i "jpg" ∈ _)); simpl; set_solver.
Qed.

(** What a round returns is a file of its own index, under the
    extension [jpg] or the format name of the image. *)
Lemma download_one_returns (fs : gset string) (i : nat) (url p : string) :
  (round fs i url).2 = Some p →
  ∃ ext, p = path i ext ∧
         (ext = "jpg" ∨
          ∃ r img, get url = Some r ∧ opened r = Some img ∧ ext = true_format img).
Proof.
  unfold download_one.
  destruct (get url) as [r|]; [|done].
  destruct (raise_for_status r); [done|].
  destruct (is_image_content r); cbn [negb]; [|done].
  destruct (open_ok r); cbn [negb]; [|done].
  destruct (body_complete r); cbn [negb]; [|done].
  destruct (opened r) as [img|] eqn:Himg; [|done]. cbv zeta.
  assert (∀ e X q, (check_size img (path i e) X).2 = Some q → q = path i e) as Hcs.
  { intros e X q. unfold check_size. destruct (too_small img).
    - by destruct (os_remove _ _).
    - by intros [= <-]. }
  destruct (String.eqb (true_format img) "jpeg").
  { intros ->%Hcs. exists "jpg". split; [done|by left]. }
  destruct (save_ok r); cbn [negb]; [|done].
  destruct (os_remove _ _); [|done].
  intros ->%Hcs. exists (true_format img). rewrite lower_idempotent_format.
  split; [done|]. right. by exists r, img.
Qed.

(** What a round returns is on disk after the round, for a plain format
    name. *)
Lemma download_one_returned_present (fs : gset string) (i : nat) (url p : string) :
  (∀ r img, get url = Some r → opened r = Some img → plain_format img) →
  (round fs i url).2 = Some p → p ∈ (round fs i url).1.
Proof.
  intros Hfmt. unfold download_one.
  destruct (get url) as [r|]; [|done].
  destruct (raise_for_status r); [done|].
  destruct (is_image_content r); cbn [negb]; [|done].
  destruct (open_ok r); cbn [negb]; [|done].
  destruct (body_complete r); cbn [negb]; [|done].
  destruct (opened r) as [img|] eqn:Himg; [|done]. cbv zeta.
  destruct (Hfmt r img eq_refl Himg) as [Hjpg Hslash].
  assert (∀ q X, q ∈ X → (check_size img q X).2 = Some p → p ∈ (check_size img q X).1)
    as Hcs.
  { intros q X Hq. unfold check_size. destruct (too_small img).
    - by destruct (os_remove _ _).
    - by intros [= <-]. }
  destruct (String.eqb (true_format img) "jpeg"); [apply Hcs; set_solver|].
  destruct (save_ok r); cbn [negb]; [|done].
  rewrite lower_idempotent_format. unfold os_remove.
  destruct (decide (path i "jpg" ∈ _)); [|done].
  apply Hcs. apply elem_of_difference. split; [set_solver|].
  intros H%elem_of_singleton. apply image_path_ext_inj in H as [_ H]; done.
Qed.

Lemma download_loop_length (urls : list string) (fs : gset string) (i : nat)
    (acc : list string) :
  length (loop fs i urls acc).2 ≤ length acc + length urls.
Proof.
  revert fs i acc. induction urls as [|url urls IH]; intros fs i acc; simpl; [lia|].
  destruct (round fs i url) as [fs' [p|]].
  - etrans; [apply IH|]. rewrite length_app. simpl. lia.
  - etrans; [apply IH|]. lia.
Qed.

Lemma download_loop_returns (urls : list string) (fs : gset string) (i : nat)
    (acc : list string) (p : string) :
  p ∈ (loop fs i urls acc).2 →
  p ∈ acc ∨
  ∃ k url ext,
    urls !! k = Some url ∧ p = path (i + k) ext ∧
    (ext = "jpg" ∨
     ∃ r img, get url = Some r ∧ opened r = Some img ∧ ext = true_format img).
Proof.
  revert fs i acc. induction urls as [|url urls IH]; intros fs i acc; simpl; [by left|].
  pose proof (download_one_returns fs i url) as Hret.
  destruct (round fs i url) as [fs' [q|]]; simpl in Hret.
  - intros [Hp|(k & u & e & Hk & -> & He)]%IH.
    + apply elem_of_app in Hp as [Hp|Hp]; [by left|]. right.
      apply list_elem_of_singleton in Hp as ->. destruct (Hret q eq_refl) as (e & -> & He).
      exists 0, url, e. by rewrite Nat.add_0_r.
    + right. exists (S k), u, e. split_and!; [done| |done]. f_equal. lia.
  - intros [Hp|(k & u & e & Hk & -> & He)]%IH; [by left|].
    right. exists (S k), u, e. split_and!; [done| |done]. f_equal. lia.
Qed.


Lemma download_loop_present (urls : list string) (fs : gset string) (i : nat)
    (acc : list string) :
  (∀ url r img, url ∈ urls → get url = Some r → opened r = Some img →
     plain_format img) →
  (∀ p, p ∈ acc → p ∈ fs ∧ ∃ k ext, k < i ∧ p = path k ext) →
  ∀ p, p ∈ (loop fs i urls acc).2 → p ∈ (loop fs i urls acc).1.
Proof.
  revert fs i acc. induction urls as [|url urls IH]; intros fs i acc Hfmt Hacc; simpl.
  { intros p Hp. by apply Hacc. }
  pose proof (download_one_returns fs i url) as Hret.
  pose proof (download_one_returned_present fs i url) as Hpres.
  pose proof (download_one_frame fs i url) as Hframe.
  destruct (round fs i url) as [fs' r]. simpl in *.
  apply IH.
  - intros u r' img Hu. apply Hfmt. by apply list_elem_of_further.
  - assert (∀ p, p ∈ acc → p ∈ fs' ∧ ∃ k ext, k < S i ∧ p = path k ext) as Hold.
    { intros p Hp. destruct (Hacc p Hp) as (Hin & k & e & Hk & ->). split.
      - apply Hframe; [|done]. intros ext [? _]%image_path_inj. lia.
      - exists k, e. split; [lia|done]. }
    destruct r as [q|]; [|done].
    intros p [Hp|Hp]%elem_of_app; [by apply Hold|].
    apply list_elem_of_singleton in Hp as ->. split.
    + apply Hpres; [|done]. intros r' img. apply Hfmt, list_elem_of_here.
    + destruct (Hret q eq_refl) as (e & -> & _). exists i, e. split; [lia|done].
Qed.

End DownloadMore.

(** The name of an image file is one component when neither the id nor
    the extension holds a slash. *)
Lemma image_file_name_part (country_id country_name : string) (i : nat) (ext : string) :
  Py.has_char "/" country_id = false → Py.has_char "/" ext = false →
  Path.is_part (image_file_name country_id country_name i ext) = true ∧
  Py.has_char "/" (image_file_name country_id country_name i ext) = false.
Proof.
  intros Hid Hext. unfold image_file_name. split; [apply is_part_stem|].
  rewrite has_char_app, Hid. cbn [orb].
  rewrite has_char_app. cbn [Py.has_char]. rewrite has_char_app, sanitize_no_slash.
  rewrite has_char_app. cbn [Py.has_char orb].
  rewrite has_char_app, (digits_no_slash _ (all_digits_format (i + 1))).
  rewrite has_char_app. cbn [Py.has_char orb]. by rewrite Hext.
Qed.

(** X15. Whatever the network answers and whatever the file system
    holds, the downloader returns at most one path per URL, and each
    returned path is the path of the entity for the index of one of the
    URLs.  When neither the id nor a format name holds a slash, such a
    path lies in the target directory itself: its components are those
    of the directory followed by the name of the file. *)
Theorem download_returns_batch_paths (get : web)
    (output_dir country_id country_name : string) (fs : gset string) (urls : list string) :
  length (_download_images get output_dir country_id country_name fs urls).2 ≤ length urls ∧
  (∀ p, p ∈ (_download_images get output_dir country_id country_name fs urls).2 →
     ∃ k url ext,
       urls !! k = Some url ∧ p = image_path output_dir country_id country_name k ext) ∧
  (Py.has_char "/" country_id = false →
   (∀ url r img, url ∈ urls → get url = Some r → opened r = Some img →
      Py.has_char "/" (true_format img) = false) →
   ∀ p, p ∈ (_download_images get output_dir country_id country_name fs urls).2 →
     ∃ k ext,
       k < length urls ∧
       Path.parse p
       = Path.Make (Path.root (Path.parse output_dir))
           (Path.parts (Path.parse output_dir)
              ++ [image_file_name country_id country_name k ext])).
Proof.
  unfold _download_images. split_and!.
  - pose proof (download_loop_length get output_dir country_id country_name urls fs 0 []).
    simpl in *. lia.
  - intros p [Hp|(k & url & ext & Hk & -> & _)]%download_loop_returns;
      [by apply elem_of_nil in Hp|].
    by exists k, url, ext.
  - intros Hid Hfmt p [Hp|(k & url & ext & Hk & -> & Hext)]%download_loop_returns;
      [by apply elem_of_nil in Hp|].
    exists k, ext. split; [by eapply lookup_lt_Some|].
    assert (Py.has_char "/" ext = false) as Hslash.
    { destruct Hext as [->|(r & img & Hr & Himg & ->)]; [done|].
      eapply Hfmt; [|done..]. by eapply list_elem_of_lookup_2. }
    destruct (image_file_name_part country_id country_name k ext Hid Hslash)
      as [Hpart Hname].
    unfold image_path. by apply parse_path_join_name.
Qed.



(** X17. Whatever the file system held before and even when body
    streams break or files cannot be opened, every path that the
    downloader returns names a file that is on disk after the batch,
    provided the format names are plain: none is JPG and none holds a
    slash. *)
Theorem download_returned_on_disk (get : web)
    (output_dir country_id country_name : string) (fs : gset string) (urls : list string) :
  (∀ url r img, url ∈ urls → get url = Some r → opened r = Some img →
     plain_format img) →
  ∀ p, p ∈ (_download_images get output_dir country_id country_name fs urls).2 →
       p ∈ (_download_images get output_dir country_id country_name fs urls).1.
Proof.
  intros Hfmt. unfold _download_images. apply download_loop_present; [done|].
  by intros p ?%elem_of_nil.
Qed.

Lemma download_returned_on_disk_witness :
  "images/12_Wakanda/12_Wakanda_001.png"
    ∈ (_download_images
         (λ _, Some (Response 200 (Some "image/png") true true
                       (Some (PilImage (Some "PNG") 640 480)) true))
         "images/12_Wakanda" "12" "Wakanda"
         {[ "images/12_Wakanda/12_Wakanda_001.png" ]} ["https://example.org/a.png"]).1.
Proof.
  apply download_returned_on_disk.
  - intros url r img _ [= <-] [= <-]. done.
  - vm_compute. apply list_elem_of_here.
Defined.

(** An id with slashes: an absolute id takes the files out of the
    target directory, and the downloader still returns what it wrote. *)
Example download_absolute_id :
  (_download_images
     (λ _, Some (Response 200 (Some "image/png") true true
                   (Some (PilImage (Some "PNG") 640 480)) true))
     "images/x_Wakanda" "/tmp/x" "Wakanda" ∅ ["https://example.org/a.png"]).2
  = ["/tmp/x_Wakanda_001.png"].
Proof. reflexivity. Qed.

(** Why the format names have to be plain: a format name that ends in
    a slash and a dot would give, once the path is put together, the
    provisional file itself, which is removed right after the image was
    saved again; the path is returned and names no file. *)
Example download_format_with_slash :
  let run :=
    _download_images
      (λ _, Some (Response 200 (Some "image/jpeg") true true
                    (Some (PilImage (Some "JPG/.") 640 480)) true))
      "images/12_Wakanda" "12" "Wakanda" ∅ ["https://example.org/a.jpg"] in
  run.2 = ["images/12_Wakanda/12_Wakanda_001.jpg"] ∧ elements run.1 = [].
Proof. split; reflexivity. Qed.

Lemma download_returns_batch_paths_witness :
  length (_download_images (λ _, None) "images/12_Wakanda" "12" "Wakanda" ∅
            ["https://example.org/a.jpg"; "https://example.org/b.jpg"]).2 ≤ 2.
Proof.
  apply (download_returns_batch_paths (λ _, None) "images/12_Wakanda" "12" "Wakanda" ∅
           ["https://example.org/a.jpg"; "https://example.org/b.jpg"]).
Defined.

(** ** The orchestrator: bounds and the archive-only mode *)

Lemma limit_images_bound (max_count : Z) (s : gset string) :
  length (limit_images max_count s) ≤ size s ∧
  ((0 < max_count)%Z → (Z.of_nat (length (limit_images max_count s)) ≤ max_count)%Z).
Proof.
  unfold limit_images, size, set_size. simpl.
  destruct (0 <? max_count)%Z eqn:Hpos; simpl.
  - destruct (max_count <? Z.of_nat (length (elements s)))%Z eqn:Hlt.
    + apply Z.ltb_lt in Hlt. rewrite length_take. lia.
    + apply Z.ltb_ge in Hlt. lia.
  - apply Z.ltb_ge in Hpos. lia.
Qed.

Lemma remove_each_spec (paths : list string) (fs : gset string) :
  NoDup paths → (∀ p, p ∈ paths → p ∈ fs) →
  remove_each paths fs = (fs ∖ list_to_set paths, true).
Proof.
  revert fs. induction paths as [|p paths IH]; intros fs Hnd Hin; simpl.
  - f_equal. set_solver.
  - apply NoDup_cons in Hnd as [Hp Hnd]. unfold os_remove.
    rewrite decide_True by (apply Hin, list_elem_of_here).
    rewrite IH; [f_equal; set_solver|done|].
    intros q Hq. apply elem_of_difference. split.
    + apply Hin. by apply list_elem_of_further.
    + intros ->%elem_of_singleton. done.
Qed.

(** X18. Once the directory of the country exists, the count that the
    call for a country returns is at most the number of URLs that leave
    the filter and, with a positive limit, at most [max_images]. *)
Theorem country_count_bounded (w : world) (opts : options) (base_output_dir : string)
    (fs : gset string) (name id : string) :
  mkdir_ok w (country_dir base_output_dir (Country id name)) = true →
  ∃ fs' n,
    download_images_for_country w opts base_output_dir fs name id = (fs', Returned n) ∧
    n ≤ size (_filter_image_urls
                (search_results_images (browser w (_create_search_url name))
                 ∪ page_content_images (browser w (_create_search_url name))
                 ∪ jsonld_images (browser w (_create_search_url name))
                 ∪ embedded_json_images (browser w (_create_search_url name)))) ∧
    ((0 < max_images opts)%Z → (Z.of_nat n ≤ max_images opts)%Z).
Proof.
  intros Hmkdir. unfold download_images_for_country, country_dir in *. simpl in Hmkdir.
  rewrite Hmkdir. cbn [negb]. cbv zeta.
  set (pg := browser w (_create_search_url name)).
  rewrite (left_id_L ∅ (∪)).
  set (found := _filter_image_urls _).
  destruct (limit_images_bound (max_images opts) found) as [Hsize Hmax].
  destruct (load_ok pg); cbn [negb].
  2:{ exists fs, 0. split_and!; [done|lia|lia]. }
  pose proof (download_loop_length (http w)
                (path_join base_output_dir (id +:+ "_" +:+ _sanitize_filename name))
                id name (limit_images (max_images opts) found) fs 0 []) as Hlen.
  unfold _download_images.
  destruct (download_loop _ _ _ _ _ _ _ _) as [fs1 downloaded]. simpl in Hlen.
  assert (length downloaded ≤ size found ∧
          ((0 < max_images opts)%Z → (Z.of_nat (length downloaded) ≤ max_images opts)%Z))
    as [Hn1 Hn2] by (split; [lia|intros Hpos; specialize (Hmax Hpos); lia]).
  destruct (no_zip opts).
  { exists fs1, (length downloaded). split_and!; done. }
  destruct (_create_zip_file _ _ _ _) as [fs2|].
  2:{ exists fs1, 0. split_and!; [done|lia|lia]. }
  destruct (zip_only opts).
  - destruct (remove_each downloaded fs2) as [fs3 [|]].
    + exists fs3, (length downloaded). split_and!; done.
    + exists fs3, 0. split_and!; [done|lia|lia].
  - exists fs2, (length downloaded). split_and!; done.
Qed.

Lemma country_count_bounded_witness :
  ∃ fs' n,
    download_images_for_country
      (World (λ _, Page true {[ "https://example.org/a.png"; "https://example.org/b.png" ]}
                     ∅ ∅ ∅)
             (λ _, Some (Response 200 (Some "image/png") true true
                           (Some (PilImage (Some "PNG") 640 480)) true))
             (λ _, true) (λ _, true))
      (Options 1 true false) "images" ∅ "Wakanda" "12" = (fs', Returned n) ∧
    n ≤ 2 ∧ ((0 < 1)%Z → (Z.of_nat n ≤ 1)%Z).
Proof.
  destruct (country_count_bounded
              (World (λ _, Page true
                             {[ "https://example.org/a.png"; "https://example.org/b.png" ]}
                             ∅ ∅ ∅)
                     (λ _, Some (Response 200 (Some "image/png") true true
                                   (Some (PilImage (Some "PNG") 640 480)) true))
                     (λ _, true) (λ _, true))
              (Options 1 true false) "images" ∅ "Wakanda" "12" eq_refl)
    as (fs' & n & Hrun & Hsize & Hmax).
  exists fs', n. split_and!; [exact Hrun|exact Hsize|exact Hmax].
Defined.

(** X19. The archive-only mode on a run without mishap (empty directory
    at the start, page loaded, no broken stream, plain format names,
    archive written): the call returns the number of URLs that passed
    every step of the downloader, the opening of the file included, and
    afterwards none of the downloaded images is on disk any more; at
    most the archive is left. *)
Theorem zip_only_removes_images (w : world) (opts : options) (base_output_dir : string)
    (name id : string) :
  let pg := browser w (_create_search_url name) in
  let urls :=
    limit_images (max_images opts)
      (_filter_image_urls
         (search_results_images pg ∪ page_content_images pg
          ∪ jsonld_images pg ∪ embedded_json_images pg)) in
  let dir := country_dir base_output_dir (Country id name) in
  let zip_path := path_join base_output_dir ((id +:+ "_" +:+ name) +:+ "_images.zip") in
  mkdir_ok w dir = true → load_ok pg = true →
  well_behaved (http w) urls →
  no_zip opts = false → zip_only opts = true → zip_ok w zip_path = true →
  ∃ fs',
    download_images_for_country w opts base_output_dir ∅ name id
    = (fs', Returned (length (omap (verdict (http w)) urls))) ∧
    fs' ⊆ {[ zip_path ]} ∧
    ∀ p, p ∈ kept_paths (http w) dir id name 0 urls → p ∉ fs'.
Proof.
  cbv zeta. unfold country_dir. cbn [country_id country_name].
  unfold download_images_for_country. cbv zeta. rewrite (left_id_L ∅ (∪)).
  set (pg := browser w (_create_search_url name)).
  set (urls := limit_images _ _).
  set (dir := path_join base_output_dir (id +:+ "_" +:+ _sanitize_filename name)).
  set (zip_path := path_join base_output_dir ((id +:+ "_" +:+ name) +:+ "_images.zip")).
  intros Hmkdir Hload Hgood Hzip Honly Hok.
  rewrite Hmkdir, Hload. cbn [negb].
  unfold _download_images.
  rewrite download_loop_spec; [|by intros j ext _ ?%elem_of_empty|done].
  rewrite (right_id_L ∅ (∪)), app_nil_l, Hzip.
  unfold _create_zip_file. fold zip_path. rewrite Hok, Honly.
  set (kept := kept_paths (http w) dir id name 0 urls).
  rewrite remove_each_spec; [|apply kept_paths_NoDup|set_solver].
  eexists. split_and!.
  - f_equal. f_equal. apply kept_paths_length.
  - set_solver.
  - set_solver.
Qed.

Lemma zip_only_removes_images_witness :
  ∃ fs',
    download_images_for_country
      (World (λ _, Page true {[ "https://example.org/a.png" ]} ∅ ∅ ∅)
             (λ _, Some (Response 200 (Some "image/png") true true
                           (Some (PilImage (Some "PNG") 640 480)) true))
             (λ _, true) (λ _, true))
      (Options 10 false true) "images" ∅ "Wakanda" "12"
    = (fs', Returned 1) ∧
    fs' ⊆ {[ "images/12_Wakanda_images.zip" ]} ∧
    ∀ p, p ∈ ["images/12_Wakanda/12_Wakanda_001.png"] → p ∉ fs'.
Proof.
  pose proof (zip_only_removes_images
                (World (λ _, Page true {[ "https://example.org/a.png" ]} ∅ ∅ ∅)
                       (λ _, Some (Response 200 (Some "image/png") true true
                                     (Some (PilImage (Some "PNG") 640 480)) true))
                       (λ _, true) (λ _, true))
                (Options 10 false true) "images" "Wakanda" "12") as H.
  cbv zeta in H. destruct H as (fs' & Hrun & Hsub & Hgone); try reflexivity.
  { intros url r _ [= <-]. split; [done|]. by intros img [= <-]. }
  exists fs'. split_and!; [exact Hrun|exact Hsub|exact Hgone].
Defined.

(** ** The entry point *)

(** X20. The exit status of [main].  Two selection flags at once, a
    failed set-up and an empty selection (no flag and a list file that
    is missing or holds no line with a colon) end the run with 1.
    Otherwise, when the directory of every selected country can be
    created, the run ends with 0, whatever the pages show and however
    many images are downloaded, even none. *)
Theorem main_exit_status (w : world) (opts : options) (args : arguments) (init_ok : bool)
    (files : string → option string) (fs : gset string) :
  (truthy (arg_country_id args) && truthy (arg_country_name args) = true →
   main w opts args init_ok files fs = 1%Z) ∧
  (init_ok = false → main w opts args init_ok files fs = 1%Z) ∧
  (selected_countries args files = [] → main w opts args init_ok files fs = 1%Z) ∧
  (truthy (arg_country_id args) && truthy (arg_country_name args) = false →
   init_ok = true →
   selected_countries args files ≠ [] →
   (∀ c, c ∈ selected_countries args files →
      mkdir_ok w (country_dir (arg_output_dir args) c) = true) →
   main w opts args init_ok files fs = 0%Z).
Proof.
  unfold main. split_and!.
  - by intros ->.
  - intros ->. by destruct (_ && _).
  - intros ->. destruct (_ && _); [done|]. by destruct init_ok.
  - intros -> -> Hne Hdirs. cbn [negb].
    destruct (process_countries_returns w opts (arg_output_dir args)
                (selected_countries args files) fs 0 Hdirs) as (ns & fs' & _ & _ & _ & Hexit).
    destruct (selected_countries args files); [done|]. exact Hexit.
Qed.

Lemma main_exit_status_witness :
  main (World (λ _, Page false ∅ ∅ ∅ ∅) (λ _, None) (λ _, true) (λ _, true))
       (Options 10 false false)
       (Arguments "country_list.txt" "images" (Some "12") None) true (λ _, None) ∅ = 0%Z ∧
  main (World (λ _, Page false ∅ ∅ ∅ ∅) (λ _, None) (λ _, true) (λ _, true))
       (Options 10 false false)
       (Arguments "country_list.txt" "images" None None) true (λ _, None) ∅ = 1%Z.
Proof.
  split.
  - apply main_exit_status; [reflexivity|reflexivity|done|]. intros c _. reflexivity.
  - apply main_exit_status. reflexivity.
Defined.

(** ** The parser and the format it expects *)

Section ParserMore.

Local Arguments Py.is_space : simpl never.
Local Arguments Ascii.eqb : simpl never.

Implicit Types (s t : string) (a : ascii).





End ParserMore.



(** X22. What the parser returns is clean: no id holds a colon, ids and
    names neither begin nor end with a white-space character (stripping
    them changes nothing), and there are at most as many entities as
    lines: a text of [n] lines closed by a line feed gives at most [n]
    entities, and at most one more when an unterminated line follows. *)
Theorem parsed_countries_clean (file : option string) :
  (∀ c, c ∈ get_countries_from_file file →
     Py.has_char ":" (country_id c) = false ∧
     Py.strip (country_id c) = country_id c ∧
     Py.strip (country_name c) = country_name c ∧
     (∀ text, text = country_id c ∨ text = country_name c →
        (∀ x xs, Utf8.chars text = x :: xs → Py.is_space x = false) ∧
        (∀ x xs, Utf8.chars text = xs ++ [x] → Py.is_space x = false))) ∧
  length (get_countries_from_file file) ≤ length (readlines (default "" file)) ∧
  (∀ lines last,
     Forall (λ line, Py.has_char newline line = false) lines →
     Py.has_char newline last = false →
     length (get_countries_from_file (Some (unlines lines +:+ last)))
     ≤ length lines + (if String.eqb last "" then 0 else 1)).
Proof.
  assert (∀ lines : list string, length (omap entity_of_line lines) ≤ length lines)
    as Hcount.
  { intros lines. induction lines as [|line lines IH]; [done|].
    cbn [omap list_omap length].
    destruct (entity_of_line line); cbn [length]; [by apply le_n_S|by apply le_S]. }
  split; [|split]; cycle 2.
  { intros lines last Hlines Hlast. unfold get_countries_from_file, parse_lines.
    rewrite parse_loop_spec, readlines_unlines by done. cbn [countries app].
    etrans; [apply Hcount|]. rewrite length_app, length_fmap.
    by destruct (String.eqb last ""). }
  all: destruct file as [text|]; [|by intros c ?%elem_of_nil || (simpl; lia)].
  all: unfold get_countries_from_file, parse_lines; rewrite parse_loop_spec; simpl.
  - intros c (line & _ & Hline)%list_elem_of_omap.
    unfold entity_of_line in Hline.
    destruct (Py.has_char ":" line); [|done]. injection Hline as <-. simpl.
    split_and!; [|apply strip_idempotent..|].
    + apply has_char_strip, split_head_clean.
    + intros t [->| ->]; apply stripped_ends, strip_idempotent.
  - apply Hcount.
Qed.

Lemma parsed_countries_clean_witness :
  Py.has_char ":" "3" = false ∧ Py.strip "3" = "3" ∧ Py.strip "a: b" = "a: b".
Proof.
  destruct (proj1 (parsed_countries_clean (Some " 3 : a: b ")) (Country "3" "a: b"))
    as (H1 & H2 & H3 & _); [apply list_elem_of_here|].
  split_and!; [exact H1|exact H2|exact H3].
Defined.

(** ** The search URL *)

Section SearchUrl.

Local Arguments Ascii.eqb : simpl never.

Lemma quote_cons (a : ascii) (s : string) :
  quote (String a s) = quote (String a "") +:+ quote s.
Proof.
  cbn [quote].
  destruct (is_alnum a || (nat_of_ascii a =? 95) || (nat_of_ascii a =? 46)
            || (nat_of_ascii a =? 45) || (nat_of_ascii a =? 126) || (nat_of_ascii a =? 47));
    reflexivity.
Qed.

Lemma quote_char_safe (a : ascii) : Py.all_chars url_safe (quote (String a "")) = true.
Proof. destruct a as [[] [] [] [] [] [] [] []]; reflexivity. Qed.

Lemma quote_safe (s : string) : Py.all_chars url_safe (quote s) = true.
Proof.
  induction s as [|a s IH]; [done|].
  by rewrite quote_cons, all_chars_app, quote_char_safe, IH.
Qed.

Lemma hex_digit_inj (n m : nat) : n < 16 → m < 16 → hex_digit n = hex_digit m → n = m.
Proof.
  intros Hn Hm H.
  do 16 (destruct n as [|n];
         [do 16 (destruct m as [|m]; [by vm_compute in H|]); lia|]).
  lia.
Qed.

Lemma hex_pair_inj (a b : ascii) :
  hex_digit (nat_of_ascii a / 16) = hex_digit (nat_of_ascii b / 16) →
  hex_digit (nat_of_ascii a mod 16) = hex_digit (nat_of_ascii b mod 16) →
  a = b.
Proof.
  intros Hhigh Hlow.
  pose proof (nat_ascii_bounded a) as Ha. pose proof (nat_ascii_bounded b) as Hb.
  apply hex_digit_inj in Hhigh;
    [|apply Nat.Div0.div_lt_upper_bound; lia|apply Nat.Div0.div_lt_upper_bound; lia].
  apply hex_digit_inj in Hlow; [|apply Nat.mod_upper_bound; lia..].
  assert (nat_of_ascii a = nat_of_ascii b) as H.
  { rewrite (Nat.div_mod_eq (nat_of_ascii a) 16), (Nat.div_mod_eq (nat_of_ascii b) 16).
    by rewrite Hhigh, Hlow. }
  apply (f_equal ascii_of_nat) in H. by rewrite !ascii_nat_embedding in H.
Qed.

(** Quoting loses nothing: two names with the same quoted form are the
    same name. *)
Lemma quote_inj (s t : string) : quote s = quote t → s = t.
Proof.
  revert t. induction s as [|a s IH]; intros [|b t]; cbn [quote].
  - done.
  - by destruct (_ || _).
  - by destruct (_ || _).
  - destruct (is_alnum a || _ || _ || _ || _ || _) eqn:Ea;
      destruct (is_alnum b || _ || _ || _ || _ || _) eqn:Eb.
    + intros [= -> H]. f_equal. by apply IH.
    + intros [= -> _]. done.
    + intros [= <- _]. done.
    + intros [= Hhigh Hlow H]. by rewrite (hex_pair_inj a b Hhigh Hlow), (IH t H).
Qed.

End SearchUrl.

(** X23. The search URL keeps the query apart and tells the names
    apart: the quoted country name holds only letters, digits and the
    characters [_ . - ~ / %], so no character of the name (blank,
    ampersand, equals sign, hash, question mark) can end the parameter
    [q] or add another one, and two different names never give the same
    URL. *)
Theorem search_url_query_safe (country_name : string) :
  (∀ c, url_safe c = false → Py.has_char c (quote country_name) = false) ∧
  (∀ other, _create_search_url other = _create_search_url country_name →
     other = country_name).
Proof.
  split.
  - intros c Hc. destruct (Py.has_char c (quote country_name)) eqn:E; [|done].
    pose proof (all_chars_has_char _ _ _ (quote_safe country_name) E). congruence.
  - intros other H. unfold _create_search_url in H.
    apply app_cancel_left in H.
    by apply app_cancel_right, quote_inj in H.
Qed.

Lemma search_url_query_safe_witness :
  Py.has_char "&" (quote "Trinidad & Tobago") = false.
Proof. apply (search_url_query_safe "Trinidad & Tobago"). reflexivity. Defined.

(** ** What goes into the archive *)

Section Archive.

Local Arguments Ascii.eqb : simpl never.

Lemma from_last_dot_none (s : string) : Py.has_char "." s = false → from_last_dot s = None.
Proof.
  induction s as [|a s IH]; [done|]. simpl. intros [Ha Hs]%orb_false_iff.
  by rewrite (IH Hs), Ha.
Qed.

Lemma from_last_dot_ext (stem ext : string) :
  Py.has_char "." ext = false →
  from_last_dot (stem +:+ String "." ext) = Some (String "." ext).
Proof.
  intros Hext. induction stem as [|a stem IH].
  - rewrite app_nil_left. cbn [from_last_dot]. rewrite (from_last_dot_none _ Hext).
    by rewrite Ascii.eqb_refl.
  - rewrite app_cons. cbn [from_last_dot]. by rewrite IH.
Qed.

Lemma suffix_ext (stem ext : string) :
  stem ≠ "" → ext ≠ "" → Py.has_char "." ext = false →
  suffix (stem +:+ String "." ext) = String "." ext.
Proof.
  intros Hstem Hne Hext. destruct stem as [|a stem]; [done|].
  rewrite app_cons. unfold suffix. rewrite (from_last_dot_ext _ _ Hext).
  by destruct ext.
Qed.

Lemma final_extension_lower (img : pil_image) :
  final_extension img ≠ "" ∧ Py.lower (final_extension img) = final_extension img.
Proof.
  unfold final_extension.
  destruct (String.eqb (true_format img) "jpeg"); [done|].
  split; [|apply lower_idempotent_format].
  unfold true_format. by destruct (img_format img) as [[|a f]|].
Qed.

End Archive.

(** X24. Which downloaded images reach the archive: the file kept for
    an image is put into the archive exactly when its extension, the
    lower-case format name ([jpg] for JPEG), is one of [jpg], [jpeg],
    [png], [webp], [gif].  An image of any other format, BMP or MPO say,
    is downloaded and counted but is not archived. *)
Theorem archive_by_extension (output_dir country_id country_name : string) (i : nat)
    (img : pil_image) :
  Py.has_char "." (final_extension img) = false →
  image_path output_dir country_id country_name i (final_extension img)
  = path_join output_dir (image_file_name country_id country_name i (final_extension img)) ∧
  in_archive (image_file_name country_id country_name i (final_extension img))
  = existsb (String.eqb ("." +:+ final_extension img)) zip_extensions.
Proof.
  intros Hdot. split; [reflexivity|].
  destruct (final_extension_lower img) as [Hne Hlow].
  unfold in_archive, image_file_name.
  set (ext := final_extension img) in *.
  assert (country_id +:+ "_" +:+ _sanitize_filename country_name +:+ "_"
            +:+ format_03d (i + 1) +:+ "." +:+ ext
          = (country_id +:+ "_" +:+ _sanitize_filename country_name +:+ "_"
               +:+ format_03d (i + 1)) +:+ String "." ext) as ->.
  { by rewrite !app_assoc_str. }
  rewrite has_char_middle, suffix_ext; [|by destruct country_id|done..].
  change (String "." ext) with ("." +:+ ext).
  rewrite lower_app, Hlow. done.
Qed.

Lemma archive_by_extension_witness :
  in_archive (image_file_name "12" "Wakanda" 0
                (final_extension (PilImage (Some "BMP") 640 480))) = false ∧
  in_archive (image_file_name "12" "St. Lucia" 0
                (final_extension (PilImage (Some "JPEG") 640 480))) = true.
Proof.
  split.
  - refine (eq_trans (proj2 (archive_by_extension "images/12_Wakanda" "12" "Wakanda" 0
                               (PilImage (Some "BMP") 640 480) _)) _); reflexivity.
  - refine (eq_trans (proj2 (archive_by_extension "images/12_St. Lucia" "12" "St. Lucia" 0
                               (PilImage (Some "JPEG") 640 480) _)) _); reflexivity.
Defined.

(** ** The URLs handed to the downloader *)

(** X25. The list that the cap hands to the downloader holds each URL
    at most once and only URLs of the filtered set, so a URL found by
    several strategies is fetched once; without a positive limit, or
    when the limit is not exceeded, every URL of the set is in it. *)
Theorem limit_images_distinct (max_count : Z) (s : gset string) :
  NoDup (limit_images max_count s) ∧
  (∀ url, url ∈ limit_images max_count s → url ∈ s) ∧
  ((max_count ≤ 0 ∨ Z.of_nat (size s) ≤ max_count)%Z →
   ∀ url, url ∈ s → url ∈ limit_images max_count s).
Proof.
  unfold limit_images, size, set_size. simpl. split_and!.
  - destruct (_ && _); [|apply NoDup_elements].
    apply (sublist_NoDup _ (elements s)); [apply NoDup_elements|apply sublist_take].
  - intros url. destruct (_ && _).
    + intros H%subseteq_take. by apply elem_of_elements.
    + apply elem_of_elements.
  - intros Hcase url Hurl.
    destruct (0 <? max_count)%Z eqn:Hpos; simpl; [|by apply elem_of_elements].
    destruct (max_count <? Z.of_nat (length (elements s)))%Z eqn:Hlt;
      [|by apply elem_of_elements].
    apply Z.ltb_lt in Hpos, Hlt. lia.
Qed.

Lemma limit_images_distinct_witness :
  "https://a/1.jpg" ∈ limit_images 0 ({[ "https://a/1.jpg" ]} ∪ {[ "https://a/1.jpg" ]}).
Proof.
  apply limit_images_distinct; [left; lia|set_solver].
Defined.
